(** * ComfyUI workflow analysis (workflow_analysis.py): a shallow embedding

    The analysed module traces a node-link workflow graph backwards from
    its image-saving node and files what it meets under categories.  The
    embedding follows the Python source function by function:

    - [find_image_save_node]         (Sink Locator)
    - [get_node_inputs_from_links]   (Edge Index)
    - [trace_prompt_source]          (Text Resolver, the closure
                                      [_trace_prompt_source])
    - [handle_conditioning_link]     (the CONDITIONING edge handler)
    - [traverse]                     (Provenance Tracer, the closure
                                      [_traverse])
    - [trace_workflow_inputs], [process_workflow_metadata],
      [analyze_comfyui_workflow]

    and, of app.py, [get_true_base_name], the function that groups a
    file with its preview and metadata files.

    Input typing.  The workflow is JSON data.  Node records, input slots
    and links are modelled as records whose fields have the types the
    source documents (a link is the 6-element list
    [link_num, output_node_id, output_idx, input_node_id, input_idx, type]);
    a field that [dict.get] may find absent is an [option].  The values
    of a node mapping are node records.  A record may be the empty dict:
    the code tests the records it looks up for truth, and an empty one
    is passed over as a missing one is ([truthy], [get_record]).  A node
    list may hold an element that is no dict, on which the normalisation
    raises [AttributeError] ([NodesBrokenSequence]).  Strings are ASCII.
    Literal widget values stay dynamically typed ([pyval]).

    Effects.  The two closures share their visited set and the
    [identified_inputs] dict over all recursive calls: both are threaded
    through as state.  Exceptions are results ([Raise]).  The recursion
    of the two walks is bounded by a budget, and the budget the entry
    points use is proved sufficient on every graph: the entry points
    describe the runs in which the interpreter's own limits are not
    reached (RecursionError at 1000 nested calls, ValueError on an
    integer of more than 4300 digits; see [recursion_headroom] and
    [within_digit_limit]).  The Result
    Normalizer rewrites its items in place; here it is a function from
    the map it is given to the map it returns, and two maps are compared
    as values.

    Contents: the embedding; termination of the walks; facts about the
    Result Normalizer; example workflows; the properties C1 to C10 and
    X1 to X3, each with the evaluation of the code on an example; what
    the traversal preserves and what it does not miss, with the
    properties X4 to X19 of the tracer, the normalizer and the entry
    point; the embedding of [get_true_base_name] and its properties X20
    to X22. *)

From Stdlib Require Import ZArith String Ascii List Bool Lia.
From Stdlib Require Import DecimalString DecimalZ DecimalPos.
From stdpp Require Import gmap strings list fin_maps.
Import ListNotations.

Local Open Scope string_scope.
Local Open Scope list_scope.
Local Open Scope Z_scope.

(** ** Python primitives *)

Module Py.

(** JSON values as Python sees them once parsed.  A float is carried as
    the text [str] prints for it: the analysis never computes with
    floats, it only passes them through or prints them. *)
#[warnings="-register-all"]
Inductive pyval : Type :=
| PNone
| PBool (b : bool)
| PInt (z : Z)
| PFloat (text : string)
| PStr (s : string)
| PList (l : list pyval)
| PDict (d : list (string * pyval)).

(** [c.lower()] on one ASCII character. *)
Definition lower_ascii (c : ascii) : ascii :=
  let n := nat_of_ascii c in
  if (Nat.leb 65 n && Nat.leb n 90)%bool then ascii_of_nat (n + 32) else c.

(** [s.lower()] *)
Fixpoint lower (s : string) : string :=
  match s with
  | EmptyString => EmptyString
  | String c r => String (lower_ascii c) (lower r)
  end.

(** [needle in hay] on strings. *)
Fixpoint contains (needle hay : string) : bool :=
  (String.prefix needle hay
   || match hay with
      | EmptyString => false
      | String _ r => contains needle r
      end)%bool.

(** [c.isspace()] for ASCII: TAB..CR, FS..US and the blank. *)
Definition isspace (c : ascii) : bool :=
  let n := nat_of_ascii c in
  ((Nat.leb 9 n && Nat.leb n 13) || (Nat.leb 28 n && Nat.leb n 32))%bool.

Fixpoint lstrip (s : string) : string :=
  match s with
  | String c r => if isspace c then lstrip r else s
  | EmptyString => EmptyString
  end.

Fixpoint rstrip (s : string) : string :=
  match s with
  | EmptyString => EmptyString
  | String c r =>
      match rstrip r with
      | EmptyString => if isspace c then EmptyString else String c EmptyString
      | r' => String c r'
      end
  end.

(** [s.strip()] *)
Definition strip (s : string) : string := rstrip (lstrip s).

(** [sep.join(parts)] *)
Fixpoint join (sep : string) (parts : list string) : string :=
  match parts with
  | [] => EmptyString
  | [p] => p
  | p :: rest => p +:+ sep +:+ join sep rest
  end.

(** [str(n)] for an [int]. *)
Definition str_of_int (z : Z) : string := NilZero.string_of_int (Z.to_int z).

Definition digit_of (c : ascii) : option Z :=
  let n := nat_of_ascii c in
  if (Nat.leb 48 n && Nat.leb n 57)%bool then Some (Z.of_nat (n - 48)) else None.

(** The digits of an integer literal, most significant first; a single
    underscore is allowed between two digits.  [prev] tells whether the
    previous character was a digit. *)
Fixpoint digits (acc : Z) (prev : bool) (s : string) : option Z :=
  match s with
  | EmptyString => if prev then Some acc else None
  | String c r =>
      match digit_of c with
      | Some d => digits (10 * acc + d) true r
      | None =>
          if (Ascii.eqb c "_" && prev)%bool then
            match r with
            | String c' _ =>
                match digit_of c' with
                | Some _ => digits acc false r
                | None => None
                end
            | EmptyString => None
            end
          else None
      end
  end.

(** [int(s)] for a [str]: surrounding whitespace, an optional sign, then
    decimal digits.  [None] stands for the [ValueError] Python raises. *)
Definition int_of_str (s : string) : option Z :=
  match strip s with
  | String "-" r => option_map Z.opp (digits 0 false r)
  | String "+" r => digits 0 false r
  | r => digits 0 false r
  end.

(** [repr(s)] for a [str] (ASCII): quote choice and escapes. *)
Definition hex_digit (n : nat) : ascii :=
  if Nat.ltb n 10 then ascii_of_nat (48 + n) else ascii_of_nat (87 + n).

Definition repr_char (quote : ascii) (c : ascii) : string :=
  let n := nat_of_ascii c in
  if Ascii.eqb c "\" then "\\"
  else if Ascii.eqb c quote then String "\" (String quote EmptyString)
  else if Nat.eqb n 10 then "\n"
  else if Nat.eqb n 13 then "\r"
  else if Nat.eqb n 9 then "\t"
  else if (Nat.ltb n 32 || Nat.leb 127 n)%bool then
    String "\" (String "x" (String (hex_digit (Nat.div n 16))
                              (String (hex_digit (Nat.modulo n 16)) EmptyString)))
  else String c EmptyString.

Fixpoint repr_chars (quote : ascii) (s : string) : string :=
  match s with
  | EmptyString => EmptyString
  | String c r => repr_char quote c +:+ repr_chars quote r
  end.

Definition dquote : ascii := ascii_of_nat 34.

Definition repr_str (s : string) : string :=
  let quote : ascii :=
    if (contains "'" s && negb (contains (String dquote EmptyString) s))%bool
    then dquote else "'"%char in
  String quote (repr_chars quote s +:+ String quote EmptyString).

(** [repr(v)]; [str(v)] differs from it on strings only. *)
Fixpoint repr (v : pyval) : string :=
  match v with
  | PNone => "None"
  | PBool true => "True"
  | PBool false => "False"
  | PInt z => str_of_int z
  | PFloat t => t
  | PStr s => repr_str s
  | PList l => "[" +:+ join ", " (List.map repr l) +:+ "]"
  | PDict d =>
      "{" +:+ join ", " (List.map (fun kv => repr_str (fst kv) +:+ ": " +:+ repr (snd kv)) d) +:+ "}"
  end.

(** [str(v)] *)
Definition str (v : pyval) : string :=
  match v with
  | PStr s => s
  | _ => repr v
  end.

End Py.

Import Py.

(** ** Exceptions and results *)

(** The exceptions the modelled code raises on the inputs of the data
    model: [int(target_node_id)] raises [ValueError] on a string that is
    no integer literal, indexing a list raises [IndexError], and
    [node_data.get] raises [AttributeError] on an element of the node
    list that is no dict. *)
Inductive exn : Type := ValueError | IndexError | AttributeError.

(** Result of running a piece of the analysis: a value, a raised
    exception, or more nested calls than the recursion budget allows
    ([OutOfFuel]: what the interpreter answers with RecursionError when
    the budget is what its recursion limit leaves).  The entry points
    run with a budget shown further down to suffice on every graph: they
    describe the runs in which the interpreter's limit is not reached. *)
Inductive outcome (A : Type) : Type :=
| Return (a : A)
| Raise (e : exn)
| OutOfFuel.

Arguments Return {A} a.
Arguments Raise {A} e.
Arguments OutOfFuel {A}.

#[global] Instance outcome_ret : MRet outcome := @Return.

#[global] Instance outcome_bind : MBind outcome := fun A B k c =>
  match c with
  | Return a => k a
  | Raise e => Raise e
  | OutOfFuel => OutOfFuel
  end.

(** ** Data model *)

(** An input-slot descriptor: [{"name": ..., "type": ...}]. *)
Record input_slot : Type := InputSlot {
  slot_name : option string;
  slot_type : option string
}.

(** The [id] field of a node record in list form: an integer or a string. *)
Inductive ident : Type := IdInt (z : Z) | IdStr (s : string).

Definition str_of_ident (i : ident) : string :=
  match i with
  | IdInt z => str_of_int z
  | IdStr s => s
  end.

(** A node record; [None] is an absent key.  [n_more_keys] tells whether
    the dict holds a key that the record does not show (ComfyUI stores
    [pos], [size], [order] and more): the code reads none of them, but a
    dict with any key is true where the code tests a record for truth. *)
Record node : Type := Node {
  n_id : option ident;
  n_type : option string;
  n_title : option string;
  n_mode : option Z;
  n_inputs : option (list input_slot);
  n_widgets_values : option (list pyval);
  n_more_keys : bool
}.

(** A link: [[link_num, output_node_id, output_idx, input_node_id,
    input_idx, type]]; the accessors are the positions 0..5. *)
Record link : Type := Link {
  link_0 : Z;
  link_1 : Z;
  link_2 : Z;
  link_3 : Z;
  link_4 : Z;
  link_5 : string
}.

(** A Python dict with string keys, in insertion order. *)
Definition dict (V : Type) : Type := list (string * V).

Fixpoint dict_get {V : Type} (d : dict V) (k : string) : option V :=
  match d with
  | [] => None
  | (k', v) :: rest => if String.eqb k' k then Some v else dict_get rest k
  end.

(** [d[k] = v]: an existing key keeps its position. *)
Fixpoint dict_set {V : Type} (d : dict V) (k : string) (v : V) : dict V :=
  match d with
  | [] => [(k, v)]
  | (k', v') :: rest =>
      if String.eqb k' k then (k, v) :: rest else (k', v') :: dict_set rest k v
  end.

(** A JSON value that is neither an object nor an array, and one that
    is no object. *)
Inductive scalar : Type :=
| SNone
| SBool (b : bool)
| SInt (z : Z)
| SFloat (text : string)
| SStr (s : string).

Inductive non_dict : Type :=
| Scalar (v : scalar)
| ListOf (l : list pyval).

(** The value under the key [nodes]: a mapping of node records; a
    sequence of node records; a sequence that holds an element that is
    no dict, [bad] being the first such element and [before] the records
    that precede it; or a value that is neither a dict nor a list.  A
    mapping that holds a value that is no dict is not modelled: the
    values of a mapping are typed as records. *)
Inductive nodes_json : Type :=
| NodesMapping (d : list (string * node))
| NodesSequence (l : list node)
| NodesBrokenSequence (before : list node) (bad : non_dict)
| NodesOther (v : scalar).

(** A workflow that is a dict; either key may be absent. *)
Record workflow : Type := Workflow {
  wf_nodes : option nodes_json;
  wf_links : option (list link)
}.

(** What the entry point may be handed: a dict, or a value that is
    none. *)
Inductive workflow_json : Type :=
| WorkflowDict (w : workflow)
| WorkflowOther (v : non_dict).

(** An entry of a category. *)
Record finding : Type := Finding {
  f_node_id : option string;
  f_node_type : option string;
  f_title : option string;
  f_type : option string;
  f_value : option pyval;
  f_description : option string
}.

(** [identified_inputs]: category name to findings. *)
Abbreviation category_map := (gmap string (list finding)).

(** [if c not in m: m[c] = []] *)
Definition ensure_category (c : string) (m : category_map) : category_map :=
  match m !! c with
  | Some _ => m
  | None => <[c := []]> m
  end.

(** [m[c].append(f)], the key being present. *)
Definition append_finding (c : string) (f : finding) (m : category_map) : category_map :=
  match m !! c with
  | Some items => <[c := items ++ [f]]> m
  | None => m
  end.

(** [l[i]] with Python's negative indices. *)
Definition list_index {A : Type} (l : list A) (i : Z) : outcome A :=
  let n := Z.of_nat (length l) in
  let j := if i <? 0 then n + i else i in
  if (0 <=? j) && (j <? n) then
    match l !! Z.to_nat j with
    | Some x => Return x
    | None => Raise IndexError
    end
  else Raise IndexError.

(** [node_data.get('mode', 0)] *)
Definition mode_of (node_data : node) : Z := default 0 (n_mode node_data).

(** ['widgets_values' in node_data and node_data['widgets_values']] *)
Definition has_widgets_values (node_data : node) : bool :=
  match n_widgets_values node_data with
  | Some (_ :: _) => true
  | _ => false
  end.

Definition has_key {A : Type} (value : option A) : bool :=
  match value with
  | Some _ => true
  | None => false
  end.

(** The truth value of a node record: a dict is true unless it is
    empty. *)
Definition truthy (node_data : node) : bool :=
  has_key (n_id node_data) || has_key (n_type node_data) || has_key (n_title node_data)
  || has_key (n_mode node_data) || has_key (n_inputs node_data)
  || has_key (n_widgets_values node_data) || n_more_keys node_data.

(** [nodes.get(k)] as a test for truth sees it ([if not node_data],
    [if output_node_data and ...]): the record under [k], and nothing
    when the key is absent or the record is the empty dict. *)
Definition get_record (nodes : dict node) (k : string) : option node :=
  match dict_get nodes k with
  | Some node_data => if truthy node_data then Some node_data else None
  | None => None
  end.

(** ** Graph Loader *)

(** The normalisation both [trace_workflow_inputs] and
    [analyze_comfyui_workflow] spell out: a mapping is re-keyed by
    [str(k)], a sequence is keyed by [str(node['id'])] and a record
    without [id] is skipped; [node_data.get('id')] raises on the first
    element that is no dict.  [Return None]: neither a dict nor a
    list. *)
Definition normalize_nodes (nodes_raw : nodes_json) : outcome (option (dict node)) :=
  match nodes_raw with
  | NodesMapping d =>
      Return (Some (fold_left (fun acc kv => dict_set acc (fst kv) (snd kv)) d []))
  | NodesSequence l =>
      Return (Some (fold_left
                      (fun acc node_data =>
                         match n_id node_data with
                         | Some node_id => dict_set acc (str_of_ident node_id) node_data
                         | None => acc
                         end) l []))
  | NodesBrokenSequence _ _ => Raise AttributeError
  | NodesOther _ => Return None
  end.

(** ** Sink Locator *)

Definition image_save_keywords : list string := ["save"; "output"; "export"].

Fixpoint find_image_save_node (nodes : dict node) : option (string * node) :=
  match nodes with
  | [] => None
  | (node_id, node_data) :: rest =>
      let node_type := lower (default "" (n_type node_data)) in
      if existsb (fun keyword => contains keyword node_type) image_save_keywords then
        match n_inputs node_data with
        | Some inputs =>
            if existsb (fun input_def =>
                          String.eqb (lower (default "" (slot_type input_def))) "image")
                 inputs
            then Some (node_id, node_data)
            else find_image_save_node rest
        | None =>
            if bool_decide (n_type node_data = Some "Save Image")
            then Some (node_id, node_data)
            else find_image_save_node rest
        end
      else find_image_save_node rest
  end.

(** ** Edge Index *)

(** The loop of [get_node_inputs_from_links]: [int(target_node_id)] is
    evaluated once per link, so it raises only when there is a link. *)
Fixpoint incoming_loop (target_node_id : string) (all_links incoming_links : list link)
  : outcome (list link) :=
  match all_links with
  | [] => Return incoming_links
  | l :: rest =>
      match int_of_str target_node_id with
      | None => Raise ValueError
      | Some t =>
          incoming_loop target_node_id rest
            (if link_3 l =? t then incoming_links ++ [l] else incoming_links)
      end
  end.

Definition get_node_inputs_from_links (target_node_id : string) (all_links : list link)
  : outcome (list link) :=
  incoming_loop target_node_id all_links [].

(** ** Text Resolver and Provenance Tracer *)

Definition text_link_types : list string := ["STRING"; "TEXT"; "CONDITIONING"].

Definition parameter_link_types : list string :=
  ["VAE"; "LATENT"; "CFG"; "SAMPLER"; "SCHEDULER"; "DENOISE"; "STEPS"].

Definition lora_loader_keywords : list string :=
  ["lora"; "loraloader"; "loadlora"; "applylora"; "apply_lora"].

(** [x in [...]] on strings. *)
Definition str_in (x : string) (l : list string) : bool := existsb (String.eqb x) l.

(** [[str(v) for v in widgets if isinstance(v, (str, int, float))]];
    [bool] is a subclass of [int]. *)
Definition scalar_strs (widgets : list pyval) : list string :=
  omap (fun v =>
          match v with
          | PStr _ | PInt _ | PBool _ | PFloat _ => Some (str v)
          | PNone | PList _ | PDict _ => None
          end) widgets.

(** The state the tracer threads through [_traverse]: the [visited] set
    and the [identified_inputs] dict, both shared by all recursive calls. *)
Record tstate : Type := TState {
  visited : gset string;
  identified_inputs : category_map
}.

Section Tracer.

(** The two closures capture the node mapping and the links. *)
Variable nodes : dict node.
Variable links : list link.

(** Recursion depth that suffices for either walk: each nested call marks
    a fresh identifier among the start and the link sources. *)
Definition depth_bound : nat := S (S (length links)).

(** The [for incoming_link in source_incoming_links] loop shared by the
    two branches of [_trace_prompt_source]; [found] is the flag
    [found_upstream_text], which the concat branch does not keep. *)
Fixpoint text_links_loop
    (rec : string -> gset string -> outcome (list string * gset string))
    (incoming : list link) (parts : list string) (found : bool)
    (prompt_visited : gset string)
  : outcome (list string * bool * gset string) :=
  match incoming with
  | [] => Return (parts, found, prompt_visited)
  | incoming_link :: rest =>
      let upstream_node_id := str_of_int (link_1 incoming_link) in
      let upstream_link_type := link_5 incoming_link in
      if str_in upstream_link_type text_link_types then
        r ← rec upstream_node_id prompt_visited;
        match fst r with
        | [] => text_links_loop rec rest parts found (snd r)
        | traced_parts => text_links_loop rec rest (parts ++ traced_parts) true (snd r)
        end
      else text_links_loop rec rest parts found prompt_visited
  end.

(** [_trace_prompt_source]; [prompt_visited] is the set local to one
    CONDITIONING edge, passed in and handed back. *)
Fixpoint trace_prompt_source (fuel : nat) (node_id_to_trace : string)
    (prompt_visited : gset string) : outcome (list string * gset string) :=
  match fuel with
  | O => OutOfFuel
  | S fuel' =>
      if bool_decide (node_id_to_trace ∈ prompt_visited) then Return ([], prompt_visited)
      else
        let prompt_visited := {[node_id_to_trace]} ∪ prompt_visited in
        match get_record nodes node_id_to_trace with
        | None => Return ([], prompt_visited)
        | Some source_node_data =>
            if negb (mode_of source_node_data =? 0) then Return ([], prompt_visited)
            else
              let source_node_type := default "Unknown Source" (n_type source_node_data) in
              if contains "concat" (lower source_node_type) then
                source_incoming_links ← get_node_inputs_from_links node_id_to_trace links;
                r ← text_links_loop (trace_prompt_source fuel') source_incoming_links
                      [] false prompt_visited;
                let '(parts, _, prompt_visited) := r in
                if has_widgets_values source_node_data then
                  Return (parts ++ scalar_strs (default [] (n_widgets_values source_node_data)),
                          prompt_visited)
                else Return (parts, prompt_visited)
              else
                source_incoming_links ← get_node_inputs_from_links node_id_to_trace links;
                r ← text_links_loop (trace_prompt_source fuel') source_incoming_links
                      [] false prompt_visited;
                let '(parts, found_upstream_text, prompt_visited) := r in
                if negb found_upstream_text && has_widgets_values source_node_data then
                  match n_widgets_values source_node_data with
                  | Some (first :: _) => Return (parts ++ [str first], prompt_visited)
                  | _ => Return (parts, prompt_visited)
                  end
                else Return (parts, prompt_visited)
        end
  end.

(** [item['value'] == final_prompt] *)
Definition value_is (final_prompt : string) (item : finding) : bool :=
  match f_value item with
  | Some (PStr s) => String.eqb s final_prompt
  | _ => false
  end.

(** The category a CONDITIONING edge selects from the lower-cased name of
    the input slot it enters. *)
Definition prompt_category (input_name : option string) : option string :=
  match input_name with
  | Some name =>
      if negb (String.eqb name "") && contains "positive" name then Some "Positive Prompts"
      else if negb (String.eqb name "") && contains "negative" name then Some "Negative Prompts"
      else None
  | None => None
  end.

(** The first lines of [_handle_conditioning_link]: the lower-cased name
    of the input slot of the current node that the link enters
    ([input_name_on_current_node], [None] when it cannot be looked up). *)
Definition conditioning_input_name (current_node_id : string) (l : link)
  : outcome (option string) :=
  let input_index_on_current_node := link_4 l in
  match dict_get nodes current_node_id with
  | Some node_data =>
      match n_inputs node_data with
      | Some inputs =>
          if input_index_on_current_node <? Z.of_nat (length inputs) then
            input_def ← list_index inputs input_index_on_current_node;
            Return (Some (lower (default "" (slot_name input_def))))
          else Return None
      | None => Return None
      end
  | None => Return None
  end.

(** [_handle_conditioning_link].  The [_traverse] argument of the source
    is never called in its body, so it is no argument here. *)
Definition handle_conditioning_link (current_node_id : string) (l : link)
    (identified : category_map) : outcome category_map :=
  let output_node_id := str_of_int (link_1 l) in
  input_name_on_current_node ← conditioning_input_name current_node_id l;
  match prompt_category input_name_on_current_node with
  | Some category =>
      r ← trace_prompt_source depth_bound output_node_id ∅;
      match fst r with
      | [] => Return identified
      | all_prompt_parts =>
          let final_prompt := strip (join " " all_prompt_parts) in
          let identified := ensure_category category identified in
          if existsb (value_is final_prompt) (default [] (identified !! category))
          then Return identified
          else
            let source := dict_get nodes output_node_id in
            Return (append_finding category
                      {| f_node_id := Some output_node_id;
                         f_node_type :=
                           Some (default "Unknown Type" (source ≫= n_type));
                         f_title :=
                           Some (default ("Node " +:+ output_node_id) (source ≫= n_title));
                         f_type := Some "TEXT";
                         f_value := Some (PStr final_prompt);
                         f_description := None |}
                      identified)
      end
  | None => Return identified
  end.

(** The category of the source of a MODEL edge. *)
Definition model_category (output_node_data : node) : string :=
  let model_type := default "Unknown Model Source" (n_type output_node_data) in
  if existsb (fun keyword => contains keyword (lower model_type)) lora_loader_keywords
  then "LoRA Models"
  else
    let has_model_input :=
      match n_inputs output_node_data with
      | Some inputs =>
          existsb (fun input_def =>
                     String.eqb (lower (default "" (slot_name input_def))) "model"
                     && bool_decide (slot_type input_def = Some "MODEL"))
            inputs
      | None => false
      end in
    if has_model_input then "LoRA Models" else "Base Models".

(** The body of the [for link in incoming_links] loop of [_traverse];
    [rec] is [_traverse] itself. *)
Definition handle_link (rec : string -> tstate -> outcome tstate)
    (current_node_id : string) (l : link) (st : tstate) : outcome tstate :=
  let output_node_id := str_of_int (link_1 l) in
  let link_type := link_5 l in
  if String.eqb link_type "CONDITIONING" then
    identified ← handle_conditioning_link current_node_id l (identified_inputs st);
    Return (TState (visited st) identified)
  else if String.eqb link_type "MODEL" then
    match get_record nodes output_node_id with
    | Some output_node_data =>
        if mode_of output_node_data =? 0 then
          let model_type := default "Unknown Model Source" (n_type output_node_data) in
          let model_title :=
            default ("Node " +:+ output_node_id +:+ " (" +:+ model_type +:+ ")")
              (n_title output_node_data) in
          let model_value := default [] (n_widgets_values output_node_data) in
          match model_value with
          | [] => Return st
          | _ :: _ =>
              let category := model_category output_node_data in
              let identified := ensure_category category (identified_inputs st) in
              let identified :=
                if existsb (fun item =>
                              bool_decide (f_node_id item = Some output_node_id)
                              && bool_decide (f_type item = Some link_type))
                     (default [] (identified !! category))
                then identified
                else append_finding category
                       {| f_node_id := Some output_node_id;
                          f_node_type := Some model_type;
                          f_title := Some model_title;
                          f_type := Some link_type;
                          f_value := Some (PList model_value);
                          f_description := None |}
                       identified in
              rec output_node_id (TState (visited st) identified)
          end
        else rec output_node_id st
    | None => rec output_node_id st
    end
  else if str_in link_type parameter_link_types then
    match get_record nodes output_node_id with
    | Some output_node_data =>
        if mode_of output_node_data =? 0 then
          let output_type := default "Unknown Source" (n_type output_node_data) in
          let output_node_title :=
            default ("Node " +:+ output_node_id +:+ " (" +:+ output_type +:+ ")")
              (n_title output_node_data) in
          let identified :=
            if has_widgets_values output_node_data then
              append_finding link_type
                {| f_node_id := Some output_node_id;
                   f_node_type := Some output_type;
                   f_title := Some output_node_title;
                   f_type := Some link_type;
                   f_value := Some (PList (default [] (n_widgets_values output_node_data)));
                   f_description := None |}
                (ensure_category link_type (identified_inputs st))
            else identified_inputs st in
          rec output_node_id (TState (visited st) identified)
        else rec output_node_id st
    | None => rec output_node_id st
    end
  else rec output_node_id st.

(** [for link in incoming_links: ...], threading the tracer state. *)
Fixpoint links_loop (body : link -> tstate -> outcome tstate)
    (incoming_links : list link) (st : tstate) : outcome tstate :=
  match incoming_links with
  | [] => Return st
  | l :: rest => st' ← body l st; links_loop body rest st'
  end.

Definition source_nodes_category : string := "Source Nodes (No Parameters)".

(** [_traverse] *)
Fixpoint traverse (fuel : nat) (current_node_id : string) (st : tstate) : outcome tstate :=
  match fuel with
  | O => OutOfFuel
  | S fuel' =>
      if bool_decide (current_node_id ∈ visited st) then Return st
      else
        let st := TState ({[current_node_id]} ∪ visited st) (identified_inputs st) in
        match get_record nodes current_node_id with
        | None => Return st
        | Some node_data =>
            let node_type := default "Unknown Type" (n_type node_data) in
            let node_title :=
              default ("Node " +:+ current_node_id +:+ " (" +:+ node_type +:+ ")")
                (n_title node_data) in
            incoming_links ← get_node_inputs_from_links current_node_id links;
            match incoming_links with
            | [] =>
                if (mode_of node_data =? 0) && negb (has_widgets_values node_data) then
                  Return (TState (visited st)
                            (append_finding source_nodes_category
                               {| f_node_id := Some current_node_id;
                                  f_node_type := Some node_type;
                                  f_title := Some node_title;
                                  f_type := None;
                                  f_value := None;
                                  f_description :=
                                    Some "Node with no incoming links and no explicit parameters." |}
                               (ensure_category source_nodes_category (identified_inputs st))))
                else Return st
            | _ :: _ => links_loop (handle_link (traverse fuel') current_node_id) incoming_links st
            end
        end
  end.

End Tracer.

(** The node mapping the entry points work on; [None] when the value
    under [nodes] is neither a dict nor a list, or is a list that holds
    an element that is no dict.  An absent key counts as an empty
    dict. *)
Definition nodes_of (w : workflow) : option (dict node) :=
  match normalize_nodes (default (NodesMapping []) (wf_nodes w)) with
  | Return normalized => normalized
  | _ => None
  end.

(** [trace_workflow_inputs]: the traversal from [start_node_id], run with
    a recursion budget of [depth_bound]. *)
Definition trace_workflow_inputs (start_node_id : string) (w : workflow)
  : outcome category_map :=
  normalized ← normalize_nodes (default (NodesMapping []) (wf_nodes w));
  match normalized with
  | None => Return ∅
  | Some nodes =>
      let links := default [] (wf_links w) in
      st ← traverse nodes links (depth_bound links) start_node_id (TState ∅ ∅);
      Return (identified_inputs st)
  end.

(** ** Result Normalizer and entry point *)

Definition filename_categories : list string :=
  ["Base Models"; "VAE"; "CLIP"; "Checkpoint"; "Model"; "LoRA Models"].

Definition set_value (item : finding) (v : pyval) : finding :=
  {| f_node_id := f_node_id item;
     f_node_type := f_node_type item;
     f_title := f_title item;
     f_type := f_type item;
     f_value := Some v;
     f_description := f_description item |}.

Section Normalizer.

(** [os.path.basename], which depends on the platform's path module. *)
Variable basename : string -> string.

(** The rewriting of one item's [value]: a list of exactly one element is
    replaced by the element, and by its basename when the element is a
    string and the category holds file names. *)
Definition flatten_item (category : string) (item : finding) : finding :=
  match f_value item with
  | Some (PList [value_to_process]) =>
      match value_to_process with
      | PStr s =>
          if str_in category filename_categories
          then set_value item (PStr (basename s))
          else set_value item value_to_process
      | _ => set_value item value_to_process
      end
  | _ => item
  end.

(** The [for item in items] loop with its two accumulators. *)
Fixpoint process_items (category : string) (items processed_items : list finding)
    (node_ids : list (option string)) : list finding :=
  match items with
  | [] => processed_items
  | item :: rest =>
      if bool_decide (f_node_id item ∈ node_ids)
      then process_items category rest processed_items node_ids
      else process_items category rest
             (processed_items ++ [flatten_item category item])
             (node_ids ++ [f_node_id item])
  end.

(** [process_workflow_metadata]; every category holds a list of items,
    so the branch for other shapes is not reached.  The source rewrites
    the items in place; no item is shared between two categories. *)
Definition process_workflow_metadata (raw_metadata : category_map) : category_map :=
  map_imap (fun category items => Some (process_items category items [] [])) raw_metadata.

(** [analyze_comfyui_workflow]; [Return None] is the value [None]. *)
Definition analyze_comfyui_workflow (workflow_data : workflow_json)
  : outcome (option category_map) :=
  match workflow_data with
  | WorkflowOther _ => Return None
  | WorkflowDict w =>
      normalized ← normalize_nodes (default (NodesMapping []) (wf_nodes w));
      match normalized with
      | None => Return None
      | Some nodes_dict =>
          let links := default [] (wf_links w) in
          if bool_decide (nodes_dict = []) || bool_decide (links = []) then Return None
          else
            match find_image_save_node nodes_dict with
            | None => Return None
            | Some (image_save_node_id, _) =>
                if String.eqb image_save_node_id "" then Return None
                else
                  identified ← trace_workflow_inputs image_save_node_id w;
                  Return (Some (process_workflow_metadata identified))
            end
      end
  end.

End Normalizer.

(** [posixpath.basename]: what follows the last slash. *)
Fixpoint posix_basename (p : string) : string :=
  match p with
  | EmptyString => EmptyString
  | String c r =>
      if contains "/" r then posix_basename r
      else if Ascii.eqb c "/" then r else p
  end.

(** * Properties *)

#[local] Set Warnings "-clear-no-such-hyp".

Arguments contains : simpl never.
Arguments lower : simpl never.
Arguments strip : simpl never.
Arguments join : simpl never.
Arguments str_of_int : simpl never.
Arguments int_of_str : simpl never.
Arguments str_in : simpl never.
Arguments mode_of : simpl never.
Arguments has_widgets_values : simpl never.
Arguments get_node_inputs_from_links : simpl never.
Arguments scalar_strs : simpl never.
Arguments prompt_category : simpl never.
Arguments model_category : simpl never.
Arguments depth_bound : simpl never.

(** ** The findings of the recording sites *)

(** The finding each of the four recording sites builds. *)
Definition prompt_finding_of (nodes : dict node) (output_node_id final_prompt : string)
  : finding :=
  {| f_node_id := Some output_node_id;
     f_node_type := Some (default "Unknown Type" (dict_get nodes output_node_id ≫= n_type));
     f_title :=
       Some (default ("Node " +:+ output_node_id) (dict_get nodes output_node_id ≫= n_title));
     f_type := Some "TEXT";
     f_value := Some (PStr final_prompt);
     f_description := None |}.

Definition model_finding_of (output_node_id : string) (source : node) : finding :=
  {| f_node_id := Some output_node_id;
     f_node_type := Some (default "Unknown Model Source" (n_type source));
     f_title :=
       Some (default ("Node " +:+ output_node_id +:+ " (" +:+
                      default "Unknown Model Source" (n_type source) +:+ ")")
               (n_title source));
     f_type := Some "MODEL";
     f_value := Some (PList (default [] (n_widgets_values source)));
     f_description := None |}.

Definition parameter_finding_of (link_type output_node_id : string) (source : node)
  : finding :=
  {| f_node_id := Some output_node_id;
     f_node_type := Some (default "Unknown Source" (n_type source));
     f_title :=
       Some (default ("Node " +:+ output_node_id +:+ " (" +:+
                      default "Unknown Source" (n_type source) +:+ ")")
               (n_title source));
     f_type := Some link_type;
     f_value := Some (PList (default [] (n_widgets_values source)));
     f_description := None |}.

Definition source_finding_of (current_node_id : string) (node_data : node) : finding :=
  {| f_node_id := Some current_node_id;
     f_node_type := Some (default "Unknown Type" (n_type node_data));
     f_title :=
       Some (default ("Node " +:+ current_node_id +:+ " (" +:+
                      default "Unknown Type" (n_type node_data) +:+ ")")
               (n_title node_data));
     f_type := None;
     f_value := None;
     f_description := Some "Node with no incoming links and no explicit parameters." |}.

(** ** Results and dictionaries *)

Lemma bind_Return {A B : Type} (c : outcome A) (k : A -> outcome B) (b : B) :
  c ≫= k = Return b -> exists a, c = Return a /\ k a = Return b.
Proof. destruct c as [a| |]; simpl; intros H; try discriminate. exists a. auto. Qed.

Lemma bind_not_OutOfFuel {A B : Type} (c : outcome A) (k : A -> outcome B) :
  c <> OutOfFuel -> (forall a, c = Return a -> k a <> OutOfFuel) -> c ≫= k <> OutOfFuel.
Proof. destruct c as [a| |]; simpl; intros Hc Hk; auto. Qed.

Lemma dict_get_In {V : Type} (d : dict V) (k : string) (v : V) :
  In (k, v) d -> exists v', dict_get d k = Some v'.
Proof.
  induction d as [|[k' v'] d IH]; simpl; intros Hin; [contradiction|].
  destruct (String.eqb k' k) eqn:E; [eauto|].
  destruct Hin as [Heq|Hin]; [|auto].
  inversion Heq; subst. rewrite String.eqb_refl in E. discriminate.
Qed.

(** A record that the tests for truth let through is under its key and
    holds a key. *)
Lemma get_record_Some (nodes : dict node) (k : string) (node_data : node) :
  get_record nodes k = Some node_data
  <-> dict_get nodes k = Some node_data /\ truthy node_data = true.
Proof.
  unfold get_record. destruct (dict_get nodes k) as [nd|]; [|split; [discriminate|]].
  - destruct (truthy nd) eqn:E; split.
    + intros [= <-]. auto.
    + by intros [[= <-] _].
    + discriminate.
    + intros [[= <-] H]. congruence.
  - intros [H _]. discriminate H.
Qed.

Lemma get_record_None (nodes : dict node) (k : string) :
  dict_get nodes k = None -> get_record nodes k = None.
Proof. unfold get_record. by intros ->. Qed.

(** An empty record is passed over as a missing one is: the traversal
    marks the node and returns, the Text Resolver yields nothing. *)
Lemma get_record_empty (nodes : dict node) (k : string) (node_data : node) :
  dict_get nodes k = Some node_data -> truthy node_data = false ->
  get_record nodes k = None.
Proof. unfold get_record. by intros -> ->. Qed.

Lemma traverse_empty_record (nodes : dict node) (links : list link) (fuel : nat)
    (id : string) (node_data : node) (st : tstate) :
  dict_get nodes id = Some node_data -> truthy node_data = false ->
  id ∉ visited st ->
  traverse nodes links (S fuel) id st
  = Return (TState ({[id]} ∪ visited st) (identified_inputs st)).
Proof.
  intros Hget Hempty Hvis. cbn [traverse].
  rewrite bool_decide_eq_false_2 by exact Hvis.
  by rewrite (get_record_empty _ _ _ Hget Hempty).
Qed.

Lemma trace_prompt_source_empty_record (nodes : dict node) (links : list link)
    (fuel : nat) (id : string) (node_data : node) (prompt_visited : gset string) :
  dict_get nodes id = Some node_data -> truthy node_data = false ->
  id ∉ prompt_visited ->
  trace_prompt_source nodes links (S fuel) id prompt_visited
  = Return ([], {[id]} ∪ prompt_visited).
Proof.
  intros Hget Hempty Hvis. cbn [trace_prompt_source].
  rewrite bool_decide_eq_false_2 by exact Hvis.
  by rewrite (get_record_empty _ _ _ Hget Hempty).
Qed.

Lemma has_widgets_values_truthy (node_data : node) :
  has_widgets_values node_data = true -> truthy node_data = true.
Proof.
  unfold has_widgets_values, truthy.
  destruct (n_widgets_values node_data); [|discriminate].
  intros _. cbn [has_key]. by rewrite !orb_true_r.
Qed.

Lemma n_type_truthy (node_data : node) (type : string) :
  n_type node_data = Some type -> truthy node_data = true.
Proof. unfold truthy. intros ->. cbn [has_key]. by rewrite !orb_true_r. Qed.

Lemma n_inputs_truthy (node_data : node) (inputs : list input_slot) :
  n_inputs node_data = Some inputs -> truthy node_data = true.
Proof. unfold truthy. intros ->. cbn [has_key]. by rewrite !orb_true_r. Qed.

Lemma n_widgets_values_truthy (node_data : node) (widgets : list pyval) :
  n_widgets_values node_data = Some widgets -> truthy node_data = true.
Proof. unfold truthy. intros ->. cbn [has_key]. by rewrite !orb_true_r. Qed.

(** A type that contains "concat" is a type that is there. *)
Lemma concat_truthy (node_data : node) :
  contains "concat" (lower (default "Unknown Source" (n_type node_data))) = true ->
  truthy node_data = true.
Proof.
  destruct (n_type node_data) as [type|] eqn:E; [intros _; by eapply n_type_truthy|].
  intros H. vm_compute in H. discriminate H.
Qed.

Lemma find_image_save_node_In (nodes : dict node) (node_id : string) (node_data : node) :
  find_image_save_node nodes = Some (node_id, node_data) -> In (node_id, node_data) nodes.
Proof.
  induction nodes as [|[k nd] rest IH]; simpl; [discriminate|].
  intros H.
  repeat match type of H with
         | (if ?b then _ else _) = _ => destruct b
         | match ?o with Some _ => _ | None => _ end = _ => destruct o
         end;
    first [ inversion H; subst; auto | auto ].
Qed.

(** ** Edge Index *)

(** What the loop computes: nothing is evaluated on an empty link list;
    otherwise the identifier is coerced, and the links whose position 3
    equals it are kept in their order. *)
Lemma incoming_loop_spec (target_node_id : string) (all_links acc : list link) :
  incoming_loop target_node_id all_links acc =
  match all_links with
  | [] => Return acc
  | _ :: _ =>
      match int_of_str target_node_id with
      | None => Raise ValueError
      | Some t => Return (acc ++ List.filter (fun l => link_3 l =? t) all_links)
      end
  end.
Proof.
  revert acc. induction all_links as [|l rest IH]; intros acc; simpl; [reflexivity|].
  destruct (int_of_str target_node_id) as [t|]; [|reflexivity].
  rewrite IH. destruct rest as [|l' rest'].
  - simpl. destruct (link_3 l =? t); [reflexivity | by rewrite app_nil_r].
  - destruct (link_3 l =? t); [by rewrite <- app_assoc | reflexivity].
Qed.

Lemma get_node_inputs_from_links_incl (target_node_id : string) (all_links inc : list link) :
  get_node_inputs_from_links target_node_id all_links = Return inc ->
  forall l, In l inc -> In l all_links.
Proof.
  unfold get_node_inputs_from_links. rewrite incoming_loop_spec.
  destruct all_links as [|l0 rest].
  - intros [= <-] l [].
  - destruct (int_of_str target_node_id) as [t|]; [|discriminate].
    intros [= <-] l Hl.
    apply (proj1 (filter_In (fun l => link_3 l =? t) l (l0 :: rest))) in Hl. tauto.
Qed.

Lemma get_node_inputs_from_links_terminates (target_node_id : string) (all_links : list link) :
  get_node_inputs_from_links target_node_id all_links <> OutOfFuel.
Proof.
  unfold get_node_inputs_from_links. rewrite incoming_loop_spec.
  destruct all_links; [discriminate|].
  destruct (int_of_str target_node_id); discriminate.
Qed.

(** *** Identifiers printed from integers *)

(** The number a digit sequence denotes, read after the prefix [acc]. *)
Fixpoint uint_value (acc : Z) (d : Decimal.uint) : Z :=
  match d with
  | Decimal.Nil => acc
  | Decimal.D0 l => uint_value (10 * acc + 0) l
  | Decimal.D1 l => uint_value (10 * acc + 1) l
  | Decimal.D2 l => uint_value (10 * acc + 2) l
  | Decimal.D3 l => uint_value (10 * acc + 3) l
  | Decimal.D4 l => uint_value (10 * acc + 4) l
  | Decimal.D5 l => uint_value (10 * acc + 5) l
  | Decimal.D6 l => uint_value (10 * acc + 6) l
  | Decimal.D7 l => uint_value (10 * acc + 7) l
  | Decimal.D8 l => uint_value (10 * acc + 8) l
  | Decimal.D9 l => uint_value (10 * acc + 9) l
  end.

Lemma digits_string_of_uint (d : Decimal.uint) :
  forall acc prev,
    d <> Decimal.Nil \/ prev = true ->
    digits acc prev (NilEmpty.string_of_uint d) = Some (uint_value acc d).
Proof.
  induction d; intros acc prev H; simpl;
    try (apply IHd; by right).
  destruct H as [H | ->]; [by destruct H | reflexivity].
Qed.

Lemma uint_value_acc (d : Decimal.uint) (acc : positive) :
  uint_value (Z.pos acc) d = Z.pos (Pos.of_uint_acc d acc).
Proof.
  revert acc. induction d; intros acc; simpl; try reflexivity;
    rewrite <- IHd; f_equal; lia.
Qed.

Lemma uint_value_of_uint (d : Decimal.uint) :
  uint_value 0 d = Z.of_N (Pos.of_uint d).
Proof.
  induction d; simpl; try reflexivity; try exact IHd;
    rewrite <- uint_value_acc; reflexivity.
Qed.

Lemma uint_value_to_uint (p : positive) : uint_value 0 (Pos.to_uint p) = Z.pos p.
Proof. rewrite uint_value_of_uint, DecimalPos.Unsigned.of_to. reflexivity. Qed.

(** Strings without a blank character are left alone by [strip]. *)
Fixpoint no_space (s : string) : bool :=
  match s with
  | EmptyString => true
  | String c r => negb (isspace c) && no_space r
  end.

Lemma rstrip_no_space (s : string) : no_space s = true -> rstrip s = s.
Proof.
  induction s as [|c r IH]; simpl; [reflexivity|].
  intros H. apply andb_true_iff in H as [Hc Hr]. rewrite (IH Hr).
  destruct r; [|reflexivity].
  apply negb_true_iff in Hc. by rewrite Hc.
Qed.

Lemma strip_no_space (s : string) : no_space s = true -> strip s = s.
Proof.
  intros H. unfold strip.
  assert (Hl : lstrip s = s).
  { destruct s as [|c r]; [reflexivity|]. simpl in *.
    apply andb_true_iff in H as [Hc _]. apply negb_true_iff in Hc. by rewrite Hc. }
  rewrite Hl. by apply rstrip_no_space.
Qed.

Lemma no_space_string_of_uint (d : Decimal.uint) :
  no_space (NilEmpty.string_of_uint d) = true.
Proof. induction d; simpl; auto. Qed.

(** [int(str(n)) == n]: an identifier printed from an integer is read
    back as that integer. *)
Lemma int_of_str_of_int (z : Z) : int_of_str (str_of_int z) = Some z.
Proof.
  destruct z as [|p|p]; [reflexivity| |].
  - unfold str_of_int, int_of_str. simpl Z.to_int.
    pose proof (DecimalPos.Unsigned.to_uint_nonnil p) as Hnn.
    pose proof (uint_value_to_uint p) as Hv.
    pose proof (digits_string_of_uint (Pos.to_uint p) 0 false (or_introl Hnn)) as Hd.
    pose proof (no_space_string_of_uint (Pos.to_uint p)) as Hs.
    unfold NilZero.string_of_int, NilZero.string_of_uint.
    destruct (Pos.to_uint p) eqn:E; [by destruct Hnn|..];
      rewrite (strip_no_space _ Hs); cbn [NilEmpty.string_of_uint];
      cbn [NilEmpty.string_of_uint] in Hd; rewrite Hd, Hv; reflexivity.
  - unfold str_of_int, int_of_str. simpl Z.to_int.
    pose proof (DecimalPos.Unsigned.to_uint_nonnil p) as Hnn.
    pose proof (uint_value_to_uint p) as Hv.
    pose proof (digits_string_of_uint (Pos.to_uint p) 0 false (or_introl Hnn)) as Hd.
    pose proof (no_space_string_of_uint (Pos.to_uint p)) as Hs.
    unfold NilZero.string_of_int, NilZero.string_of_uint.
    assert (Hs' : no_space (String "-" (NilEmpty.string_of_uint (Pos.to_uint p))) = true)
      by (simpl; exact Hs).
    destruct (Pos.to_uint p) eqn:E; [by destruct Hnn|..];
      rewrite (strip_no_space _ Hs'); rewrite Hd, Hv; reflexivity.
Qed.

Lemma get_node_inputs_from_links_numeric (target_node_id : string) (t : Z)
    (all_links : list link) :
  int_of_str target_node_id = Some t ->
  get_node_inputs_from_links target_node_id all_links
  = Return (List.filter (fun l => link_3 l =? t) all_links).
Proof.
  intros Ht. unfold get_node_inputs_from_links. rewrite incoming_loop_spec, Ht.
  destruct all_links; reflexivity.
Qed.

(** ** Termination of the two walks *)

Section Termination.

Variable nodes : dict node.
Variable links : list link.

(** The identifiers a walk can reach through a link: the printed
    sources of the links. *)
Definition sources : gset string :=
  list_to_set ((fun l => str_of_int (link_1 l)) <$> links).

Lemma source_in_sources (l : link) : In l links -> str_of_int (link_1 l) ∈ sources.
Proof.
  intros Hl. unfold sources. apply elem_of_list_to_set.
  apply list_elem_of_fmap. exists l. split; [reflexivity|]. by apply list_elem_of_In.
Qed.

Lemma size_list_to_set_le (l : list string) :
  (size (list_to_set l : gset string) <= length l)%nat.
Proof.
  induction l as [|x l IH].
  - rewrite list_to_set_nil, size_empty. reflexivity.
  - rewrite list_to_set_cons, size_union_alt, size_singleton. simpl length.
    assert (size (list_to_set l ∖ {[x]} : gset string) <= size (list_to_set l : gset string))%nat
      by (apply subseteq_size; set_solver).
    lia.
Qed.

Lemma size_candidates (start : string) :
  (size ({[start]} ∪ sources) < depth_bound links)%nat.
Proof.
  rewrite size_union_alt, size_singleton. unfold depth_bound.
  assert (size (sources ∖ {[start]}) <= size sources)%nat
    by (apply subseteq_size; set_solver).
  pose proof (size_list_to_set_le ((fun l => str_of_int (link_1 l)) <$> links)) as Hle.
  rewrite length_fmap in Hle. fold sources in Hle. lia.
Qed.

Lemma size_mark (C V : gset string) (x : string) :
  x ∈ C -> x ∉ V -> (size (C ∖ ({[x]} ∪ V)) < size (C ∖ V))%nat.
Proof. intros HC HV. apply subset_size. set_solver. Qed.

Lemma size_grown (C V V' : gset string) :
  V ⊆ V' -> (size (C ∖ V') <= size (C ∖ V))%nat.
Proof. intros H. apply subseteq_size. set_solver. Qed.

(** *** Text Resolver *)

Definition resolver : Type := string -> gset string -> outcome (list string * gset string).

(** A resolver only adds to the visited set it is given. *)
Definition grows (rec : resolver) : Prop :=
  forall id pv r, rec id pv = Return r -> pv ⊆ r.2.

(** A resolver answers whenever fewer than [n] of the identifiers of [C]
    are still unvisited. *)
Definition runs_within (C : gset string) (n : nat) (rec : resolver) : Prop :=
  forall id pv, id ∈ C -> (size (C ∖ pv) < n)%nat -> rec id pv <> OutOfFuel.

Lemma text_links_loop_grows (rec : resolver) (incoming : list link) :
  grows rec ->
  forall parts found pv r,
    text_links_loop rec incoming parts found pv = Return r -> pv ⊆ r.2.
Proof.
  intros Hrec. induction incoming as [|l rest IH]; intros parts found pv r; simpl.
  - intros [= <-]. reflexivity.
  - destruct (str_in (link_5 l) text_link_types); [|apply IH].
    intros H. apply bind_Return in H as [a [Ha H]].
    apply Hrec in Ha.
    destruct (a.1); apply IH in H; set_solver.
Qed.

Lemma trace_prompt_source_grows (fuel : nat) : grows (trace_prompt_source nodes links fuel).
Proof.
  induction fuel as [|fuel IH]; intros id pv r; simpl; [discriminate|].
  case_bool_decide as Hvis; [intros [= <-]; reflexivity|].
  destruct (get_record nodes id) as [nd|]; [|intros [= <-]; simpl; set_solver].
  destruct (negb (mode_of nd =? 0)); [intros [= <-]; simpl; set_solver|].
  destruct (contains "concat" (lower (default "Unknown Source" (n_type nd))));
    intros Hr;
    apply bind_Return in Hr as [inc [_ Hr]];
    apply bind_Return in Hr as [[[parts found] pv'] [Hloop H]];
    apply (text_links_loop_grows _ _ IH) in Hloop; simpl in Hloop;
    repeat match type of H with
           | (if ?b then _ else _) = _ => destruct b
           | match ?o with Some _ => _ | None => _ end = _ => destruct o
           | match ?o with [] => _ | _ :: _ => _ end = _ => destruct o
           end;
    inversion H; subst; simpl; set_solver.
Qed.

Lemma text_links_loop_terminates (C : gset string) (n : nat) (rec : resolver)
    (incoming : list link) :
  grows rec -> runs_within C n rec ->
  (forall l, In l incoming -> str_of_int (link_1 l) ∈ C) ->
  forall parts found pv,
    (size (C ∖ pv) < n)%nat ->
    text_links_loop rec incoming parts found pv <> OutOfFuel.
Proof.
  intros Hg Hrun. induction incoming as [|l rest IH]; intros Hin parts found pv Hsz; simpl.
  - discriminate.
  - assert (Hrest : forall l', In l' rest -> str_of_int (link_1 l') ∈ C)
      by (intros l' Hl'; apply Hin; by right).
    destruct (str_in (link_5 l) text_link_types); [|by apply IH].
    apply bind_not_OutOfFuel.
    + apply Hrun; [apply Hin; by left | exact Hsz].
    + intros a Ha. apply Hg in Ha.
      pose proof (size_grown C _ _ Ha).
      destruct (a.1); apply IH; auto; lia.
Qed.

Lemma trace_prompt_source_terminates (C : gset string) :
  sources ⊆ C ->
  forall fuel, runs_within C fuel (trace_prompt_source nodes links fuel).
Proof.
  intros HC. induction fuel as [|fuel IH]; intros id pv Hid Hsz; [lia|]. simpl.
  case_bool_decide as Hvis; [discriminate|].
  destruct (get_record nodes id) as [nd|]; [|discriminate].
  destruct (negb (mode_of nd =? 0)); [discriminate|].
  pose proof (size_mark C pv id Hid Hvis) as Hlt.
  assert (Hloop : forall inc,
             get_node_inputs_from_links id links = Return inc ->
             text_links_loop (trace_prompt_source nodes links fuel) inc [] false
               ({[id]} ∪ pv) <> OutOfFuel).
  { intros inc Hinc.
    apply (text_links_loop_terminates C fuel);
      [apply trace_prompt_source_grows | exact IH | | lia].
    intros l Hl. apply HC, source_in_sources.
    eapply get_node_inputs_from_links_incl; eauto. }
  destruct (contains "concat" (lower (default "Unknown Source" (n_type nd))));
    (apply bind_not_OutOfFuel; [apply get_node_inputs_from_links_terminates|];
     intros inc Hinc;
     apply bind_not_OutOfFuel; [by apply Hloop|];
     intros [[parts found] pv'] _;
     repeat match goal with
            | |- (if ?b then _ else _) <> _ => destruct b
            | |- match ?o with Some _ => _ | None => _ end <> _ => destruct o
            | |- match ?o with [] => _ | _ :: _ => _ end <> _ => destruct o
            end;
     discriminate).
Qed.

(** The budget [depth_bound] is enough for a resolution that starts with
    nothing visited, whatever the graph. *)
Lemma trace_prompt_source_depth_bound (id : string) :
  trace_prompt_source nodes links (depth_bound links) id ∅ <> OutOfFuel.
Proof.
  apply (trace_prompt_source_terminates ({[id]} ∪ sources)); [set_solver | set_solver |].
  replace (({[id]} ∪ sources) ∖ ∅) with ({[id]} ∪ sources) by set_solver.
  apply size_candidates.
Qed.

End Termination.

Section TraverseTermination.

Variable nodes : dict node.
Variable links : list link.

(** *** Provenance Tracer *)

Definition walker : Type := string -> tstate -> outcome tstate.

Definition visits_more (rec : walker) : Prop :=
  forall id st st', rec id st = Return st' -> visited st ⊆ visited st'.

Definition walks_within (C : gset string) (n : nat) (rec : walker) : Prop :=
  forall id st, id ∈ C -> (size (C ∖ visited st) < n)%nat -> rec id st <> OutOfFuel.

Lemma handle_conditioning_link_terminates (current_node_id : string) (l : link)
    (identified : category_map) :
  handle_conditioning_link nodes links current_node_id l identified <> OutOfFuel.
Proof.
  unfold handle_conditioning_link.
  apply bind_not_OutOfFuel.
  - unfold conditioning_input_name.
    destruct (dict_get nodes current_node_id) as [nd|]; [|discriminate].
    destruct (n_inputs nd) as [inputs|]; [|discriminate].
    destruct (link_4 l <? Z.of_nat (length inputs)); [|discriminate].
    unfold list_index.
    repeat match goal with
           | |- context [if ?b then _ else _] => destruct b
           | |- context [match ?o with Some _ => _ | None => _ end] => destruct o
           end; simpl; discriminate.
  - intros name _. destruct (prompt_category name) as [category|]; [|discriminate].
    apply bind_not_OutOfFuel; [apply trace_prompt_source_depth_bound|].
    intros r _. destruct (r.1); [discriminate|].
    destruct (existsb _ _); discriminate.
Qed.

Ltac split_handle_link :=
  repeat match goal with
         | |- context [if ?b then _ else _] => destruct b
         | |- context [match get_record ?d ?k with Some _ => _ | None => _ end] =>
             destruct (get_record d k)
         | |- context [match default [] ?w with [] => _ | _ :: _ => _ end] =>
             destruct (default [] w)
         end.

Lemma handle_link_visits_more (rec : walker) (current_node_id : string) (l : link) :
  visits_more rec ->
  forall st st',
    handle_link nodes links rec current_node_id l st = Return st' ->
    visited st ⊆ visited st'.
Proof.
  intros Hrec st st'. unfold handle_link.
  destruct (String.eqb (link_5 l) "CONDITIONING").
  { intros H. apply bind_Return in H as [m [_ [= <-]]]. reflexivity. }
  split_handle_link; intros H;
    first [ apply Hrec in H; exact H | inversion H; subst; reflexivity ].
Qed.

Lemma links_loop_visits_more (body : link -> tstate -> outcome tstate)
    (incoming : list link) :
  (forall l st st', body l st = Return st' -> visited st ⊆ visited st') ->
  forall st st', links_loop body incoming st = Return st' -> visited st ⊆ visited st'.
Proof.
  intros Hbody. induction incoming as [|l rest IH]; intros st st'; simpl.
  - intros [= <-]. reflexivity.
  - intros H. apply bind_Return in H as [st1 [H1 H]].
    apply Hbody in H1. apply IH in H. set_solver.
Qed.

Lemma traverse_visits_more (fuel : nat) : visits_more (traverse nodes links fuel).
Proof.
  induction fuel as [|fuel IH]; intros id st st'; simpl; [discriminate|].
  case_bool_decide as Hvis; [intros [= <-]; reflexivity|].
  destruct (get_record nodes id) as [nd|]; [|intros [= <-]; simpl; set_solver].
  intros H. apply bind_Return in H as [inc [_ H]].
  destruct inc as [|l0 inc].
  - destruct (_ && _); inversion H; subst; simpl; set_solver.
  - apply links_loop_visits_more in H; [simpl in H; set_solver|].
    intros l s s'. by apply handle_link_visits_more.
Qed.

Lemma handle_link_terminates (C : gset string) (n : nat) (rec : walker)
    (current_node_id : string) (l : link) (st : tstate) :
  walks_within C n rec ->
  str_of_int (link_1 l) ∈ C ->
  (size (C ∖ visited st) < n)%nat ->
  handle_link nodes links rec current_node_id l st <> OutOfFuel.
Proof.
  intros Hrun Hin Hsz. unfold handle_link.
  destruct (String.eqb (link_5 l) "CONDITIONING").
  { apply bind_not_OutOfFuel; [apply handle_conditioning_link_terminates|discriminate]. }
  split_handle_link; first [ discriminate | by apply Hrun ].
Qed.

Lemma links_loop_terminates (C : gset string) (n : nat) (rec : walker)
    (current_node_id : string) (incoming : list link) :
  visits_more rec -> walks_within C n rec ->
  (forall l, In l incoming -> str_of_int (link_1 l) ∈ C) ->
  forall st,
    (size (C ∖ visited st) < n)%nat ->
    links_loop (handle_link nodes links rec current_node_id) incoming st <> OutOfFuel.
Proof.
  intros Hg Hrun. induction incoming as [|l rest IH]; intros Hin st Hsz; simpl.
  - discriminate.
  - apply bind_not_OutOfFuel.
    + apply (handle_link_terminates C n); auto. apply Hin. by left.
    + intros st1 H1. apply handle_link_visits_more in H1; [|exact Hg].
      pose proof (size_grown C _ _ H1).
      apply IH; [intros l' Hl'; apply Hin; by right | lia].
Qed.

Lemma traverse_terminates (C : gset string) :
  sources links ⊆ C ->
  forall fuel, walks_within C fuel (traverse nodes links fuel).
Proof.
  intros HC. induction fuel as [|fuel IH]; intros id st Hid Hsz; [lia|]. simpl.
  case_bool_decide as Hvis; [discriminate|].
  destruct (get_record nodes id) as [nd|]; [|discriminate].
  pose proof (size_mark C (visited st) id Hid Hvis) as Hlt.
  apply bind_not_OutOfFuel; [apply get_node_inputs_from_links_terminates|].
  intros inc Hinc. destruct inc as [|l0 inc].
  - destruct (_ && _); discriminate.
  - apply (links_loop_terminates C fuel);
      [apply traverse_visits_more | exact IH | | simpl; lia].
    intros l Hl. apply HC, source_in_sources.
    eapply get_node_inputs_from_links_incl; eauto.
Qed.

(** Any budget from [depth_bound] on is enough, from any start and with
    any set already visited. *)
Lemma traverse_depth_bound (fuel : nat) (start : string) (st : tstate) :
  (depth_bound links <= fuel)%nat ->
  traverse nodes links fuel start st <> OutOfFuel.
Proof.
  intros Hfuel.
  apply (traverse_terminates ({[start]} ∪ sources links)); [set_solver | set_solver |].
  pose proof (size_candidates links start).
  assert (size (({[start]} ∪ sources links) ∖ visited st)
          <= size ({[start]} ∪ sources links))%nat
    by (apply subseteq_size; set_solver).
  lia.
Qed.

End TraverseTermination.

(** *** The result does not depend on the budget *)

Section Budget.

Variable nodes : dict node.
Variable links : list link.

(** [rec2] answers as [rec1] wherever [rec1] answers. *)
Definition extends (rec1 rec2 : walker) : Prop :=
  forall id st, rec1 id st <> OutOfFuel -> rec2 id st = rec1 id st.

Lemma handle_link_extends (rec1 rec2 : walker) (current_node_id : string) (l : link)
    (st : tstate) :
  extends rec1 rec2 ->
  handle_link nodes links rec1 current_node_id l st <> OutOfFuel ->
  handle_link nodes links rec2 current_node_id l st
  = handle_link nodes links rec1 current_node_id l st.
Proof.
  intros Hext. unfold handle_link.
  destruct (String.eqb (link_5 l) "CONDITIONING"); [reflexivity|].
  repeat match goal with
         | |- context [if ?b then _ else _] => destruct b
         | |- context [match get_record ?d ?k with Some _ => _ | None => _ end] =>
             destruct (get_record d k)
         | |- context [match default [] ?w with [] => _ | _ :: _ => _ end] =>
             destruct (default [] w)
         end; intros H; first [ reflexivity | by apply Hext ].
Qed.

Lemma links_loop_extends (rec1 rec2 : walker) (current_node_id : string)
    (incoming : list link) :
  extends rec1 rec2 ->
  forall st,
    links_loop (handle_link nodes links rec1 current_node_id) incoming st <> OutOfFuel ->
    links_loop (handle_link nodes links rec2 current_node_id) incoming st
    = links_loop (handle_link nodes links rec1 current_node_id) incoming st.
Proof.
  intros Hext. induction incoming as [|l rest IH]; intros st; simpl; [reflexivity|].
  intros H.
  destruct (handle_link nodes links rec1 current_node_id l st) as [st1| |] eqn:E.
  - rewrite (handle_link_extends rec1 rec2), E by (auto; rewrite E; discriminate).
    simpl. apply IH. exact H.
  - rewrite (handle_link_extends rec1 rec2), E by (auto; rewrite E; discriminate).
    reflexivity.
  - exfalso. apply H. reflexivity.
Qed.

Lemma traverse_extends (fuel : nat) :
  extends (traverse nodes links fuel) (traverse nodes links (S fuel)).
Proof.
  induction fuel as [|fuel IH]; intros id st H; [exfalso; apply H; reflexivity|].
  revert H. cbn [traverse].
  case_bool_decide as Hvis; [reflexivity|].
  destruct (get_record nodes id) as [nd|]; [|reflexivity].
  destruct (get_node_inputs_from_links id links) as [inc| |]; [|reflexivity|reflexivity].
  simpl. destruct inc as [|l0 inc]; [reflexivity|].
  intros H. by apply links_loop_extends.
Qed.

(** Once the traversal answers within a budget, it gives the same answer
    within any larger one. *)
Lemma traverse_budget (fuel extra : nat) (id : string) (st : tstate) :
  traverse nodes links fuel id st <> OutOfFuel ->
  traverse nodes links (fuel + extra) id st = traverse nodes links fuel id st.
Proof.
  intros H. induction extra as [|extra IH].
  - by rewrite Nat.add_0_r.
  - rewrite Nat.add_succ_r, traverse_extends; [exact IH|]. by rewrite IH.
Qed.

End Budget.

(** ** Result Normalizer *)

(** A result that is a value or a raised exception. *)
Inductive terminates {A : Type} : outcome A -> Prop :=
| terminates_Return (a : A) : terminates (Return a)
| terminates_Raise (e : exn) : terminates (Raise e).

Lemma terminates_iff {A : Type} (o : outcome A) : terminates o <-> o <> OutOfFuel.
Proof.
  split.
  - intros [a|e]; discriminate.
  - destruct o; [constructor | constructor | intros H; by destruct H].
Qed.

(** The items the loop of [process_workflow_metadata] keeps: the first
    one for each [node_id] not among [node_ids]. *)
Fixpoint keep_first (node_ids : list (option string)) (items : list finding)
  : list finding :=
  match items with
  | [] => []
  | item :: rest =>
      if bool_decide (f_node_id item ∈ node_ids) then keep_first node_ids rest
      else item :: keep_first (node_ids ++ [f_node_id item]) rest
  end.

(** An item whose [value] is not a one-element list holding a
    one-element list: flattening it once leaves nothing to flatten. *)
Definition settled (item : finding) : bool :=
  match f_value item with
  | Some (PList [PList [_]]) => false
  | _ => true
  end.

Section NormalizerFacts.

Variable basename : string -> string.

Lemma flatten_item_node_id (category : string) (item : finding) :
  f_node_id (flatten_item basename category item) = f_node_id item.
Proof.
  unfold flatten_item.
  destruct (f_value item) as [[| | | | |[|v [|? ?]]|]|]; try reflexivity.
  destruct v; try reflexivity.
  destruct (str_in category filename_categories); reflexivity.
Qed.

Lemma flatten_item_settled (category : string) (item : finding) :
  settled item = true ->
  flatten_item basename category (flatten_item basename category item)
  = flatten_item basename category item.
Proof.
  unfold settled, flatten_item.
  destruct (f_value item) as [[| | | | |[|v [|? ?]]|]|] eqn:E; rewrite ?E; try reflexivity.
  destruct v as [| | | | |[|w [|? ?]]|]; try reflexivity; try discriminate.
  destruct (str_in category filename_categories); reflexivity.
Qed.

Lemma process_items_spec (category : string) (items acc : list finding)
    (node_ids : list (option string)) :
  process_items basename category items acc node_ids
  = acc ++ (flatten_item basename category <$> keep_first node_ids items).
Proof.
  revert acc node_ids. induction items as [|item rest IH]; intros acc node_ids; simpl.
  - by rewrite app_nil_r.
  - case_bool_decide; [apply IH|].
    rewrite IH, fmap_cons, <- app_assoc. reflexivity.
Qed.

Lemma keep_first_NoDup (items : list finding) (node_ids : list (option string)) :
  NoDup node_ids -> NoDup (node_ids ++ (f_node_id <$> keep_first node_ids items)).
Proof.
  revert node_ids. induction items as [|item rest IH]; intros node_ids Hnd; simpl.
  - by rewrite app_nil_r.
  - case_bool_decide as Hin; [by apply IH|].
    rewrite fmap_cons, cons_middle, app_assoc. apply IH.
    apply NoDup_app. split; [exact Hnd|]. split; [|apply NoDup_singleton].
    intros x Hx Hx'. apply list_elem_of_singleton in Hx'. by subst.
Qed.

Lemma keep_first_fixed (items : list finding) (node_ids : list (option string)) :
  NoDup (node_ids ++ (f_node_id <$> items)) -> keep_first node_ids items = items.
Proof.
  revert node_ids. induction items as [|item rest IH]; intros node_ids Hnd; simpl;
    [reflexivity|].
  rewrite fmap_cons, cons_middle, app_assoc in Hnd.
  case_bool_decide as Hin.
  - exfalso. apply NoDup_app in Hnd as [Hnd _]. apply NoDup_app in Hnd as (_ & Hdisj & _).
    apply (Hdisj _ Hin). by apply list_elem_of_singleton.
  - f_equal. by apply IH.
Qed.

Lemma keep_first_incl (items : list finding) (node_ids : list (option string)) :
  forall item, item ∈ keep_first node_ids items -> item ∈ items.
Proof.
  revert node_ids. induction items as [|x rest IH]; intros node_ids item; simpl; [done|].
  case_bool_decide.
  - intros H'. apply elem_of_cons. right. by eapply IH.
  - intros H'. apply elem_of_cons in H' as [->|H']; apply elem_of_cons;
      [by left | right; by eapply IH].
Qed.

(** No two kept items share a [node_id]. *)
Lemma process_items_NoDup (category : string) (items : list finding) :
  NoDup (f_node_id <$> process_items basename category items [] []).
Proof.
  rewrite process_items_spec, app_nil_l, <- list_fmap_compose.
  rewrite (list_fmap_ext _ f_node_id)
    by (intros i x _; apply flatten_item_node_id).
  apply (keep_first_NoDup items []). apply NoDup_nil_2.
Qed.

Lemma process_items_idempotent (category : string) (items : list finding) :
  forallb settled items = true ->
  process_items basename category (process_items basename category items [] []) [] []
  = process_items basename category items [] [].
Proof.
  intros Hs. rewrite !process_items_spec, !app_nil_l.
  rewrite keep_first_fixed.
  - rewrite <- list_fmap_compose. apply list_fmap_ext. intros i x Hx. simpl.
    apply flatten_item_settled.
    apply list_elem_of_lookup_2, keep_first_incl, list_elem_of_In in Hx.
    rewrite forallb_forall in Hs. by apply Hs.
  - rewrite app_nil_l. pose proof (process_items_NoDup category items) as Hnd.
    by rewrite process_items_spec, app_nil_l in Hnd.
Qed.

End NormalizerFacts.

(** ** Termination of the entry points *)

Lemma trace_workflow_inputs_terminates (start_node_id : string) (w : workflow) :
  terminates (trace_workflow_inputs start_node_id w).
Proof.
  apply terminates_iff. unfold trace_workflow_inputs.
  destruct (normalize_nodes _) as [[nodes|]|e|] eqn:E; cbn [mbind outcome_bind];
    [|discriminate..|by destruct (default (NodesMapping []) (wf_nodes w))].
  apply bind_not_OutOfFuel; [|discriminate].
  by apply traverse_depth_bound.
Qed.

Lemma analyze_comfyui_workflow_terminates (basename : string -> string)
    (workflow_data : workflow_json) :
  terminates (analyze_comfyui_workflow basename workflow_data).
Proof.
  unfold analyze_comfyui_workflow.
  destruct workflow_data as [w|v]; [|constructor].
  destruct (normalize_nodes _) as [[nodes|]|e|] eqn:E; cbn [mbind outcome_bind];
    [|constructor..|by destruct (default (NodesMapping []) (wf_nodes w))].
  destruct (_ || _); [constructor|].
  destruct (find_image_save_node nodes) as [[id nd]|]; [|constructor].
  destruct (String.eqb id ""); [constructor|].
  destruct (trace_workflow_inputs_terminates id w) as [m|e]; constructor.
Qed.

(** ** The runs of the entry points *)

Lemma normalize_nodes_terminates (nodes_raw : nodes_json) :
  normalize_nodes nodes_raw <> OutOfFuel.
Proof. by destruct nodes_raw. Qed.

Lemma nodes_of_Some (w : workflow) (nodes : dict node) :
  nodes_of w = Some nodes
  <-> normalize_nodes (default (NodesMapping []) (wf_nodes w)) = Return (Some nodes).
Proof.
  unfold nodes_of. destruct (normalize_nodes _) as [normalized|e|]; split;
    try discriminate; congruence.
Qed.

Lemma trace_workflow_inputs_run (start_node_id : string) (w : workflow)
    (m : category_map) :
  trace_workflow_inputs start_node_id w = Return m ->
  (nodes_of w = None /\ m = ∅)
  \/ exists nodes st,
       nodes_of w = Some nodes
       /\ traverse nodes (default [] (wf_links w)) (depth_bound (default [] (wf_links w)))
            start_node_id (TState ∅ ∅) = Return st
       /\ m = identified_inputs st.
Proof.
  unfold trace_workflow_inputs, nodes_of.
  destruct (normalize_nodes _) as [[nodes|]|e|]; cbn [mbind outcome_bind];
    [|intros [= <-]; by left|intros H; discriminate H..].
  intros H. apply bind_Return in H as [st [Hst [= <-]]]. right. eauto.
Qed.

Lemma analyze_comfyui_workflow_run (basename : string -> string) (w : workflow)
    (m : category_map) :
  analyze_comfyui_workflow basename (WorkflowDict w) = Return (Some m) ->
  exists nodes sink_id sink raw,
    nodes_of w = Some nodes
    /\ find_image_save_node nodes = Some (sink_id, sink)
    /\ trace_workflow_inputs sink_id w = Return raw
    /\ m = process_workflow_metadata basename raw.
Proof.
  unfold analyze_comfyui_workflow, nodes_of.
  destruct (normalize_nodes _) as [[nodes|]|e|] eqn:Hnodes; cbn [mbind outcome_bind];
    try (intros H; discriminate H).
  destruct (_ || _); [intros H; discriminate H|].
  destruct (find_image_save_node nodes) as [[sink_id sink]|] eqn:Hsink;
    [|intros H; discriminate H].
  destruct (String.eqb sink_id ""); [intros H; discriminate H|].
  intros H. apply bind_Return in H as [raw [Hraw [= <-]]].
  exists nodes, sink_id, sink, raw. auto.
Qed.

Lemma dict_get_set {V : Type} (d : dict V) (k k' : string) (v : V) :
  dict_get (dict_set d k v) k' = if String.eqb k k' then Some v else dict_get d k'.
Proof.
  induction d as [|[k0 v0] rest IH]; simpl.
  - reflexivity.
  - destruct (String.eqb k0 k) eqn:E0; simpl.
    + apply String.eqb_eq in E0. subst k0. by destruct (String.eqb k k').
    + rewrite IH. destruct (String.eqb k0 k') eqn:E1; [|reflexivity].
      apply String.eqb_eq in E1. subst k'. by rewrite String.eqb_sym, E0.
Qed.

Lemma dict_set_keys {V : Type} (d : dict V) (k : string) (v : V) :
  fst <$> dict_set d k v
  = if bool_decide (k ∈ fst <$> d) then fst <$> d else (fst <$> d) ++ [k].
Proof.
  induction d as [|[k0 v0] rest IH]; simpl; [reflexivity|].
  destruct (String.eqb k0 k) eqn:E0.
  - apply String.eqb_eq in E0. subst k0.
    rewrite bool_decide_eq_true_2 by apply list_elem_of_here. reflexivity.
  - apply String.eqb_neq in E0. rewrite fmap_cons, IH. cbn [fst].
    case_bool_decide as Hin.
    + rewrite bool_decide_eq_true_2 by (by apply list_elem_of_further). reflexivity.
    + rewrite bool_decide_eq_false_2; [reflexivity|].
      intros H. apply elem_of_cons in H as [H|H]; [congruence | by apply Hin].
Qed.

Lemma dict_set_NoDup {V : Type} (d : dict V) (k : string) (v : V) :
  NoDup (fst <$> d) -> NoDup (fst <$> dict_set d k v).
Proof.
  intros Hnd. rewrite dict_set_keys. case_bool_decide as Hin; [exact Hnd|].
  apply NoDup_app. split; [exact Hnd|]. split; [|apply NoDup_singleton].
  intros x Hx Hx'. apply list_elem_of_singleton in Hx'. by subst.
Qed.

Lemma dict_get_of_In {V : Type} (d : dict V) (k : string) (v : V) :
  NoDup (fst <$> d) -> In (k, v) d -> dict_get d k = Some v.
Proof.
  induction d as [|[k' v'] d IH]; intros Hnd Hin; [destruct Hin|].
  rewrite fmap_cons in Hnd. apply NoDup_cons in Hnd as [Hk' Hnd].
  cbn [dict_get]. cbn [fst] in Hk'.
  destruct Hin as [[= -> ->]|Hin]; [by rewrite String.eqb_refl|].
  destruct (String.eqb k' k) eqn:E; [|by apply IH].
  apply String.eqb_eq in E. subst k'. exfalso. apply Hk'.
  apply list_elem_of_fmap. exists (k, v). split; [reflexivity | by apply list_elem_of_In].
Qed.

Lemma fold_left_dict_set_NoDup {A : Type} (step : dict node -> A -> dict node)
    (l : list A) (acc : dict node) :
  (forall acc x, NoDup (fst <$> acc) -> NoDup (fst <$> step acc x)) ->
  NoDup (fst <$> acc) -> NoDup (fst <$> fold_left step l acc).
Proof.
  intros Hstep. revert acc. induction l as [|x l IH]; intros acc Hacc; simpl; auto.
Qed.

(** The keys of the node mapping are pairwise distinct. *)
Lemma normalize_nodes_NoDup (nodes_raw : nodes_json) (nodes : dict node) :
  normalize_nodes nodes_raw = Return (Some nodes) -> NoDup (fst <$> nodes).
Proof.
  destruct nodes_raw as [d|l|before bad|v]; simpl; try discriminate; intros [= <-].
  - apply fold_left_dict_set_NoDup; [|apply NoDup_nil_2].
    intros acc kv. apply dict_set_NoDup.
  - apply fold_left_dict_set_NoDup; [|apply NoDup_nil_2].
    intros acc nd Hacc. destruct (n_id nd); [by apply dict_set_NoDup | exact Hacc].
Qed.

Lemma is_located_truthy (nodes : dict node) (node_id : string) (node_data : node) :
  find_image_save_node nodes = Some (node_id, node_data) -> truthy node_data = true.
Proof.
  induction nodes as [|[k nd] rest IH]; cbn [find_image_save_node]; [discriminate|].
  destruct (n_type nd) as [type|] eqn:Et.
  - cbv zeta. destruct (existsb _ image_save_keywords); [|exact IH].
    destruct (n_inputs nd).
    + destruct (existsb _ _); [|exact IH]. intros [= <- <-]. by eapply n_type_truthy.
    + destruct (bool_decide _); [|exact IH]. intros [= <- <-]. by eapply n_type_truthy.
  - cbv zeta. replace (existsb _ image_save_keywords) with false by (by vm_compute).
    exact IH.
Qed.

(** The sink that is located is the record the traversal starts at. *)
Lemma located_sink_record (w : workflow) (nodes : dict node) (sink_id : string)
    (sink : node) :
  nodes_of w = Some nodes ->
  find_image_save_node nodes = Some (sink_id, sink) ->
  get_record nodes sink_id = Some sink.
Proof.
  intros Hnodes Hfind. apply get_record_Some. split; [|by eapply is_located_truthy].
  apply dict_get_of_In; [|by apply find_image_save_node_In].
  apply nodes_of_Some in Hnodes. by eapply normalize_nodes_NoDup.
Qed.

(** * Example workflows *)

Module Examples.

Definition slot (name type : string) : input_slot := InputSlot (Some name) (Some type).

(** A node record as ComfyUI stores it: with its [id], enabled. *)
Definition mk (id : Z) (type : string) (inputs : option (list input_slot))
    (widgets_values : option (list pyval)) : node :=
  Node (Some (IdInt id)) (Some type) None (Some 0) inputs widgets_values true.

(** An image-to-image pipeline: one VAE loader (3) feeds both the decoder
    (2) and the encoder (4); the decoder's image is fed back to the
    encoder, so 2 <- 5 <- 4 <- 2 is a cycle. *)
Definition img2img : workflow :=
  Workflow
    (Some (NodesSequence
       [ mk 1 "SaveImage" (Some [slot "images" "IMAGE"]) None;
         mk 2 "VAEDecode" (Some [slot "samples" "LATENT"; slot "vae" "VAE"]) None;
         mk 3 "VAELoader" None (Some [PStr "vae/kl-f8.safetensors"]);
         mk 4 "VAEEncode" (Some [slot "pixels" "IMAGE"; slot "vae" "VAE"]) None;
         mk 5 "KSampler" (Some [slot "latent_image" "LATENT"])
           (Some [PInt 42; PStr "euler"]) ]))
    (Some [ Link 1 2 0 1 0 "IMAGE"; Link 2 3 0 2 1 "VAE"; Link 3 5 0 2 0 "LATENT";
            Link 4 4 0 5 0 "LATENT"; Link 5 3 0 4 1 "VAE"; Link 6 2 0 4 0 "IMAGE" ]).

Definition vae_finding (value : pyval) : finding :=
  {| f_node_id := Some "3";
     f_node_type := Some "VAELoader";
     f_title := Some "Node 3 (VAELoader)";
     f_type := Some "VAE";
     f_value := Some value;
     f_description := None |}.

(** A category map whose one finding holds a list nested in a list. *)
Definition nested_map : category_map :=
  {[ "VAE" := [vae_finding (PList [PList [PStr "kl-f8.safetensors"]])] ]}.

(** A category map as the tracer produces it. *)
Definition flat_map : category_map :=
  {[ "VAE" := [vae_finding (PList [PStr "vae/kl-f8.safetensors"])] ]}.

End Examples.

(** * The claims *)

(** ** C7: the Result Normalizer applied twice *)

(** C7, as stated, fails: on a finding whose value is a one-element list
    holding a one-element list, the first application unwraps the outer
    list and the second unwraps the inner one, so the normalizer is not
    idempotent on maps with nested lists. *)
Lemma normalizer_twice_differs_on_nested_list :
  process_workflow_metadata posix_basename Examples.nested_map !! "VAE"
  = Some [Examples.vae_finding (PList [PStr "kl-f8.safetensors"])]
  /\ process_workflow_metadata posix_basename
       (process_workflow_metadata posix_basename Examples.nested_map) !! "VAE"
     = Some [Examples.vae_finding (PStr "kl-f8.safetensors")]
  /\ process_workflow_metadata posix_basename
       (process_workflow_metadata posix_basename Examples.nested_map)
     <> process_workflow_metadata posix_basename Examples.nested_map.
Proof.
  assert (H1 : process_workflow_metadata posix_basename Examples.nested_map !! "VAE"
               = Some [Examples.vae_finding (PList [PStr "kl-f8.safetensors"])])
    by (vm_compute; reflexivity).
  assert (H2 : process_workflow_metadata posix_basename
                 (process_workflow_metadata posix_basename Examples.nested_map) !! "VAE"
               = Some [Examples.vae_finding (PStr "kl-f8.safetensors")])
    by (vm_compute; reflexivity).
  split; [exact H1|]. split; [exact H2|].
  intros Heq. rewrite Heq, H1 in H2. discriminate H2.
Qed.

(** C7 (amended).  The Result Normalizer is idempotent on every Category
    Map in which no finding's value is a one-element list whose element
    is itself a one-element list: normalize (normalize m) = normalize m,
    whatever [os.path.basename] computes. *)
Theorem process_workflow_metadata_idempotent (basename : string -> string)
    (m : category_map) :
  map_Forall (fun _ items => forallb settled items = true) m ->
  process_workflow_metadata basename (process_workflow_metadata basename m)
  = process_workflow_metadata basename m.
Proof.
  intros Hm. apply map_eq. intros category.
  unfold process_workflow_metadata. rewrite !map_lookup_imap.
  destruct (m !! category) as [items|] eqn:E; [|reflexivity].
  simpl. f_equal. apply process_items_idempotent. exact (Hm _ _ E).
Qed.

Lemma process_workflow_metadata_idempotent_witness :
  process_workflow_metadata posix_basename
    (process_workflow_metadata posix_basename Examples.flat_map)
  = process_workflow_metadata posix_basename Examples.flat_map.
Proof.
  apply process_workflow_metadata_idempotent.
  intros category items H. unfold Examples.flat_map in H.
  apply lookup_singleton_Some in H as [_ <-]. reflexivity.
Defined.

(** ** C8: termination and duplicate identifiers *)

(** C8, as stated, fails for the tracer's own output: a parameter
    category (VAE, LATENT, ...) is appended to without a look at what it
    holds, so the loader that feeds two VAE edges is filed twice. *)
Lemma tracer_files_vae_loader_twice :
  exists m items,
    trace_workflow_inputs "1" Examples.img2img = Return m
    /\ m !! "VAE" = Some items
    /\ f_node_id <$> items = [Some "3"; Some "3"].
Proof.
  eexists _, _. split; [vm_compute; reflexivity|].
  split; vm_compute; reflexivity.
Qed.

(** C8 (amended).  On every workflow graph, cyclic or not, the traversal
    terminates: within any recursion budget from [depth_bound] on it
    answers, and always the same; so do [trace_workflow_inputs] and the
    entry point.  In the Category Map the entry point returns (the
    tracer's output passed through the Result Normalizer) no category
    holds two findings with the same [node_id]. *)
Theorem traversal_terminates_result_ids_unique (basename : string -> string)
    (workflow_data : workflow_json) :
  (forall nodes links fuel start st,
      (depth_bound links <= fuel)%nat ->
      terminates (traverse nodes links fuel start st)
      /\ traverse nodes links fuel start st
         = traverse nodes links (depth_bound links) start st)
  /\ (forall start w, terminates (trace_workflow_inputs start w))
  /\ terminates (analyze_comfyui_workflow basename workflow_data)
  /\ (forall m category items,
         analyze_comfyui_workflow basename workflow_data = Return (Some m) ->
         m !! category = Some items ->
         NoDup (f_node_id <$> items)).
Proof.
  split; [|split; [|split]].
  - intros nodes links fuel start st Hfuel. split.
    + apply terminates_iff. by apply traverse_depth_bound.
    + replace fuel with (depth_bound links + (fuel - depth_bound links))%nat by lia.
      apply traverse_budget. by apply traverse_depth_bound.
  - apply trace_workflow_inputs_terminates.
  - apply analyze_comfyui_workflow_terminates.
  - intros m category items.
    destruct workflow_data as [w|v]; [|intros H; discriminate H].
    intros H.
    apply analyze_comfyui_workflow_run in H as (nodes & id & nd & raw & _ & _ & _ & ->).
    unfold process_workflow_metadata. rewrite map_lookup_imap.
    destruct (raw !! category) as [raw_items|]; [|discriminate].
    intros [= <-]. apply process_items_NoDup.
Qed.

Lemma traversal_terminates_result_ids_unique_witness :
  terminates (analyze_comfyui_workflow posix_basename (WorkflowDict Examples.img2img))
  /\ NoDup (f_node_id <$> [Examples.vae_finding (PStr "kl-f8.safetensors")]).
Proof.
  destruct (traversal_terminates_result_ids_unique posix_basename
              (WorkflowDict Examples.img2img)) as (_ & _ & Hterm & Hids).
  split; [exact Hterm|].
  eapply (Hids _ "VAE"); vm_compute; reflexivity.
Defined.

(** ** C9: a resolution that yields no part *)

Module PromptExamples.

Import Examples.

(** A sampler (1) whose positive slot is fed by a node (9) that the node
    mapping does not hold. *)
Definition dangling_nodes : dict node :=
  [("1", mk 1 "KSampler" (Some [slot "positive" "CONDITIONING"]) (Some [PInt 7]))].

Definition dangling_link : link := Link 1 9 0 1 0 "CONDITIONING".

End PromptExamples.

(** C9.  For a CONDITIONING edge whose target input-slot name selects a
    prompt category, when the Text Resolver's resolution of the edge's
    source yields an empty list of parts, the handler leaves the Category
    Map exactly as it was: no finding is recorded, not even one with an
    empty string, and the category key is not created. *)
Theorem empty_resolution_records_nothing (nodes : dict node) (links : list link)
    (current_node_id : string) (l : link) (identified : category_map)
    (name : option string) (category : string) (prompt_visited : gset string) :
  conditioning_input_name nodes current_node_id l = Return name ->
  prompt_category name = Some category ->
  trace_prompt_source nodes links (depth_bound links) (str_of_int (link_1 l)) ∅
  = Return ([], prompt_visited) ->
  handle_conditioning_link nodes links current_node_id l identified = Return identified.
Proof.
  intros Hname Hcat Hparts. unfold handle_conditioning_link.
  rewrite Hname. cbn [mbind outcome_bind]. rewrite Hcat, Hparts. reflexivity.
Qed.

Lemma empty_resolution_records_nothing_witness :
  handle_conditioning_link PromptExamples.dangling_nodes [PromptExamples.dangling_link]
    "1" PromptExamples.dangling_link ∅
  = Return ∅.
Proof.
  apply (empty_resolution_records_nothing _ _ _ _ _ (Some "positive")
           "Positive Prompts" {["9"]}); reflexivity.
Defined.

(** ** Findings are only ever added *)

(** Every category of [m] is still there in [m'], its findings a prefix
    of what [m'] holds. *)
Definition keeps (m m' : category_map) : Prop :=
  forall c items, m !! c = Some items -> exists more, m' !! c = Some (items ++ more).

Lemma keeps_refl (m : category_map) : keeps m m.
Proof. intros c items H. exists []. by rewrite app_nil_r. Qed.

Lemma keeps_trans (m1 m2 m3 : category_map) : keeps m1 m2 -> keeps m2 m3 -> keeps m1 m3.
Proof.
  intros H12 H23 c items H. apply H12 in H as [more1 H]. apply H23 in H as [more2 H].
  exists (more1 ++ more2). by rewrite app_assoc.
Qed.

Lemma ensure_category_keeps (c : string) (m : category_map) : keeps m (ensure_category c m).
Proof.
  unfold ensure_category. destruct (m !! c) eqn:E; [apply keeps_refl|].
  intros c' items H. exists []. rewrite app_nil_r.
  rewrite lookup_insert_ne; [exact H|]. intros ->. rewrite E in H. discriminate H.
Qed.

Lemma ensure_category_lookup (c : string) (m : category_map) :
  ensure_category c m !! c = Some (default [] (m !! c)).
Proof.
  unfold ensure_category. destruct (m !! c) eqn:E; simpl; [exact E|].
  by rewrite lookup_insert_eq.
Qed.

Lemma append_finding_keeps (c : string) (f : finding) (m : category_map) :
  keeps m (append_finding c f m).
Proof.
  unfold append_finding. destruct (m !! c) as [old|] eqn:E; [|apply keeps_refl].
  intros c' items H. destruct (decide (c = c')) as [<-|Hne].
  - rewrite E in H. injection H as <-. exists [f]. by rewrite lookup_insert_eq.
  - exists []. rewrite app_nil_r. by rewrite lookup_insert_ne.
Qed.

Lemma append_finding_lookup (c : string) (f : finding) (m : category_map)
    (old : list finding) :
  m !! c = Some old -> append_finding c f m !! c = Some (old ++ [f]).
Proof. intros E. unfold append_finding. rewrite E. by rewrite lookup_insert_eq. Qed.

Section Keeps.

Variable nodes : dict node.
Variable links : list link.

Lemma handle_conditioning_link_keeps (current_node_id : string) (l : link)
    (m m' : category_map) :
  handle_conditioning_link nodes links current_node_id l m = Return m' -> keeps m m'.
Proof.
  unfold handle_conditioning_link. intros H.
  apply bind_Return in H as [name [_ H]].
  destruct (prompt_category name) as [category|]; [|injection H as <-; apply keeps_refl].
  apply bind_Return in H as [r [_ H]].
  destruct (r.1); [injection H as <-; apply keeps_refl|].
  destruct (existsb _ _); injection H as <-.
  - apply ensure_category_keeps.
  - eapply keeps_trans; [apply ensure_category_keeps | apply append_finding_keeps].
Qed.

Definition keeps_findings (rec : walker) : Prop :=
  forall id st st',
    rec id st = Return st' -> keeps (identified_inputs st) (identified_inputs st').

Lemma handle_link_keeps (rec : walker) (current_node_id : string) (l : link) :
  keeps_findings rec ->
  forall st st',
    handle_link nodes links rec current_node_id l st = Return st' ->
    keeps (identified_inputs st) (identified_inputs st').
Proof.
  intros Hrec st st'. unfold handle_link.
  destruct (String.eqb (link_5 l) "CONDITIONING").
  { intros H. apply bind_Return in H as [m [Hm [= <-]]]. simpl.
    by eapply handle_conditioning_link_keeps. }
  repeat match goal with
         | |- context [if ?b then _ else _] => destruct b
         | |- context [match get_record ?d ?k with Some _ => _ | None => _ end] =>
             destruct (get_record d k)
         | |- context [match default [] ?w with [] => _ | _ :: _ => _ end] =>
             destruct (default [] w)
         end;
    intros H;
    first [ injection H as <-; apply keeps_refl
          | apply Hrec in H; simpl in H;
            repeat first [ exact H
                         | eapply keeps_trans; [|exact H]
                         | apply ensure_category_keeps
                         | eapply keeps_trans;
                           [apply ensure_category_keeps | apply append_finding_keeps] ] ].
Qed.

Lemma links_loop_keeps (body : link -> tstate -> outcome tstate) (incoming : list link) :
  (forall l st st',
      body l st = Return st' -> keeps (identified_inputs st) (identified_inputs st')) ->
  forall st st',
    links_loop body incoming st = Return st' ->
    keeps (identified_inputs st) (identified_inputs st').
Proof.
  intros Hbody. induction incoming as [|l rest IH]; intros st st'; simpl.
  - intros [= <-]. apply keeps_refl.
  - intros H. apply bind_Return in H as [st1 [H1 H]].
    eapply keeps_trans; [eapply Hbody, H1 | eapply IH, H].
Qed.

Lemma traverse_keeps (fuel : nat) : keeps_findings (traverse nodes links fuel).
Proof.
  induction fuel as [|fuel IH]; intros id st st'; simpl; [discriminate|].
  case_bool_decide as Hvis; [intros [= <-]; apply keeps_refl|].
  destruct (get_record nodes id) as [nd|]; [|intros [= <-]; apply keeps_refl].
  intros H. apply bind_Return in H as [inc [_ H]].
  destruct inc as [|l0 inc].
  - destruct (_ && _); injection H as <-; simpl; [|apply keeps_refl].
    eapply keeps_trans; [apply ensure_category_keeps | apply append_finding_keeps].
  - apply links_loop_keeps in H; [exact H|].
    intros l s s'. by apply handle_link_keeps.
Qed.

End Keeps.

(** ** C6: the source of a MODEL edge *)

(** The node type names a LoRA loader: it contains one of the keywords,
    compared in lower case. *)
Definition type_names_lora (node_data : node) : bool :=
  existsb (fun keyword =>
             contains keyword (lower (default "Unknown Model Source" (n_type node_data))))
    lora_loader_keywords.

(** The node declares an input of type MODEL whose name is [model] once
    lower-cased. *)
Definition declares_model_input (node_data : node) : bool :=
  existsb (fun input_def =>
             String.eqb (lower (default "" (slot_name input_def))) "model"
             && bool_decide (slot_type input_def = Some "MODEL"))
    (default [] (n_inputs node_data)).

(** The second test as C6 words it: an input named exactly [model]. *)
Definition declares_input_named_model_as_stated (node_data : node) : bool :=
  existsb (fun input_def =>
             bool_decide (slot_name input_def = Some "model")
             && bool_decide (slot_type input_def = Some "MODEL"))
    (default [] (n_inputs node_data)).

(** The category C6 states for an enabled source with widget values. *)
Definition model_category_as_stated (node_data : node) : string :=
  if type_names_lora node_data || declares_input_named_model_as_stated node_data
  then "LoRA Models" else "Base Models".

Module ModelExamples.

Import Examples.

(** Scenario E: a LoraLoader (4) between a CheckpointLoader (5) and the
    sampler (3). *)
Definition lora_chain : workflow :=
  Workflow
    (Some (NodesSequence
       [ mk 1 "SaveImage" (Some [slot "images" "IMAGE"]) None;
         mk 2 "VAEDecode" (Some [slot "samples" "LATENT"; slot "vae" "VAE"]) None;
         mk 3 "KSampler"
           (Some [slot "model" "MODEL"; slot "positive" "CONDITIONING";
                  slot "negative" "CONDITIONING"; slot "latent_image" "LATENT"])
           (Some [PInt 42; PStr "euler"]);
         mk 4 "LoraLoader" (Some [slot "model" "MODEL"; slot "clip" "CLIP"])
           (Some [PStr "loras/style.safetensors"; PFloat "0.8"; PFloat "0.8"]);
         mk 5 "CheckpointLoaderSimple" None (Some [PStr "checkpoints/sd15.safetensors"]) ]))
    (Some [ Link 1 2 0 1 0 "IMAGE"; Link 2 3 0 2 0 "LATENT"; Link 3 4 0 3 0 "MODEL";
            Link 4 5 0 4 0 "MODEL"; Link 5 5 1 4 1 "CLIP"; Link 6 5 2 2 1 "VAE" ]).

Definition lora_chain_nodes : dict node :=
  default [] (nodes_of lora_chain).

Definition lora_chain_links : list link := default [] (wf_links lora_chain).

(** A model patch node whose MODEL input is spelled with a capital. *)
Definition patch_node : node :=
  mk 2 "FreeU" (Some [slot "Model" "MODEL"]) (Some [PFloat "1.1"; PFloat "1.2"]).

Definition patch_workflow : workflow :=
  Workflow
    (Some (NodesSequence [ mk 1 "SaveImage" (Some [slot "images" "IMAGE"]) None; patch_node ]))
    (Some [ Link 1 2 0 1 0 "MODEL" ]).

End ModelExamples.

(** C6, as stated, fails on the name of the input: the code lower-cases
    the input name before comparing it with "model", so a source whose
    MODEL input is named "Model" is filed under "LoRA Models", where the
    claim, which asks for an input named "model", files it under
    "Base Models". *)
Lemma capitalised_model_input_is_lora :
  model_category_as_stated ModelExamples.patch_node = "Base Models"
  /\ model_category ModelExamples.patch_node = "LoRA Models"
  /\ exists m,
       analyze_comfyui_workflow posix_basename (WorkflowDict ModelExamples.patch_workflow)
       = Return (Some m)
       /\ m !! "Base Models" = None
       /\ f_node_id <$> default [] (m !! "LoRA Models") = [Some "2"].
Proof.
  split; [reflexivity|]. split; [reflexivity|].
  eexists. split; [vm_compute; reflexivity|].
  split; vm_compute; reflexivity.
Qed.

(** The recording step of the MODEL branch: afterwards the category
    holds a finding for the source, the new one or the one met. *)
Lemma model_record_lookup (category src : string) (new_item : finding)
    (identified : category_map) :
  f_node_id new_item = Some src ->
  f_type new_item = Some "MODEL" ->
  exists items item,
    (if existsb (fun item =>
                   bool_decide (f_node_id item = Some src)
                   && bool_decide (f_type item = Some "MODEL"))
          (default [] (ensure_category category identified !! category))
     then ensure_category category identified
     else append_finding category new_item (ensure_category category identified))
    !! category = Some items
    /\ In item items
    /\ f_node_id item = Some src
    /\ f_type item = Some "MODEL".
Proof.
  intros Hid Hty.
  pose proof (ensure_category_lookup category identified) as Hlook.
  destruct (existsb _ _) eqn:Ex.
  - apply existsb_exists in Ex as [item [Hin Hitem]].
    apply andb_true_iff in Hitem as [H1 H2].
    apply bool_decide_eq_true in H1, H2.
    rewrite Hlook in Hin. eauto 10.
  - exists (default [] (identified !! category) ++ [new_item]), new_item.
    split; [by apply append_finding_lookup|].
    split; [apply in_or_app; right; by left|]. auto.
Qed.

Lemma model_category_spec (node_data : node) :
  model_category node_data
  = if type_names_lora node_data || declares_model_input node_data
    then "LoRA Models" else "Base Models".
Proof.
  unfold model_category, type_names_lora, declares_model_input.
  destruct (existsb _ lora_loader_keywords); [reflexivity|].
  destruct (n_inputs node_data); reflexivity.
Qed.

(** C6 (amended).  When the tracer handles a MODEL edge whose source node
    exists, is enabled and has non-empty widgets_values, the source's
    category is "LoRA Models" if its type contains one of lora,
    loraloader, loadlora, applylora, apply_lora (case-insensitive), or
    else if it declares an input of type MODEL whose name is "model"
    ignoring case; otherwise "Base Models".  Once the edge is handled
    that category holds a finding with the source's node_id and type
    MODEL.  In scenario E the LoraLoader is filed under "LoRA Models" and
    the CheckpointLoader under "Base Models". *)
Theorem model_source_is_classified :
  (forall (nodes : dict node) (links : list link) (fuel : nat)
          (current_node_id : string) (l : link) (st st' : tstate) (source : node),
      link_5 l = "MODEL" ->
      dict_get nodes (str_of_int (link_1 l)) = Some source ->
      mode_of source = 0 ->
      has_widgets_values source = true ->
      handle_link nodes links (traverse nodes links fuel) current_node_id l st
      = Return st' ->
      model_category source
      = (if type_names_lora source || declares_model_input source
         then "LoRA Models" else "Base Models")
      /\ exists items item,
           identified_inputs st' !! model_category source = Some items
           /\ In item items
           /\ f_node_id item = Some (str_of_int (link_1 l))
           /\ f_type item = Some "MODEL")
  /\ exists m,
       analyze_comfyui_workflow posix_basename (WorkflowDict ModelExamples.lora_chain)
       = Return (Some m)
       /\ m !! "LoRA Models"
          = Some [ {| f_node_id := Some "4";
                      f_node_type := Some "LoraLoader";
                      f_title := Some "Node 4 (LoraLoader)";
                      f_type := Some "MODEL";
                      f_value :=
                        Some (PList [PStr "loras/style.safetensors"; PFloat "0.8";
                                     PFloat "0.8"]);
                      f_description := None |} ]
       /\ m !! "Base Models"
          = Some [ {| f_node_id := Some "5";
                      f_node_type := Some "CheckpointLoaderSimple";
                      f_title := Some "Node 5 (CheckpointLoaderSimple)";
                      f_type := Some "MODEL";
                      f_value := Some (PStr "sd15.safetensors");
                      f_description := None |} ].
Proof.
  split.
  - intros nodes links fuel current_node_id l st st' source Hty Hsrc Hmode Hw Hrun.
    split; [apply model_category_spec|].
    unfold handle_link in Hrun.
    rewrite Hty, (proj2 (get_record_Some _ _ _)
                    (conj Hsrc (has_widgets_values_truthy _ Hw))), Hmode in Hrun.
    cbn [String.eqb Ascii.eqb Bool.eqb] in Hrun.
    change (0 =? 0) with true in Hrun. cbv iota in Hrun.
    unfold has_widgets_values in Hw.
    destruct (n_widgets_values source) as [[|w ws]|] eqn:Ew; try discriminate Hw.
    change (default [] (Some (w :: ws))) with (w :: ws) in Hrun. cbv iota in Hrun.
    match type of Hrun with
    | traverse _ _ _ _ (TState _ ?m) = _ =>
        assert (Hrec : exists items item,
                   m !! model_category source = Some items
                   /\ In item items
                   /\ f_node_id item = Some (str_of_int (link_1 l))
                   /\ f_type item = Some "MODEL")
          by (apply model_record_lookup; reflexivity)
    end.
    destruct Hrec as (items & item & Hlook & Hin & Hid & Hft).
    apply traverse_keeps in Hrun. cbn [identified_inputs] in Hrun.
    apply Hrun in Hlook as [more Hlook].
    exists (items ++ more), item. split; [exact Hlook|].
    split; [apply in_or_app; by left|]. auto.
  - eexists. split; [vm_compute; reflexivity|].
    split; vm_compute; reflexivity.
Qed.

Lemma model_source_is_classified_witness :
  exists st',
    handle_link ModelExamples.lora_chain_nodes ModelExamples.lora_chain_links
      (traverse ModelExamples.lora_chain_nodes ModelExamples.lora_chain_links 8%nat)
      "3" (Link 3 4 0 3 0 "MODEL") (TState ∅ ∅) = Return st'
    /\ exists items item,
         identified_inputs st' !! "LoRA Models" = Some items
         /\ In item items
         /\ f_node_id item = Some "4"
         /\ f_type item = Some "MODEL".
Proof.
  eexists. split; [vm_compute; reflexivity|].
  refine (proj2 (proj1 model_source_is_classified
                   ModelExamples.lora_chain_nodes ModelExamples.lora_chain_links 8%nat
                   "3" (Link 3 4 0 3 0 "MODEL") (TState ∅ ∅) _
                   (Examples.mk 4 "LoraLoader"
                      (Some [Examples.slot "model" "MODEL"; Examples.slot "clip" "CLIP"])
                      (Some [PStr "loras/style.safetensors"; PFloat "0.8"; PFloat "0.8"]))
                   eq_refl eq_refl eq_refl eq_refl _)).
  vm_compute. reflexivity.
Defined.

(** ** C5: concatenation nodes *)

(** The parts gathered from the incoming edges of a node, in edge order:
    an edge whose payload type is not STRING, TEXT or CONDITIONING is
    passed over; the source of any other edge is resolved, with the
    visited set as the edges before it left it, and its parts come
    next. *)
Inductive linked_parts (rec : resolver)
  : list link -> gset string -> list string -> gset string -> Prop :=
| linked_done (pv : gset string) : linked_parts rec [] pv [] pv
| linked_other (l : link) (rest : list link) (pv pv' : gset string)
    (parts : list string) :
    str_in (link_5 l) text_link_types = false ->
    linked_parts rec rest pv parts pv' ->
    linked_parts rec (l :: rest) pv parts pv'
| linked_text (l : link) (rest : list link) (pv pv1 pv' : gset string)
    (traced parts : list string) :
    str_in (link_5 l) text_link_types = true ->
    rec (str_of_int (link_1 l)) pv = Return (traced, pv1) ->
    linked_parts rec rest pv1 parts pv' ->
    linked_parts rec (l :: rest) pv (traced ++ parts) pv'.

Lemma text_links_loop_linked_parts (rec : resolver) (incoming : list link) :
  forall acc found pv parts found' pv',
    text_links_loop rec incoming acc found pv = Return (parts, found', pv') ->
    exists linked, linked_parts rec incoming pv linked pv' /\ parts = acc ++ linked.
Proof.
  induction incoming as [|l rest IH]; intros acc found pv parts found' pv'; simpl.
  - intros [= <- <- <-]. exists []. split; [constructor | by rewrite app_nil_r].
  - destruct (str_in (link_5 l) text_link_types) eqn:Et.
    + intros H. apply bind_Return in H as [[traced pv1] [Hrec H]]. simpl in H.
      destruct traced as [|t ts].
      * apply IH in H as [linked [Hl ->]]. exists linked. split; [|reflexivity].
        by apply (linked_text rec l rest pv pv1 pv' [] linked).
      * apply IH in H as [linked [Hl ->]]. exists ((t :: ts) ++ linked).
        split; [by eapply linked_text | by rewrite app_assoc].
    + intros H. apply IH in H as [linked [Hl ->]]. exists linked.
      split; [by constructor | reflexivity].
Qed.


(** The parts of a concat node as C5 words them: every widget value
    converted to a string. *)
Definition concat_parts_as_stated (linked : list string) (widgets : list pyval)
  : list string :=
  linked ++ (str <$> widgets).

Module ConcatExamples.

Import Examples.

Definition sink : node :=
  mk 1 "SaveImage" (Some [slot "images" "IMAGE"; slot "negative" "CONDITIONING"]) None.

(** Scenario C: a concat node (5) with its own text, fed by a text node (6). *)
Definition scenario_c : workflow :=
  Workflow
    (Some (NodesSequence
       [ sink;
         mk 5 "TextConcatenate" None (Some [PStr ", masterpiece"]);
         mk 6 "Text" None (Some [PStr "a cat"]) ]))
    (Some [ Link 1 5 0 1 1 "CONDITIONING"; Link 2 6 0 5 0 "STRING" ]).

(** The same, the concat node holding an unset widget as well. *)
Definition widgets_with_none : list pyval := [PStr ", masterpiece"; PNone].

Definition with_unset_widget : workflow :=
  Workflow
    (Some (NodesSequence
       [ sink;
         mk 5 "TextConcatenate" None (Some widgets_with_none);
         mk 6 "Text" None (Some [PStr "a cat"]) ]))
    (Some [ Link 1 5 0 1 1 "CONDITIONING"; Link 2 6 0 5 0 "STRING" ]).

Definition scenario_c_nodes : dict node :=
  default [] (nodes_of scenario_c).

Definition scenario_c_links : list link := default [] (wf_links scenario_c).

Definition prompt_finding (value : string) : finding :=
  {| f_node_id := Some "5";
     f_node_type := Some "TextConcatenate";
     f_title := Some "Node 5";
     f_type := Some "TEXT";
     f_value := Some (PStr value);
     f_description := None |}.

End ConcatExamples.

(** C5, as stated, fails on the widget values: the code converts only the
    entries that are strings or numbers and drops the others, so an
    unset (None) widget of a concat node adds no part, where the claim
    has every entry converted to a string. *)
Lemma concat_drops_unset_widget :
  strip (join " " (concat_parts_as_stated ["a cat"] ConcatExamples.widgets_with_none))
  = "a cat , masterpiece None"
  /\ exists m,
       analyze_comfyui_workflow posix_basename
         (WorkflowDict ConcatExamples.with_unset_widget) = Return (Some m)
       /\ m !! "Negative Prompts"
          = Some [ConcatExamples.prompt_finding "a cat , masterpiece"].
Proof.
  split; [reflexivity|].
  eexists. split; vm_compute; reflexivity.
Qed.

(** What recording a resolved prompt leaves in the category. *)
Lemma prompt_record_lookup (category final_prompt : string) (new_item : finding)
    (identified : category_map) :
  f_value new_item = Some (PStr final_prompt) ->
  exists items item,
    (if existsb (value_is final_prompt)
          (default [] (ensure_category category identified !! category))
     then ensure_category category identified
     else append_finding category new_item (ensure_category category identified))
    !! category = Some items
    /\ In item items
    /\ f_value item = Some (PStr final_prompt).
Proof.
  intros Hv.
  pose proof (ensure_category_lookup category identified) as Hlook.
  destruct (existsb _ _) eqn:Ex.
  - apply existsb_exists in Ex as [item [Hin Hitem]].
    rewrite Hlook in Hin. exists (default [] (identified !! category)), item.
    split; [exact Hlook|]. split; [exact Hin|].
    unfold value_is in Hitem.
    destruct (f_value item) as [[| | | |s| |]|]; try discriminate Hitem.
    apply String.eqb_eq in Hitem. by subst.
  - exists (default [] (identified !! category) ++ [new_item]), new_item.
    split; [by apply append_finding_lookup|].
    split; [apply in_or_app; right; by left | exact Hv].
Qed.

(** C5 (amended).  For a node S whose type contains "concat"
    (case-insensitive), present, enabled and not yet visited, the Text
    Resolver gathers, in this order: the parts resolved from the incoming
    edges of S whose payload type is STRING, TEXT or CONDITIONING, in
    edge order; then those of S's widgets_values that are strings or
    numbers (int, float, bool), converted to strings - other entries are
    dropped.  The handler joins the parts it gets with a single space,
    strips the result and files it under the prompt category.  In
    scenario C the prompt is "a cat , masterpiece". *)
Theorem concat_gathers_linked_then_widgets :
  (forall (nodes : dict node) (links : list link) (fuel : nat) (id : string) (t : Z)
          (source : node) (pv pv' : gset string) (parts : list string),
      dict_get nodes id = Some source ->
      id ∉ pv ->
      mode_of source = 0 ->
      contains "concat" (lower (default "Unknown Source" (n_type source))) = true ->
      int_of_str id = Some t ->
      trace_prompt_source nodes links (S fuel) id pv = Return (parts, pv') ->
      exists linked,
        linked_parts (trace_prompt_source nodes links fuel)
          (List.filter (fun l => link_3 l =? t) links) ({[id]} ∪ pv) linked pv'
        /\ parts = linked ++ scalar_strs (default [] (n_widgets_values source)))
  /\ (forall (nodes : dict node) (links : list link) (current_node_id : string)
             (l : link) (identified : category_map) (name : option string)
             (category : string) (part : string) (parts : list string)
             (pv : gset string),
         conditioning_input_name nodes current_node_id l = Return name ->
         prompt_category name = Some category ->
         trace_prompt_source nodes links (depth_bound links) (str_of_int (link_1 l)) ∅
         = Return (part :: parts, pv) ->
         exists identified' items item,
           handle_conditioning_link nodes links current_node_id l identified
           = Return identified'
           /\ identified' !! category = Some items
           /\ In item items
           /\ f_value item = Some (PStr (strip (join " " (part :: parts)))))
  /\ exists m,
       analyze_comfyui_workflow posix_basename (WorkflowDict ConcatExamples.scenario_c)
       = Return (Some m)
       /\ m !! "Negative Prompts"
          = Some [ConcatExamples.prompt_finding "a cat , masterpiece"].
Proof.
  split; [|split].
  - intros nodes links fuel id t source pv pv' parts Hsrc Hvis Hmode Hconcat Hint.
    cbn [trace_prompt_source].
    rewrite bool_decide_eq_false_2 by exact Hvis.
    rewrite (proj2 (get_record_Some _ _ _) (conj Hsrc (concat_truthy _ Hconcat))).
    rewrite Hmode, Hconcat. change (negb (0 =? 0)) with false. cbv iota.
    rewrite (get_node_inputs_from_links_numeric id t links Hint).
    cbn [mbind outcome_bind]. intros H.
    apply bind_Return in H as [[[linked found] pv1] [Hloop H]].
    apply text_links_loop_linked_parts in Hloop as [linked' [Hl ->]].
    rewrite app_nil_l in H. exists linked'.
    unfold has_widgets_values in H.
    destruct (n_widgets_values source) as [[|w ws]|]; injection H as <- <-;
      (split; [exact Hl|]); rewrite ?app_nil_r; reflexivity.
  - intros nodes links current_node_id l identified name category part parts pv
      Hname Hcat Hparts.
    unfold handle_conditioning_link. rewrite Hname. cbn [mbind outcome_bind].
    rewrite Hcat, Hparts. cbn [mbind outcome_bind fst].
    eexists. 
    match goal with
    | |- exists items item, (if ?c then Return ?a else Return ?b) = _ /\ _ =>
        destruct (prompt_record_lookup category (strip (join " " (part :: parts)))
                    {| f_node_id := Some (str_of_int (link_1 l));
                       f_node_type :=
                         Some (default "Unknown Type"
                                 (dict_get nodes (str_of_int (link_1 l)) ≫= n_type));
                       f_title :=
                         Some (default ("Node " +:+ str_of_int (link_1 l))
                                 (dict_get nodes (str_of_int (link_1 l)) ≫= n_title));
                       f_type := Some "TEXT";
                       f_value := Some (PStr (strip (join " " (part :: parts))));
                       f_description := None |}
                    identified eq_refl) as (items & item & Hlook & Hin & Hv);
        exists items, item; split; [|split; [exact Hlook | split; [exact Hin | exact Hv]]]
    end.
    destruct (existsb _ _); reflexivity.
  - eexists. split; vm_compute; reflexivity.
Qed.

Lemma concat_gathers_linked_then_widgets_witness :
  exists pv' linked,
    linked_parts
      (trace_prompt_source ConcatExamples.scenario_c_nodes
         ConcatExamples.scenario_c_links 3%nat)
      (List.filter (fun l => link_3 l =? 5) ConcatExamples.scenario_c_links)
      ({["5"]} ∪ ∅) linked pv'
    /\ ["a cat"; ", masterpiece"] = linked ++ scalar_strs [PStr ", masterpiece"].
Proof.
  eexists.
  refine (proj1 concat_gathers_linked_then_widgets
            ConcatExamples.scenario_c_nodes ConcatExamples.scenario_c_links 3%nat
            "5" 5 (Examples.mk 5 "TextConcatenate" None (Some [PStr ", masterpiece"]))
            ∅ _ ["a cat"; ", masterpiece"] eq_refl _ eq_refl eq_refl eq_refl _).
  - apply not_elem_of_empty.
  - vm_compute. reflexivity.
Defined.

(** ** C4: the no-result value of the entry point *)

(** The situations C4 lists: the workflow is no mapping; its nodes are
    neither a mapping nor a sequence of records, or hold no record with
    an id (the absent key included); the links are empty or absent; the
    Sink Locator finds no node. *)
Definition no_result_as_stated (workflow_data : workflow_json) : bool :=
  match workflow_data with
  | WorkflowOther _ => true
  | WorkflowDict w =>
      match normalize_nodes (default (NodesMapping []) (wf_nodes w)) with
      | Return (Some nodes) =>
          bool_decide (nodes = [])
          || bool_decide (default [] (wf_links w) = [])
          || match find_image_save_node nodes with
             | None => true
             | Some _ => false
             end
      | _ => true
      end
  end.

(** The nodes are a list that holds an element that is no dict. *)
Definition node_list_holds_no_dict (workflow_data : workflow_json) : bool :=
  match workflow_data with
  | WorkflowDict w =>
      match wf_nodes w with
      | Some (NodesBrokenSequence _ _) => true
      | _ => false
      end
  | WorkflowOther _ => false
  end.

(** The identifier of the node the Sink Locator returns. *)
Definition located_sink_id (workflow_data : workflow_json) : option string :=
  match workflow_data with
  | WorkflowOther _ => None
  | WorkflowDict w =>
      match nodes_of w with
      | Some nodes =>
          match find_image_save_node nodes with
          | Some found => Some (fst found)
          | None => None
          end
      | None => None
      end
  end.

Module EntryExamples.

Import Examples.

(** The nodes are the list [[1]]. *)
Definition number_in_nodes : workflow :=
  Workflow
    (Some (NodesBrokenSequence [] (Scalar (SInt 1))))
    (Some [ Link 1 2 0 3 0 "IMAGE" ]).

(** A save node stored under the empty key. *)
Definition empty_key : workflow :=
  Workflow
    (Some (NodesMapping
       [ ("", Node None (Some "SaveImage") None (Some 0) (Some [slot "images" "IMAGE"]) None false) ]))
    (Some [ Link 1 2 0 3 0 "IMAGE" ]).

End EntryExamples.

(** Where the nodes normalise to a mapping, the entry point answers None
    exactly when the mapping or the links are empty, no sink is found,
    or the sink that is found is keyed by the empty string. *)
Lemma no_result_on_normalized_nodes (basename : string -> string) (w : workflow)
    (nodes : dict node) :
  normalize_nodes (default (NodesMapping []) (wf_nodes w)) = Return (Some nodes) ->
  analyze_comfyui_workflow basename (WorkflowDict w) = Return None
  <-> no_result_as_stated (WorkflowDict w) = true
      \/ located_sink_id (WorkflowDict w) = Some "".
Proof.
  intros Hnodes.
  unfold analyze_comfyui_workflow, no_result_as_stated, located_sink_id, nodes_of.
  rewrite Hnodes. cbn [mbind outcome_bind].
  destruct (decide (nodes = [])) as [En|En].
  { repeat rewrite (bool_decide_eq_true_2 (nodes = [])) by exact En. cbn [orb]. tauto. }
  repeat rewrite (bool_decide_eq_false_2 (nodes = [])) by exact En.
  destruct (decide (default [] (wf_links w) = [])) as [El|El].
  { repeat rewrite (bool_decide_eq_true_2 (default [] (wf_links w) = [])) by exact El.
    cbn [orb]. tauto. }
  repeat rewrite (bool_decide_eq_false_2 (default [] (wf_links w) = [])) by exact El.
  cbn [orb].
  destruct (find_image_save_node nodes) as [[id nd]|]; cbn [fst]; [|tauto].
  destruct (String.eqb id "") eqn:Eid.
  - apply String.eqb_eq in Eid. subst. tauto.
  - split.
    + intros H. apply bind_Return in H as [m [_ H]]. discriminate H.
    + intros [H|H]; [discriminate H|].
      injection H as ->. rewrite String.eqb_refl in Eid. discriminate Eid.
Qed.

(** C4 (the code departs from the claim).  The entry point does not keep
    to the no-result value in the situations C4 lists.  A node list that
    holds an element that is no dict - a nodes collection that is no
    sequence of records - is not answered with None: the normalisation
    calls [get] on the element and [AttributeError] reaches the caller,
    whatever the links are.  And None is answered in a situation C4 does
    not list: a sink that the Sink Locator finds under the empty string
    is dropped by the test of the identifier's truth value.  On the
    workflows of the data model these are the only two departures: None
    is the answer exactly in the listed situations other than such a
    node list, and for such a sink. *)
Theorem malformed_node_list_raises_and_empty_sink_key_is_lost :
  (forall (basename : string -> string) (before : list node) (bad : non_dict)
          (links : option (list link)),
      analyze_comfyui_workflow basename
        (WorkflowDict (Workflow (Some (NodesBrokenSequence before bad)) links))
      = Raise AttributeError)
  /\ no_result_as_stated (WorkflowDict EntryExamples.number_in_nodes) = true
  /\ analyze_comfyui_workflow posix_basename (WorkflowDict EntryExamples.number_in_nodes)
     = Raise AttributeError
  /\ (forall (basename : string -> string) (w : workflow) (nodes : dict node)
             (l : link) (all_links : list link) (sink : node),
         nodes_of w = Some nodes ->
         wf_links w = Some (l :: all_links) ->
         find_image_save_node nodes = Some ("", sink) ->
         analyze_comfyui_workflow basename (WorkflowDict w) = Return None)
  /\ no_result_as_stated (WorkflowDict EntryExamples.empty_key) = false
  /\ located_sink_id (WorkflowDict EntryExamples.empty_key) = Some ""
  /\ analyze_comfyui_workflow posix_basename (WorkflowDict EntryExamples.empty_key)
     = Return None
  /\ (forall (basename : string -> string) (workflow_data : workflow_json),
         analyze_comfyui_workflow basename workflow_data = Return None
         <-> no_result_as_stated workflow_data = true
             /\ node_list_holds_no_dict workflow_data = false
             \/ located_sink_id workflow_data = Some "").
Proof.
  split; [reflexivity|]. split; [reflexivity|]. split; [reflexivity|].
  split; [|split; [reflexivity|]; split; [reflexivity|]; split; [reflexivity|]].
  - intros basename w nodes l all_links sink Hnodes Hlinks Hfind.
    unfold analyze_comfyui_workflow.
    apply nodes_of_Some in Hnodes. rewrite Hnodes. cbn [mbind outcome_bind].
    rewrite Hfind. destruct (_ || _); reflexivity.
  - intros basename [w|v]; [|by split; [left|]].
    destruct w as [[[d|l|before bad|v]|] links];
      try (match goal with
           | |- analyze_comfyui_workflow _ (WorkflowDict ?w) = _ <-> _ =>
               rewrite (no_result_on_normalized_nodes basename w _ eq_refl)
           end;
           unfold node_list_holds_no_dict; cbn [wf_nodes]; tauto).
    + assert (Hraise : analyze_comfyui_workflow basename
                         (WorkflowDict
                            (Workflow (Some (NodesBrokenSequence before bad)) links))
                       = Raise AttributeError) by reflexivity.
      rewrite Hraise. split; [intros H; discriminate H|].
      intros [[_ H]|H]; compute in H; discriminate H.
    + split; [intros _; left; split; reflexivity | reflexivity].
Qed.

(** ** C1, C2, C3: where the code departs from its own account *)

Module BugExamples.

Import Examples.

(** A guider pipeline: the sampler (3) takes a guider (4) whose
    [conditioning] slot is fed by a text encoder (5), itself fed by a
    CLIP loader (6) without parameters. *)
Definition guider_nodes : nodes_json :=
  NodesSequence
    [ mk 1 "SaveImage" (Some [slot "images" "IMAGE"]) None;
      mk 3 "SamplerCustomAdvanced" (Some [slot "guider" "GUIDER"]) None;
      mk 4 "BasicGuider" (Some [slot "model" "MODEL"; slot "conditioning" "CONDITIONING"]) None;
      mk 5 "CLIPTextEncode" (Some [slot "clip" "CLIP"]) (Some [PStr "a red fox"]);
      mk 6 "CLIPLoader" None None;
      mk 7 "UNETLoader" None (Some [PStr "unet/flux.safetensors"]) ].

Definition guider_links (encoder_link_type : string) : list link :=
  [ Link 1 3 0 1 0 "IMAGE"; Link 2 4 0 3 0 "GUIDER"; Link 3 7 0 4 0 "MODEL";
    Link 4 5 0 4 1 encoder_link_type; Link 5 6 0 5 0 "CLIP" ].

Definition guider (encoder_link_type : string) : workflow :=
  Workflow (Some guider_nodes) (Some (guider_links encoder_link_type)).

Definition source_finding (id type : string) : finding :=
  {| f_node_id := Some id;
     f_node_type := Some type;
     f_title := Some ("Node " +:+ id +:+ " (" +:+ type +:+ ")");
     f_type := None;
     f_value := None;
     f_description := Some "Node with no incoming links and no explicit parameters." |}.

(** A workflow whose save node is keyed by a name. *)
Definition named_sink : workflow :=
  Workflow
    (Some (NodesMapping
       [ ("out", Node None (Some "SaveImage") None (Some 0) (Some [slot "images" "IMAGE"]) None false);
         ("2", Node None (Some "LoadImage") None (Some 0) None (Some [PStr "fox.png"]) false) ]))
    (Some [ Link 1 2 0 1 0 "IMAGE" ]).

(** A checkpoint (5) reaching the sampler (3) through a reroute node (4),
    which has no widget values. *)
Definition rerouted : workflow :=
  Workflow
    (Some (NodesSequence
       [ mk 1 "SaveImage" (Some [slot "images" "IMAGE"]) None;
         mk 3 "KSampler" (Some [slot "model" "MODEL"]) (Some [PInt 42; PStr "euler"]);
         mk 4 "Reroute" (Some [slot "" "*"]) None;
         mk 5 "CheckpointLoaderSimple" None (Some [PStr "checkpoints/sd15.safetensors"]) ]))
    (Some [ Link 1 3 0 1 0 "IMAGE"; Link 2 4 0 3 0 "MODEL"; Link 3 5 0 4 0 "MODEL" ]).

End BugExamples.

(** C1 (the code departs from the claim).  The handler of a CONDITIONING
    edge never calls the traversal: whatever traversal function it is
    given, the result is the same, and when the input-slot name selects
    no category the tracer state comes back unchanged, the edge's source
    unvisited.  On the guider pipeline the text encoder (5) and the CLIP
    loader (6) behind the [conditioning] slot are never visited and the
    loader is not filed; were the same edge of an unknown type, the
    general traversal would reach both and file the loader under
    "Source Nodes (No Parameters)". *)
Theorem conditioning_edge_stops_traversal :
  (forall (nodes : dict node) (links : list link) (rec1 rec2 : walker)
          (current_node_id : string) (l : link) (st : tstate),
      link_5 l = "CONDITIONING" ->
      handle_link nodes links rec1 current_node_id l st
      = handle_link nodes links rec2 current_node_id l st)
  /\ (forall (nodes : dict node) (links : list link) (rec : walker)
             (current_node_id : string) (l : link) (st : tstate) (name : option string),
         link_5 l = "CONDITIONING" ->
         conditioning_input_name nodes current_node_id l = Return name ->
         prompt_category name = None ->
         handle_link nodes links rec current_node_id l st = Return st)
  /\ (exists nodes st,
         normalize_nodes BugExamples.guider_nodes = Return (Some nodes)
         /\ traverse nodes (BugExamples.guider_links "CONDITIONING")
              (depth_bound (BugExamples.guider_links "CONDITIONING")) "1" (TState ∅ ∅)
            = Return st
         /\ bool_decide ("4" ∈ visited st) = true
         /\ bool_decide ("5" ∈ visited st) = false
         /\ bool_decide ("6" ∈ visited st) = false
         /\ identified_inputs st !! source_nodes_category = None)
  /\ (exists m,
         trace_workflow_inputs "1" (BugExamples.guider "CLIP_TEXT") = Return m
         /\ m !! source_nodes_category
            = Some [BugExamples.source_finding "6" "CLIPLoader"]).
Proof.
  split; [|split; [|split]].
  - intros nodes links rec1 rec2 current_node_id l st Hty.
    unfold handle_link. rewrite Hty. reflexivity.
  - intros nodes links rec current_node_id l st name Hty Hname Hcat.
    unfold handle_link, handle_conditioning_link. rewrite Hty, Hname.
    cbn [String.eqb Ascii.eqb Bool.eqb mbind outcome_bind]. rewrite Hcat.
    destruct st; reflexivity.
  - eexists _, _. split; [reflexivity|].
    repeat split; vm_compute; reflexivity.
  - eexists. split; vm_compute; reflexivity.
Qed.

(** C2 (the code departs from the claim).  Querying the incoming edges of
    an identifier that is no integer literal raises as soon as there is a
    link to compare with, and so does the whole analysis when the sink
    it locates is keyed by such an identifier: the entry point accepts
    the workflow (a mapping, normalizable nodes, links, a sink) and the
    first step of the traversal raises [ValueError]. *)
Theorem non_numeric_sink_id_raises :
  (forall (target_node_id : string) (l : link) (all_links : list link),
      int_of_str target_node_id = None ->
      get_node_inputs_from_links target_node_id (l :: all_links) = Raise ValueError)
  /\ (forall (basename : string -> string) (w : workflow) (nodes : dict node)
             (l : link) (all_links : list link) (sink_id : string) (sink : node),
         nodes_of w = Some nodes ->
         wf_links w = Some (l :: all_links) ->
         find_image_save_node nodes = Some (sink_id, sink) ->
         sink_id <> "" ->
         int_of_str sink_id = None ->
         analyze_comfyui_workflow basename (WorkflowDict w) = Raise ValueError)
  /\ int_of_str "out" = None
  /\ located_sink_id (WorkflowDict BugExamples.named_sink) = Some "out"
  /\ analyze_comfyui_workflow posix_basename (WorkflowDict BugExamples.named_sink)
     = Raise ValueError.
Proof.
  assert (Hedge : forall target_node_id l all_links,
             int_of_str target_node_id = None ->
             get_node_inputs_from_links target_node_id (l :: all_links)
             = Raise ValueError).
  { intros id l ls Hid. unfold get_node_inputs_from_links.
    rewrite incoming_loop_spec, Hid. reflexivity. }
  split; [exact Hedge|]. split; [|repeat split; reflexivity].
  intros basename w nodes l ls sink_id sink Hnodes Hlinks Hfind Hne Hid.
  pose proof (located_sink_record _ _ _ _ Hnodes Hfind) as Hget.
  apply nodes_of_Some in Hnodes.
  unfold analyze_comfyui_workflow, trace_workflow_inputs.
  rewrite Hnodes. cbn [mbind outcome_bind]. rewrite Hlinks, Hfind.
  rewrite (bool_decide_eq_false_2 (nodes = [])) by (intros ->; discriminate Hfind).
  change (default [] (Some (l :: ls))) with (l :: ls).
  cbn [orb]. rewrite bool_decide_eq_false_2 by discriminate.
  apply String.eqb_neq in Hne. rewrite Hne.
  unfold depth_bound. cbn [traverse visited].
  rewrite bool_decide_eq_false_2 by set_solver.
  rewrite Hget, (Hedge sink_id l ls Hid). reflexivity.
Qed.

(** C3 (the code departs from the claim).  On a MODEL edge whose source
    exists (a record that is not empty), is enabled and has empty or
    absent widgets_values, the tracer
    returns at once with its state unchanged: the recursion into the
    source sits under the test of the widget values, so it is skipped
    together with the finding.  On the rerouted pipeline the reroute node
    (4) is such a source: the checkpoint (5) behind it is never reached
    and the analysis files nothing under "Base Models". *)
Theorem model_source_without_widgets_is_not_traversed :
  (forall (nodes : dict node) (links : list link) (rec : walker)
          (current_node_id : string) (l : link) (st : tstate) (source : node),
      link_5 l = "MODEL" ->
      dict_get nodes (str_of_int (link_1 l)) = Some source ->
      truthy source = true ->
      mode_of source = 0 ->
      has_widgets_values source = false ->
      handle_link nodes links rec current_node_id l st = Return st)
  /\ exists m,
       analyze_comfyui_workflow posix_basename (WorkflowDict BugExamples.rerouted)
       = Return (Some m)
       /\ m !! "Base Models" = None
       /\ m = ∅.
Proof.
  split.
  - intros nodes links rec current_node_id l st source Hty Hsrc Htrue Hmode Hw.
    unfold handle_link.
    rewrite Hty, (proj2 (get_record_Some _ _ _) (conj Hsrc Htrue)), Hmode.
    cbn [String.eqb Ascii.eqb Bool.eqb]. change (0 =? 0) with true. cbv iota.
    unfold has_widgets_values in Hw.
    destruct (n_widgets_values source) as [[|w ws]|]; try discriminate Hw; reflexivity.
  - eexists. split; [vm_compute; reflexivity|].
    split; vm_compute; reflexivity.
Qed.

(** ** C10: a node record without [mode] *)

Lemma parameter_type_is_no_other (link_type : string) :
  str_in link_type parameter_link_types = true ->
  String.eqb link_type "CONDITIONING" = false /\ String.eqb link_type "MODEL" = false.
Proof.
  unfold str_in. intros H. apply existsb_exists in H as [x [Hin E]].
  apply String.eqb_eq in E. subst x. simpl in Hin.
  destruct Hin as [<-|[<-|[<-|[<-|[<-|[<-|[<-|[]]]]]]]]; split; reflexivity.
Qed.

Lemma absent_mode_reads_zero (node_data : node) :
  n_mode node_data = None -> mode_of node_data = 0.
Proof. unfold mode_of. by intros ->. Qed.

Module ModeExamples.

(** A loader stored without [mode] and without widget values, which no
    link enters. *)
Definition loader : node := Node (Some (IdInt 7)) (Some "CLIPLoader") None None None None false.

Definition loader_nodes : dict node := [("7", loader)].

Definition loader_links : list link := [ Link 1 2 0 3 0 "IMAGE" ].

End ModeExamples.



(** ** Workflows on which nothing is raised *)

Lemma bind_not_Raise {A B : Type} (c : outcome A) (k : A -> outcome B) (e : exn) :
  c <> Raise e -> (forall a, c = Return a -> k a <> Raise e) -> c ≫= k <> Raise e.
Proof.
  destruct c as [a| |]; simpl; intros Hc Hk;
    [by apply Hk | intros [= ->]; by apply Hc | discriminate].
Qed.

Lemma list_index_in_range {A : Type} (l : list A) (i : Z) :
  0 <= i -> (i <? Z.of_nat (length l)) = true -> exists x, list_index l i = Return x.
Proof.
  intros H0 Hlt. apply Z.ltb_lt in Hlt. unfold list_index.
  destruct (i <? 0) eqn:E0; [apply Z.ltb_lt in E0; lia|].
  replace ((0 <=? i) && (i <? Z.of_nat (length l))) with true
    by (symmetry; apply andb_true_iff; split; [apply Z.leb_le | apply Z.ltb_lt]; lia).
  destruct (l !! Z.to_nat i) as [x|] eqn:El; [eauto|].
  apply lookup_ge_None in El. lia.
Qed.

Section NothingRaised.

Variable nodes : dict node.
Variable links : list link.

(** Every input index of a link is a position counted from the start. *)
Hypothesis indices_from_start : forall l, In l links -> 0 <= link_4 l.

Lemma get_node_inputs_from_links_printed (z : Z) :
  get_node_inputs_from_links (str_of_int z) links
  = Return (List.filter (fun l => link_3 l =? z) links).
Proof. apply get_node_inputs_from_links_numeric, int_of_str_of_int. Qed.

Definition resolver_is_safe (rec : resolver) : Prop :=
  forall z pv e, rec (str_of_int z) pv <> Raise e.

Lemma text_links_loop_safe (rec : resolver) (incoming : list link) :
  resolver_is_safe rec ->
  forall parts found pv e, text_links_loop rec incoming parts found pv <> Raise e.
Proof.
  intros Hrec. induction incoming as [|l rest IH]; intros parts found pv e; simpl;
    [discriminate|].
  destruct (str_in (link_5 l) text_link_types); [|apply IH].
  apply bind_not_Raise; [apply Hrec|].
  intros r _. destruct (r.1); apply IH.
Qed.

Lemma trace_prompt_source_safe (fuel : nat) :
  resolver_is_safe (trace_prompt_source nodes links fuel).
Proof.
  induction fuel as [|fuel IH]; intros z pv e; simpl; [discriminate|].
  case_bool_decide as Hvis; [discriminate|].
  destruct (get_record nodes (str_of_int z)) as [nd|]; [|discriminate].
  destruct (negb (mode_of nd =? 0)); [discriminate|].
  rewrite get_node_inputs_from_links_printed. cbn [mbind outcome_bind].
  destruct (contains "concat" _);
    (apply bind_not_Raise; [by apply text_links_loop_safe|]);
    intros [[parts found] pv'] _;
    repeat match goal with
           | |- (if ?b then _ else _) <> _ => destruct b
           | |- match ?o with Some _ => _ | None => _ end <> _ => destruct o
           | |- match ?o with [] => _ | _ :: _ => _ end <> _ => destruct o
           end; discriminate.
Qed.

Lemma handle_conditioning_link_safe (current_node_id : string) (l : link)
    (identified : category_map) (e : exn) :
  0 <= link_4 l ->
  handle_conditioning_link nodes links current_node_id l identified <> Raise e.
Proof.
  intros Hidx. unfold handle_conditioning_link.
  apply bind_not_Raise.
  - unfold conditioning_input_name.
    destruct (dict_get nodes current_node_id) as [nd|]; [|discriminate].
    destruct (n_inputs nd) as [inputs|]; [|discriminate].
    destruct (link_4 l <? Z.of_nat (length inputs)) eqn:Elt; [|discriminate].
    destruct (list_index_in_range inputs (link_4 l) Hidx Elt) as [x ->].
    discriminate.
  - intros name _. destruct (prompt_category name) as [category|]; [|discriminate].
    apply bind_not_Raise; [apply trace_prompt_source_safe|].
    intros r _. destruct (r.1); [discriminate|].
    destruct (existsb _ _); discriminate.
Qed.

Definition walker_is_safe (rec : walker) : Prop :=
  forall z st e, rec (str_of_int z) st <> Raise e.

Lemma handle_link_safe (rec : walker) (current_node_id : string) (l : link)
    (st : tstate) (e : exn) :
  walker_is_safe rec -> 0 <= link_4 l ->
  handle_link nodes links rec current_node_id l st <> Raise e.
Proof.
  intros Hrec Hidx. unfold handle_link.
  destruct (String.eqb (link_5 l) "CONDITIONING").
  { apply bind_not_Raise; [by apply handle_conditioning_link_safe | discriminate]. }
  repeat match goal with
         | |- context [if ?b then _ else _] => destruct b
         | |- context [match get_record ?d ?k with Some _ => _ | None => _ end] =>
             destruct (get_record d k)
         | |- context [match default [] ?w with [] => _ | _ :: _ => _ end] =>
             destruct (default [] w)
         end; first [ discriminate | apply Hrec ].
Qed.

Lemma links_loop_safe (rec : walker) (current_node_id : string) (incoming : list link) :
  walker_is_safe rec ->
  (forall l, In l incoming -> 0 <= link_4 l) ->
  forall st e,
    links_loop (handle_link nodes links rec current_node_id) incoming st <> Raise e.
Proof.
  intros Hrec. induction incoming as [|l rest IH]; intros Hidx st e; simpl;
    [discriminate|].
  apply bind_not_Raise.
  - apply handle_link_safe; [exact Hrec | apply Hidx; by left].
  - intros st1 _. apply IH. intros l' Hl'. apply Hidx. by right.
Qed.

Lemma traverse_safe (fuel : nat) : walker_is_safe (traverse nodes links fuel).
Proof.
  induction fuel as [|fuel IH]; intros z st e; simpl; [discriminate|].
  case_bool_decide as Hvis; [discriminate|].
  destruct (get_record nodes (str_of_int z)) as [nd|]; [|discriminate].
  rewrite get_node_inputs_from_links_printed. cbn [mbind outcome_bind].
  destruct (List.filter _ links) as [|l0 inc] eqn:Einc.
  - destruct (_ && _); discriminate.
  - apply links_loop_safe; [exact IH|].
    intros l Hl. apply indices_from_start.
    rewrite <- Einc in Hl. apply filter_In in Hl. tauto.
Qed.

(** The start may be any integer literal, printed canonically or not. *)
Lemma traverse_safe_from (fuel : nat) (start : string) (t : Z) (st : tstate) (e : exn) :
  int_of_str start = Some t ->
  traverse nodes links fuel start st <> Raise e.
Proof.
  intros Hstart. destruct fuel as [|fuel]; simpl; [discriminate|].
  case_bool_decide as Hvis; [discriminate|].
  destruct (get_record nodes start) as [nd|]; [|discriminate].
  rewrite (get_node_inputs_from_links_numeric start t links Hstart).
  cbn [mbind outcome_bind].
  destruct (List.filter _ links) as [|l0 inc] eqn:Einc.
  - destruct (_ && _); discriminate.
  - apply links_loop_safe; [apply traverse_safe|].
    intros l Hl. apply indices_from_start.
    rewrite <- Einc in Hl. apply filter_In in Hl. tauto.
Qed.

End NothingRaised.

(** *** The limits of the interpreter *)

(** CPython (3.11 on) refuses with ValueError to print, or to read from
    a string, an integer of more than 4300 decimal digits: [str_of_int]
    and [int_of_str] describe [str] and [int] within that limit.  The
    integers of a workflow that [json.load] has read are within it. *)
Definition max_str_digits : nat := 4300.

Definition printable (z : Z) : bool := Z.abs z <? 10 ^ Z.of_nat max_str_digits.

Fixpoint printable_value (v : pyval) : bool :=
  match v with
  | PInt z => printable z
  | PList l => forallb printable_value l
  | PDict d => forallb (fun kv => printable_value (snd kv)) d
  | _ => true
  end.

Definition printable_node (node_data : node) : bool :=
  match n_id node_data with Some (IdInt z) => printable z | _ => true end
  && match n_mode node_data with Some z => printable z | None => true end
  && forallb printable_value (default [] (n_widgets_values node_data)).

Definition printable_link (l : link) : bool :=
  printable (link_0 l) && printable (link_1 l) && printable (link_2 l)
  && printable (link_3 l) && printable (link_4 l).

Definition printable_nodes (nodes_raw : nodes_json) : bool :=
  match nodes_raw with
  | NodesMapping d => forallb (fun kv => printable_node (snd kv)) d
  | NodesSequence l => forallb printable_node l
  | NodesBrokenSequence before _ => forallb printable_node before
  | NodesOther _ => true
  end.

(** Every integer of the workflow is within the digit limit. *)
Definition within_digit_limit (w : workflow) : bool :=
  printable_nodes (default (NodesMapping []) (wf_nodes w))
  && forallb printable_link (default [] (wf_links w)).

(** The interpreter raises RecursionError at 1000 nested calls (its
    default).  A run on [n] links nests at most [n + 2] calls of
    [_traverse], then one of [_handle_conditioning_link], at most
    [n + 2] of [_trace_prompt_source] and one helper, under the two entry
    points: fewer than 810 calls on 400 links, which leaves the limit
    unreached when the analysis is called from fewer than 190 calls
    deep. *)
Definition recursion_headroom : nat := 400.



(** X2.  The Edge Index, asked for an identifier printed from an integer
    [z], answers with the links whose target (position 3) is [z], in the
    order of the link list, and never raises. *)
Theorem edge_index_of_printed_identifier (z : Z) (all_links : list link) :
  get_node_inputs_from_links (str_of_int z) all_links
  = Return (List.filter (fun l => link_3 l =? z) all_links).
Proof. apply get_node_inputs_from_links_numeric, int_of_str_of_int. Qed.



(** * Further properties of the tracer *)

(** ** What every step of the traversal preserves *)

Lemma ensure_category_present (c : string) (m : category_map) (items : list finding) :
  m !! c = Some items -> ensure_category c m = m.
Proof. intros H. unfold ensure_category. by rewrite H. Qed.

Lemma ensure_category_items (c : string) (m : category_map) :
  default [] (ensure_category c m !! c) = default [] (m !! c).
Proof. by rewrite ensure_category_lookup. Qed.

Lemma existsb_default_nonempty {A : Type} (p : A -> bool) (o : option (list A)) :
  existsb p (default [] o) = true -> exists l, o = Some l.
Proof. destruct o as [l|]; [eauto | discriminate]. Qed.

Lemma append_finding_lookup_cases (c c' : string) (new_item : finding)
    (m : category_map) :
  append_finding c new_item (ensure_category c m) !! c'
  = if decide (c = c') then Some (default [] (m !! c) ++ [new_item]) else m !! c'.
Proof.
  pose proof (ensure_category_lookup c m) as Hc.
  destruct (decide (c = c')) as [<-|Hne].
  - by apply append_finding_lookup.
  - unfold append_finding. rewrite Hc. rewrite lookup_insert_ne by done.
    unfold ensure_category. destruct (m !! c); [reflexivity|].
    by rewrite lookup_insert_ne.
Qed.

Section Preserved.

Variable nodes : dict node.
Variable links : list link.

(** A property of the nodes the walk is at, which the source end of an
    incoming link inherits from the node the link enters, *)
Variable R : string -> Prop.

Hypothesis R_step : forall id incoming l,
  R id ->
  get_node_inputs_from_links id links = Return incoming ->
  In l incoming ->
  R (str_of_int (link_1 l)).

(** and a property of the tracer state. *)
Variable I : tstate -> Prop.

(** It survives marking a node visited, *)
Hypothesis I_mark : forall st id,
  R id -> I st -> id ∉ visited st ->
  I (TState ({[id]} ∪ visited st) (identified_inputs st)).

(** recording a resolved prompt that the category does not hold yet, *)
Hypothesis I_prompt : forall v m current_node_id l name category part parts pv,
  R (str_of_int (link_1 l)) ->
  I (TState v m) ->
  link_5 l = "CONDITIONING" ->
  conditioning_input_name nodes current_node_id l = Return name ->
  prompt_category name = Some category ->
  trace_prompt_source nodes links (depth_bound links) (str_of_int (link_1 l)) ∅
  = Return (part :: parts, pv) ->
  existsb (value_is (strip (join " " (part :: parts)))) (default [] (m !! category))
  = false ->
  I (TState v (append_finding category
                 (prompt_finding_of nodes (str_of_int (link_1 l))
                    (strip (join " " (part :: parts))))
                 (ensure_category category m))).

(** recording the source of a MODEL edge that the category does not hold yet, *)
Hypothesis I_model : forall v m l source,
  R (str_of_int (link_1 l)) ->
  I (TState v m) ->
  link_5 l = "MODEL" ->
  dict_get nodes (str_of_int (link_1 l)) = Some source ->
  mode_of source = 0 ->
  has_widgets_values source = true ->
  existsb (fun item =>
             bool_decide (f_node_id item = Some (str_of_int (link_1 l)))
             && bool_decide (f_type item = Some "MODEL"))
    (default [] (m !! model_category source)) = false ->
  I (TState v (append_finding (model_category source)
                 (model_finding_of (str_of_int (link_1 l)) source)
                 (ensure_category (model_category source) m))).

(** recording the source of a parameter edge, *)
Hypothesis I_parameter : forall v m l source,
  R (str_of_int (link_1 l)) ->
  I (TState v m) ->
  str_in (link_5 l) parameter_link_types = true ->
  dict_get nodes (str_of_int (link_1 l)) = Some source ->
  mode_of source = 0 ->
  has_widgets_values source = true ->
  I (TState v (append_finding (link_5 l)
                 (parameter_finding_of (link_5 l) (str_of_int (link_1 l)) source)
                 (ensure_category (link_5 l) m))).

(** and marking a node without incoming links while recording it as a
    source node. *)
Hypothesis I_source : forall st id node_data,
  R id ->
  I st -> id ∉ visited st ->
  dict_get nodes id = Some node_data ->
  get_node_inputs_from_links id links = Return [] ->
  mode_of node_data = 0 ->
  has_widgets_values node_data = false ->
  I (TState ({[id]} ∪ visited st)
       (append_finding source_nodes_category (source_finding_of id node_data)
          (ensure_category source_nodes_category (identified_inputs st)))).

Lemma handle_conditioning_link_preserves (v : gset string) (current_node_id : string)
    (l : link) (m m' : category_map) :
  R (str_of_int (link_1 l)) ->
  link_5 l = "CONDITIONING" ->
  I (TState v m) ->
  handle_conditioning_link nodes links current_node_id l m = Return m' ->
  I (TState v m').
Proof.
  intros HR Hty HI. unfold handle_conditioning_link. intros H.
  apply bind_Return in H as [name [Hname H]].
  destruct (prompt_category name) as [category|] eqn:Hcat; [|by injection H as <-].
  apply bind_Return in H as [[parts pv] [Hparts H]]. cbn [fst] in H.
  destruct parts as [|part parts]; [by injection H as <-|].
  rewrite ensure_category_items in H.
  destruct (existsb _ _) eqn:Ex; injection H as <-.
  - apply existsb_default_nonempty in Ex as [items Hitems].
    by rewrite (ensure_category_present _ _ _ Hitems).
  - by eapply I_prompt.
Qed.

Definition preserving (rec : walker) : Prop :=
  forall id st st', R id -> I st -> rec id st = Return st' -> I st'.

Lemma handle_link_preserves (rec : walker) (current_node_id : string) (l : link) :
  preserving rec ->
  R (str_of_int (link_1 l)) ->
  forall st st',
    I st -> handle_link nodes links rec current_node_id l st = Return st' -> I st'.
Proof.
  intros Hrec HR st st' HI. unfold handle_link.
  destruct (String.eqb (link_5 l) "CONDITIONING") eqn:Ec.
  { apply String.eqb_eq in Ec. intros H. apply bind_Return in H as [m [Hm [= <-]]].
    destruct st as [v m0]. by eapply handle_conditioning_link_preserves. }
  destruct (String.eqb (link_5 l) "MODEL") eqn:Em.
  { apply String.eqb_eq in Em.
    destruct (get_record nodes (str_of_int (link_1 l))) as [source|] eqn:Hsrc;
      [|by apply Hrec].
    apply get_record_Some in Hsrc as [Hsrc Htrue].
    destruct (mode_of source =? 0) eqn:Hmode; [|by apply Hrec].
    apply Z.eqb_eq in Hmode.
    destruct (n_widgets_values source) as [[|w ws]|] eqn:Ew; cbn [default];
      try (intros [= <-]; exact HI).
    rewrite ensure_category_items. rewrite Em.
    assert (Hw : has_widgets_values source = true)
      by (unfold has_widgets_values; by rewrite Ew).
    destruct (existsb _ _) eqn:Ex.
    - apply existsb_default_nonempty in Ex as [items Hitems].
      rewrite (ensure_category_present _ _ _ Hitems). apply Hrec; [exact HR|].
      by destruct st.
    - apply Hrec; [exact HR|].
      pose proof (I_model (visited st) (identified_inputs st) l source) as Hstep.
      unfold model_finding_of in Hstep. rewrite Ew in Hstep. cbn [default] in Hstep.
      apply Hstep; auto. by destruct st. }
  destruct (str_in (link_5 l) parameter_link_types) eqn:Ep; [|by apply Hrec].
  destruct (get_record nodes (str_of_int (link_1 l))) as [source|] eqn:Hsrc;
    [|by apply Hrec].
  apply get_record_Some in Hsrc as [Hsrc Htrue].
  destruct (mode_of source =? 0) eqn:Hmode; [|by apply Hrec].
  apply Z.eqb_eq in Hmode.
  destruct (has_widgets_values source) eqn:Hw.
  - apply Hrec; [exact HR|].
    apply (I_parameter (visited st) (identified_inputs st) l source); auto.
    by destruct st.
  - apply Hrec; [exact HR|]. by destruct st.
Qed.

Lemma links_loop_preserves (body : link -> tstate -> outcome tstate)
    (incoming : list link) :
  (forall l st st', In l incoming -> I st -> body l st = Return st' -> I st') ->
  forall st st', I st -> links_loop body incoming st = Return st' -> I st'.
Proof.
  induction incoming as [|l rest IH]; intros Hbody st st' HI; simpl.
  - by intros [= <-].
  - intros H. apply bind_Return in H as [st1 [H1 H]].
    eapply IH; [| |exact H].
    + intros l' s s' Hl'. apply Hbody. by right.
    + eapply Hbody; [by left|exact HI|exact H1].
Qed.

(** The traversal preserves such a property. *)
Lemma traverse_preserves (fuel : nat) : preserving (traverse nodes links fuel).
Proof.
  induction fuel as [|fuel IH]; intros id st st' HR HI; simpl; [discriminate|].
  case_bool_decide as Hvis; [by intros [= <-]|].
  destruct (get_record nodes id) as [nd|] eqn:Hget;
    [|intros [= <-]; by apply I_mark].
  apply get_record_Some in Hget as [Hget Htrue].
  intros H. apply bind_Return in H as [inc [Hinc H]].
  destruct inc as [|l0 inc].
  - destruct (mode_of nd =? 0) eqn:Hmode; cbn [andb] in H.
    + destruct (has_widgets_values nd) eqn:Hw; cbn [negb] in H; injection H as <-.
      * by apply I_mark.
      * apply Z.eqb_eq in Hmode. by apply I_source.
    + injection H as <-. by apply I_mark.
  - eapply links_loop_preserves; [| |exact H].
    + intros l s s' Hl. apply handle_link_preserves; [exact IH|].
      by apply (R_step id (l0 :: inc)).
    + by apply I_mark.
Qed.

End Preserved.

(** ** What the tracer files *)

(** Every category that is present holds at least one finding, and every
    finding of category [c] satisfies [P c]. *)
Definition filed (P : string -> finding -> Prop) (m : category_map) : Prop :=
  forall c items, m !! c = Some items -> items <> [] /\ Forall (P c) items.

Lemma filed_empty (P : string -> finding -> Prop) : filed P ∅.
Proof. intros c items H. rewrite lookup_empty in H. discriminate H. Qed.

Lemma filed_append (P : string -> finding -> Prop) (c : string) (new_item : finding)
    (m : category_map) :
  filed P m -> P c new_item ->
  filed P (append_finding c new_item (ensure_category c m)).
Proof.
  intros Hm Hnew c' items H.
  rewrite (append_finding_lookup_cases c c' new_item m) in H.
  destruct (decide (c = c')) as [<-|Hne].
  - injection H as <-. split; [by destruct (default [] (m !! c))|].
    apply Forall_app. split; [|by constructor].
    destruct (m !! c) as [old|] eqn:E; [exact (proj2 (Hm _ _ E)) | constructor].
  - by apply Hm.
Qed.

(** A resolution that yields a part started at a node of the mapping
    that is enabled. *)
Lemma trace_prompt_source_parts_enabled (nodes : dict node) (links : list link)
    (fuel : nat) (id part : string) (parts : list string) (pv : gset string) :
  trace_prompt_source nodes links fuel id ∅ = Return (part :: parts, pv) ->
  exists source, dict_get nodes id = Some source /\ mode_of source = 0.
Proof.
  destruct fuel as [|fuel]; simpl; [discriminate|].
  rewrite bool_decide_eq_false_2 by apply not_elem_of_empty.
  destruct (get_record nodes id) as [source|] eqn:Hsrc; [|discriminate].
  apply get_record_Some in Hsrc as [Hsrc Htrue].
  destruct (mode_of source =? 0) eqn:E; cbn [negb]; [|discriminate].
  apply Z.eqb_eq in E. eauto.
Qed.

(** The names the tracer files findings under. *)
Definition tracer_categories : list string :=
  ["Positive Prompts"; "Negative Prompts"; "LoRA Models"; "Base Models";
   source_nodes_category] ++ parameter_link_types.

Lemma prompt_category_cases (name : option string) (category : string) :
  prompt_category name = Some category ->
  category = "Positive Prompts" \/ category = "Negative Prompts".
Proof.
  unfold prompt_category. destruct name as [n|]; [|discriminate].
  destruct (_ && _); [intros [= <-]; by left|].
  destruct (_ && _); [intros [= <-]; by right | discriminate].
Qed.

Lemma model_category_cases (source : node) :
  model_category source = "LoRA Models" \/ model_category source = "Base Models".
Proof.
  rewrite model_category_spec. destruct (_ || _); [by left | by right].
Qed.

Lemma str_in_In (x : string) (l : list string) : str_in x l = true -> In x l.
Proof.
  unfold str_in. intros H. apply existsb_exists in H as [y [Hy E]].
  apply String.eqb_eq in E. by subst.
Qed.

(** What a finding says about the node it names: the node is in the
    mapping and enabled, and the finding carries the node's type. *)
Definition describes (nodes : dict node) (item : finding) : Prop :=
  exists id node_data,
    f_node_id item = Some id
    /\ dict_get nodes id = Some node_data
    /\ mode_of node_data = 0
    /\ (forall type, n_type node_data = Some type -> f_node_type item = Some type).

(** The shape of a finding in each kind of category. *)
Definition shaped (nodes : dict node) (c : string) (item : finding) : Prop :=
  if str_in c ["Positive Prompts"; "Negative Prompts"] then
    f_type item = Some "TEXT" /\ exists prompt, f_value item = Some (PStr prompt)
  else if str_in c ["LoRA Models"; "Base Models"] then
    f_type item = Some "MODEL"
    /\ exists id node_data w ws,
         f_node_id item = Some id /\ dict_get nodes id = Some node_data
         /\ n_widgets_values node_data = Some (w :: ws)
         /\ f_value item = Some (PList (w :: ws))
  else if str_in c parameter_link_types then
    f_type item = Some c
    /\ exists id node_data w ws,
         f_node_id item = Some id /\ dict_get nodes id = Some node_data
         /\ n_widgets_values node_data = Some (w :: ws)
         /\ f_value item = Some (PList (w :: ws))
  else
    c = source_nodes_category
    /\ f_type item = None /\ f_value item = None
    /\ exists id node_data,
         f_node_id item = Some id /\ dict_get nodes id = Some node_data
         /\ has_widgets_values node_data = false.

Lemma has_widgets_values_true (node_data : node) :
  has_widgets_values node_data = true ->
  exists w ws, n_widgets_values node_data = Some (w :: ws).
Proof.
  unfold has_widgets_values. destruct (n_widgets_values node_data) as [[|w ws]|];
    try discriminate. eauto.
Qed.

Section Filed.

Variable nodes : dict node.
Variable links : list link.

Definition well_filed (c : string) (item : finding) : Prop :=
  In c tracer_categories /\ describes nodes item /\ shaped nodes c item.

Lemma describes_source (id : string) (node_data : node) (item : finding)
    (fallback : string) :
  dict_get nodes id = Some node_data -> mode_of node_data = 0 ->
  f_node_id item = Some id ->
  f_node_type item = Some (default fallback (n_type node_data)) ->
  describes nodes item.
Proof.
  intros Hget Hmode Hid Hty. exists id, node_data. repeat split; auto.
  intros type Ht. by rewrite Hty, Ht.
Qed.

Lemma traverse_well_filed (fuel : nat) (id : string) (st st' : tstate) :
  filed well_filed (identified_inputs st) ->
  traverse nodes links fuel id st = Return st' ->
  filed well_filed (identified_inputs st').
Proof.
  apply (traverse_preserves nodes links (fun _ => True)
           (fun _ _ _ _ _ _ => Logic.I)
           (fun s => filed well_filed (identified_inputs s))); [| | | | |exact Logic.I].
  - auto.
  - intros v m current l name category part parts pv _ Hm _ Hname Hcat Hparts _.
    cbn [identified_inputs] in *. apply filed_append; [exact Hm|].
    apply trace_prompt_source_parts_enabled in Hparts as [source [Hget Hmode]].
    split; [|split].
    + apply prompt_category_cases in Hcat as [-> | ->]; unfold tracer_categories;
        simpl; auto.
    + eapply (describes_source _ source _ "Unknown Type"); eauto.
      simpl. by rewrite Hget.
    + apply prompt_category_cases in Hcat as [-> | ->];
        (split; [reflexivity | eexists; reflexivity]).
  - intros v m l source _ Hm _ Hget Hmode Hw _.
    cbn [identified_inputs] in *. apply filed_append; [exact Hm|].
    apply has_widgets_values_true in Hw as (w & ws & Hw).
    split; [|split].
    + destruct (model_category_cases source) as [-> | ->]; unfold tracer_categories;
        simpl; auto.
    + eapply (describes_source _ source _ "Unknown Model Source"); eauto.
    + destruct (model_category_cases source) as [-> | ->];
        (split; [reflexivity|]); exists (str_of_int (link_1 l)), source, w, ws;
        simpl; rewrite Hw; auto.
  - intros v m l source _ Hm Hp Hget Hmode Hw.
    cbn [identified_inputs] in *. apply filed_append; [exact Hm|].
    apply has_widgets_values_true in Hw as (w & ws & Hw).
    pose proof (str_in_In _ _ Hp) as Hin.
    split; [|split].
    + unfold tracer_categories. apply in_or_app. by right.
    + eapply (describes_source _ source _ "Unknown Source"); eauto.
    + simpl in Hin.
      destruct Hin as [<-|[<-|[<-|[<-|[<-|[<-|[<-|[]]]]]]]];
        (split; [reflexivity|]); exists (str_of_int (link_1 l)), source, w, ws;
        simpl; rewrite Hw; auto.
  - intros s i node_data _ Hm _ Hget _ Hmode Hw.
    cbn [identified_inputs] in *. apply filed_append; [exact Hm|].
    split; [|split].
    + unfold tracer_categories. simpl. auto 10.
    + eapply (describes_source _ node_data _ "Unknown Type"); eauto.
    + repeat split. exists i, node_data. auto.
Qed.

End Filed.

(** ** Which categories can repeat a node *)

Lemma append_finding_lookup_other (c c' : string) (new_item : finding) (m : category_map) :
  c <> c' -> append_finding c new_item (ensure_category c m) !! c' = m !! c'.
Proof.
  intros Hne. rewrite append_finding_lookup_cases. by destruct (decide (c = c')).
Qed.

Lemma append_finding_lookup_same (c : string) (new_item : finding) (m : category_map) :
  append_finding c new_item (ensure_category c m) !! c
  = Some (default [] (m !! c) ++ [new_item]).
Proof. rewrite append_finding_lookup_cases. by destruct (decide (c = c)). Qed.

(** When one field is a function of another over a list, the list
    repeats no value of the second if it repeats none of the first. *)
Lemma NoDup_fmap_determined {A B C : Type} (f : A -> B) (g : A -> C) (l : list A) :
  (forall x y, In x l -> In y l -> f x = f y -> g x = g y) ->
  NoDup (g <$> l) -> NoDup (f <$> l).
Proof.
  induction l as [|a l IH]; intros Hdet Hg; simpl; [constructor|].
  rewrite fmap_cons in Hg. apply NoDup_cons in Hg as [Hnotin Hg].
  apply NoDup_cons. split.
  - intros Hin. apply Hnotin.
    apply list_elem_of_fmap in Hin as [y [Hy Hyl]].
    apply list_elem_of_fmap. exists y. split; [|exact Hyl].
    apply Hdet; [by left | right; by apply list_elem_of_In | exact Hy].
  - apply IH; [|exact Hg]. intros x y Hx Hy. apply Hdet; by right.
Qed.

Lemma NoDup_snoc {A : Type} (l : list A) (x : A) :
  NoDup l -> x ∉ l -> NoDup (l ++ [x]).
Proof.
  intros Hl Hx. apply NoDup_app. split; [exact Hl|]. split; [|apply NoDup_singleton].
  intros y Hy Hy'. apply list_elem_of_singleton in Hy'. by subst.
Qed.

Section Repeats.

Variable nodes : dict node.
Variable links : list link.

(** [value] is the prompt the handler files for the source [id] of a
    CONDITIONING edge: the parts resolved from [id], none visited before,
    joined with blanks and stripped. *)
Definition resolves_to (id : string) (value : option pyval) : Prop :=
  exists part parts pv,
    trace_prompt_source nodes links (depth_bound links) id ∅ = Return (part :: parts, pv)
    /\ value = Some (PStr (strip (join " " (part :: parts)))).

Lemma resolves_to_functional (id : string) (value value' : option pyval) :
  resolves_to id value -> resolves_to id value' -> value = value'.
Proof.
  intros (part & parts & pv & H & ->) (part' & parts' & pv' & H' & ->).
  rewrite H in H'. by injection H' as <- <- <-.
Qed.

(** The invariant: in a prompt category no value is repeated and every
    value is the prompt resolved from the finding's node; in a model
    category every finding has type MODEL and no node is repeated; in the
    source-node category every node is visited and none is repeated. *)
Definition unrepeated (st : tstate) : Prop :=
  (forall c items,
      In c ["Positive Prompts"; "Negative Prompts"] ->
      identified_inputs st !! c = Some items ->
      NoDup (f_value <$> items)
      /\ Forall (fun item =>
                   exists id, f_node_id item = Some id
                              /\ resolves_to id (f_value item)) items)
  /\ (forall c items,
         In c ["LoRA Models"; "Base Models"] ->
         identified_inputs st !! c = Some items ->
         NoDup (f_node_id <$> items)
         /\ Forall (fun item => f_type item = Some "MODEL") items)
  /\ (forall items,
         identified_inputs st !! source_nodes_category = Some items ->
         NoDup (f_node_id <$> items)
         /\ Forall (fun item =>
                      exists id, f_node_id item = Some id /\ id ∈ visited st) items).

Ltac other_category :=
  rewrite append_finding_lookup_other;
  [ eauto
  | let E := fresh in
    intros E;
    repeat match goal with
           | H : In _ (_ :: _) |- _ => destruct H as [H|H]
           | H : In _ [] |- _ => destruct H
           | H : _ \/ _ |- _ => destruct H
           end;
    congruence ].

Lemma value_not_among (final_prompt : string) (items : list finding) :
  existsb (value_is final_prompt) items = false ->
  Some (PStr final_prompt) ∉ f_value <$> items.
Proof.
  intros Hex Hin. apply list_elem_of_fmap in Hin as [item [Hv Hitem]].
  assert (existsb (value_is final_prompt) items = true); [|congruence].
  apply existsb_exists. exists item. split; [by apply list_elem_of_In|].
  unfold value_is. rewrite <- Hv. apply String.eqb_refl.
Qed.

Lemma node_not_among (id : string) (items : list finding) :
  Forall (fun item => f_type item = Some "MODEL") items ->
  existsb (fun item =>
             bool_decide (f_node_id item = Some id)
             && bool_decide (f_type item = Some "MODEL")) items = false ->
  Some id ∉ f_node_id <$> items.
Proof.
  intros Hty Hex Hin. apply list_elem_of_fmap in Hin as [item [Hid Hitem]].
  assert (existsb (fun item =>
             bool_decide (f_node_id item = Some id)
             && bool_decide (f_type item = Some "MODEL")) items = true); [|congruence].
  apply existsb_exists. exists item. split; [by apply list_elem_of_In|].
  rewrite Forall_forall in Hty.
  apply andb_true_iff. split; apply bool_decide_eq_true; [done | by apply Hty].
Qed.

Lemma traverse_unrepeated (fuel : nat) (id : string) (st st' : tstate) :
  unrepeated st ->
  traverse nodes links fuel id st = Return st' ->
  unrepeated st'.
Proof.
  apply (traverse_preserves nodes links (fun _ => True)
           (fun _ _ _ _ _ _ => Logic.I) unrepeated); [| | | | |exact Logic.I].
  - (* marking *)
    intros s i _ (Hp & Hm & Hs) _. split; [exact Hp|]. split; [exact Hm|].
    intros items H. destruct (Hs items H) as [Hnd Hall]. split; [exact Hnd|].
    eapply Forall_impl; [exact Hall|]. intros item [x [Hx Hin]]. exists x.
    split; [exact Hx | set_solver].
  - (* a prompt *)
    intros v m current l name category part parts pv _ (Hp & Hm & Hs) _ Hname Hcat
      Hparts Hex.
    pose proof (prompt_category_cases _ _ Hcat) as Hc.
    split; [|split]; cbn [identified_inputs visited] in *.
    + intros c items Hin. destruct (decide (category = c)) as [<-|Hne].
      * rewrite append_finding_lookup_same. intros [= <-].
        assert (Hold : NoDup (f_value <$> default [] (m !! category))
                       /\ Forall (fun item =>
                                    exists id, f_node_id item = Some id
                                               /\ resolves_to id (f_value item))
                            (default [] (m !! category))).
        { destruct (m !! category) as [old|] eqn:E; [by apply (Hp category)|].
          split; constructor. }
        destruct Hold as [Hnd Hall]. split.
        -- rewrite fmap_app. apply NoDup_snoc; [exact Hnd|].
           by apply value_not_among.
        -- apply Forall_app. split; [exact Hall|]. constructor; [|constructor].
           exists (str_of_int (link_1 l)). split; [reflexivity|].
           exists part, parts, pv. split; [exact Hparts | reflexivity].
      * rewrite append_finding_lookup_other by done. by apply Hp.
    + intros c items Hin. other_category.
    + intros items. unfold source_nodes_category. other_category.
  - (* a model *)
    intros v m l source _ (Hp & Hm & Hs) _ Hget Hmode Hw Hex.
    pose proof (model_category_cases source) as Hc.
    split; [|split]; cbn [identified_inputs visited] in *.
    + intros c items Hin. other_category.
    + intros c items Hin. destruct (decide (model_category source = c)) as [<-|Hne].
      * rewrite append_finding_lookup_same. intros [= <-].
        assert (Hold : NoDup (f_node_id <$> default [] (m !! model_category source))
                       /\ Forall (fun item => f_type item = Some "MODEL")
                            (default [] (m !! model_category source))).
        { destruct (m !! model_category source) as [old|] eqn:E;
            [by apply (Hm (model_category source))|].
          split; constructor. }
        destruct Hold as [Hnd Hall]. split.
        -- rewrite fmap_app. apply NoDup_snoc; [exact Hnd|].
           by apply node_not_among.
        -- apply Forall_app. split; [exact Hall|]. by repeat constructor.
      * rewrite append_finding_lookup_other by done. by apply Hm.
    + intros items. unfold source_nodes_category. other_category.
  - (* a parameter *)
    intros v m l source _ (Hp & Hm & Hs) Hparam Hget Hmode Hw.
    pose proof (str_in_In _ _ Hparam) as Hc. simpl in Hc.
    split; [|split]; cbn [identified_inputs visited] in *.
    + intros c items Hin. other_category.
    + intros c items Hin. other_category.
    + intros items. unfold source_nodes_category. other_category.
  - (* a source node *)
    intros s i node_data _ (Hp & Hm & Hs) Hvis Hget _ Hmode Hw.
    split; [|split]; cbn [identified_inputs visited] in *.
    + intros c items Hin. unfold source_nodes_category. other_category.
    + intros c items Hin. unfold source_nodes_category. other_category.
    + intros items. rewrite append_finding_lookup_same. intros [= <-].
      assert (Hold : NoDup (f_node_id <$>
                              default [] (identified_inputs s !! source_nodes_category))
                     /\ Forall (fun item =>
                                  exists id, f_node_id item = Some id /\ id ∈ visited s)
                          (default [] (identified_inputs s !! source_nodes_category))).
      { destruct (identified_inputs s !! source_nodes_category) as [old|] eqn:E;
          [by apply Hs|].
        split; constructor. }
      destruct Hold as [Hnd Hall]. split.
      * rewrite fmap_app. apply NoDup_snoc; [exact Hnd|].
        intros Hin. apply list_elem_of_fmap in Hin as [item [Hid Hitem]].
        rewrite Forall_forall in Hall.
        destruct (Hall _ Hitem) as [x [Hx Hxv]]. simpl in Hid. congruence.
      * apply Forall_app. split.
        -- eapply Forall_impl; [exact Hall|]. intros item [x [Hx Hin]]. exists x.
           split; [exact Hx | set_solver].
        -- constructor; [|constructor]. exists i. split; [reflexivity | set_solver].
Qed.

Lemma unrepeated_initial : unrepeated (TState ∅ ∅).
Proof.
  split; [|split]; intros; cbn [identified_inputs] in *;
    match goal with H : ∅ !! _ = Some _ |- _ => rewrite lookup_empty in H; discriminate H end.
Qed.

End Repeats.

Module MoreExamples.

Import Examples.

(** Scenario A: a checkpoint loader (2) feeding the save node (1). *)
Definition scenario_a : workflow :=
  Workflow
    (Some (NodesSequence
       [ mk 1 "SaveImage" (Some [slot "image" "IMAGE"]) None;
         mk 2 "CheckpointLoader" None (Some [PStr "models/model.safetensors"]) ]))
    (Some [ Link 0 2 0 1 0 "MODEL" ]).

Definition scenario_a_nodes : dict node :=
  [ ("1", mk 1 "SaveImage" (Some [slot "image" "IMAGE"]) None);
    ("2", mk 2 "CheckpointLoader" None (Some [PStr "models/model.safetensors"])) ].

Definition checkpoint_finding (value : pyval) : finding :=
  {| f_node_id := Some "2";
     f_node_type := Some "CheckpointLoader";
     f_title := Some "Node 2 (CheckpointLoader)";
     f_type := Some "MODEL";
     f_value := Some value;
     f_description := None |}.

Definition scenario_a_raw : category_map :=
  {[ "Base Models" := [checkpoint_finding (PList [PStr "models/model.safetensors"])] ]}.

Definition scenario_a_result : category_map :=
  {[ "Base Models" := [checkpoint_finding (PStr "model.safetensors")] ]}.

Lemma scenario_a_nodes_of : nodes_of scenario_a = Some scenario_a_nodes.
Proof. reflexivity. Qed.

Lemma scenario_a_trace : trace_workflow_inputs "1" scenario_a = Return scenario_a_raw.
Proof. vm_compute. reflexivity. Qed.

Lemma scenario_a_analysis :
  analyze_comfyui_workflow posix_basename (WorkflowDict scenario_a)
  = Return (Some scenario_a_result).
Proof. vm_compute. reflexivity. Qed.

Lemma scenario_a_raw_lookup :
  scenario_a_raw !! "Base Models"
  = Some [checkpoint_finding (PList [PStr "models/model.safetensors"])].
Proof. apply lookup_singleton_eq. Qed.

Lemma scenario_a_result_lookup :
  scenario_a_result !! "Base Models"
  = Some [checkpoint_finding (PStr "model.safetensors")].
Proof. apply lookup_singleton_eq. Qed.

End MoreExamples.

Lemma trace_workflow_inputs_well_filed (start_node_id : string) (w : workflow)
    (nodes : dict node) (m : category_map) :
  nodes_of w = Some nodes ->
  trace_workflow_inputs start_node_id w = Return m ->
  filed (well_filed nodes) m.
Proof.
  intros Hnodes Hrun. apply trace_workflow_inputs_run in Hrun as [[Hn _]|Hrun];
    [congruence|].
  destruct Hrun as (nodes' & st & Hnodes' & Hrun & ->).
  assert (nodes' = nodes) as -> by congruence.
  eapply traverse_well_filed; [|exact Hrun]. apply filed_empty.
Qed.

Lemma filed_category (nodes : dict node) (m : category_map) (c : string)
    (items : list finding) :
  filed (well_filed nodes) m ->
  m !! c = Some items ->
  In c tracer_categories /\ items <> [].
Proof.
  intros Hm Hc. destruct (Hm c items Hc) as [Hne Hall].
  split; [|exact Hne].
  destruct items as [|item items]; [by destruct Hne|].
  apply Forall_cons in Hall as [[Hin _] _]. exact Hin.
Qed.

(** X4.  The Provenance Tracer files findings under twelve names only -
    the two prompt categories, the two model categories, the source-node
    category and the seven parameter payload types - and a category it
    returns is never empty. *)
Theorem tracer_categories_are_known (start_node_id : string) (w : workflow)
    (m : category_map) (c : string) (items : list finding) :
  trace_workflow_inputs start_node_id w = Return m ->
  m !! c = Some items ->
  In c tracer_categories /\ items <> [].
Proof.
  intros Hrun Hc.
  destruct (nodes_of w) as [nodes|] eqn:Hnodes.
  - eapply filed_category; [|exact Hc].
    by eapply trace_workflow_inputs_well_filed.
  - apply trace_workflow_inputs_run in Hrun as [[_ ->]|(nodes & st & Hn & _)];
      [|congruence].
    rewrite lookup_empty in Hc. discriminate Hc.
Qed.

Lemma tracer_categories_are_known_witness :
  In "Base Models" tracer_categories
  /\ [MoreExamples.checkpoint_finding (PList [PStr "models/model.safetensors"])] <> [].
Proof.
  exact (tracer_categories_are_known "1" MoreExamples.scenario_a _ _ _
           MoreExamples.scenario_a_trace MoreExamples.scenario_a_raw_lookup).
Defined.

(** X5.  Every finding the Provenance Tracer files names a node that the
    node mapping holds and that is enabled (mode 0 or no mode), and
    carries that node's type: a missing or disabled node is never
    filed. *)
Theorem tracer_files_enabled_nodes (start_node_id : string) (w : workflow)
    (nodes : dict node) (m : category_map) (c : string) (items : list finding)
    (item : finding) :
  nodes_of w = Some nodes ->
  trace_workflow_inputs start_node_id w = Return m ->
  m !! c = Some items ->
  In item items ->
  exists id node_data,
    f_node_id item = Some id
    /\ dict_get nodes id = Some node_data
    /\ mode_of node_data = 0
    /\ (forall type, n_type node_data = Some type -> f_node_type item = Some type).
Proof.
  intros Hnodes Hrun Hc Hin.
  destruct (trace_workflow_inputs_well_filed _ _ _ _ Hnodes Hrun c items Hc)
    as [_ Hall].
  rewrite Forall_forall in Hall. apply list_elem_of_In in Hin.
  exact (proj1 (proj2 (Hall _ Hin))).
Qed.

Lemma tracer_files_enabled_nodes_witness :
  exists id node_data,
    f_node_id (MoreExamples.checkpoint_finding (PList [PStr "models/model.safetensors"]))
    = Some id
    /\ dict_get MoreExamples.scenario_a_nodes id = Some node_data
    /\ mode_of node_data = 0
    /\ (forall type,
           n_type node_data = Some type ->
           f_node_type
             (MoreExamples.checkpoint_finding (PList [PStr "models/model.safetensors"]))
           = Some type).
Proof.
  exact (tracer_files_enabled_nodes "1" MoreExamples.scenario_a _ _ _ _ _
           MoreExamples.scenario_a_nodes_of MoreExamples.scenario_a_trace
           MoreExamples.scenario_a_raw_lookup (or_introl eq_refl)).
Defined.

(** X6.  The shape of the tracer's findings by category: a prompt finding
    has type TEXT and a string value; a model or parameter finding has
    the payload type as its type (MODEL, or the category's own name) and
    the non-empty widgets_values of the node it names as its value; a
    source-node finding has neither type nor value and names a node
    without widget values. *)
Theorem tracer_findings_are_shaped (start_node_id : string) (w : workflow)
    (nodes : dict node) (m : category_map) (c : string) (items : list finding)
    (item : finding) :
  nodes_of w = Some nodes ->
  trace_workflow_inputs start_node_id w = Return m ->
  m !! c = Some items ->
  In item items ->
  shaped nodes c item.
Proof.
  intros Hnodes Hrun Hc Hin.
  destruct (trace_workflow_inputs_well_filed _ _ _ _ Hnodes Hrun c items Hc)
    as [_ Hall].
  rewrite Forall_forall in Hall. apply list_elem_of_In in Hin.
  exact (proj2 (proj2 (Hall _ Hin))).
Qed.

Lemma tracer_findings_are_shaped_witness :
  shaped MoreExamples.scenario_a_nodes "Base Models"
    (MoreExamples.checkpoint_finding (PList [PStr "models/model.safetensors"])).
Proof.
  exact (tracer_findings_are_shaped "1" MoreExamples.scenario_a _ _ _ _ _
           MoreExamples.scenario_a_nodes_of MoreExamples.scenario_a_trace
           MoreExamples.scenario_a_raw_lookup (or_introl eq_refl)).
Defined.

(** X7.  In the tracer's output only the seven parameter categories can
    name a node twice: every other category holds no two findings with
    the same node_id, and a prompt category holds no two findings with
    the same value. *)
Theorem tracer_repeats_nodes_in_parameter_categories_only (start_node_id : string)
    (w : workflow) (m : category_map) (c : string) (items : list finding) :
  trace_workflow_inputs start_node_id w = Return m ->
  m !! c = Some items ->
  str_in c parameter_link_types = false ->
  NoDup (f_node_id <$> items)
  /\ (In c ["Positive Prompts"; "Negative Prompts"] -> NoDup (f_value <$> items)).
Proof.
  intros Hrun Hc Hparam.
  apply trace_workflow_inputs_run in Hrun as [[_ ->]|Hrun];
    [rewrite lookup_empty in Hc; discriminate Hc|].
  destruct Hrun as (nodes & st & Hnodes & Hrun & ->).
  assert (Hknown : In c tracer_categories).
  { eapply (filed_category nodes); [|exact Hc].
    exact (traverse_well_filed nodes _ _ _ (TState ∅ ∅) st (filed_empty _) Hrun). }
  pose proof (traverse_unrepeated nodes _ _ _ _ _ (unrepeated_initial nodes _) Hrun)
    as (Hp & Hm & Hs).
  assert (Hprompt : In c ["Positive Prompts"; "Negative Prompts"] ->
                    NoDup (f_node_id <$> items) /\ NoDup (f_value <$> items)).
  { intros Hin. destruct (Hp c items Hin Hc) as [Hnd Hall]. split; [|exact Hnd].
    apply (NoDup_fmap_determined f_node_id f_value); [|exact Hnd].
    intros x y Hx Hy Hxy. rewrite Forall_forall in Hall.
    apply list_elem_of_In in Hx, Hy.
    destruct (Hall _ Hx) as [ix [Hix Hvx]]. destruct (Hall _ Hy) as [iy [Hiy Hvy]].
    assert (ix = iy) as -> by congruence.
    exact (resolves_to_functional nodes _ _ _ _ Hvx Hvy). }
  unfold tracer_categories in Hknown. apply in_app_or in Hknown as [Hknown|Hknown].
  - simpl in Hknown.
    destruct Hknown as [<-|[<-|[<-|[<-|[<-|[]]]]]].
    + destruct Hprompt as [H1 H2]; [simpl; auto|]. auto.
    + destruct Hprompt as [H1 H2]; [simpl; auto|]. auto.
    + split; [apply (Hm "LoRA Models"); simpl; auto|].
      intros [H|[H|[]]]; discriminate H.
    + split; [apply (Hm "Base Models"); simpl; auto|].
      intros [H|[H|[]]]; discriminate H.
    + split; [by apply Hs|].
      intros [H|[H|[]]]; discriminate H.
  - exfalso. assert (str_in c parameter_link_types = true); [|congruence].
    unfold str_in. apply existsb_exists. exists c. split; [exact Hknown|].
    apply String.eqb_refl.
Qed.

Lemma tracer_repeats_nodes_in_parameter_categories_only_witness :
  NoDup (f_node_id <$>
           [MoreExamples.checkpoint_finding (PList [PStr "models/model.safetensors"])])
  /\ (In "Base Models" ["Positive Prompts"; "Negative Prompts"] ->
      NoDup (f_value <$>
               [MoreExamples.checkpoint_finding
                  (PList [PStr "models/model.safetensors"])])).
Proof.
  exact (tracer_repeats_nodes_in_parameter_categories_only "1" MoreExamples.scenario_a
           _ _ _ MoreExamples.scenario_a_trace MoreExamples.scenario_a_raw_lookup
           eq_refl).
Defined.

(** ** Only nodes upstream of the start node are filed *)

(** [upstream links start id]: [id] is [start], or the printed source of
    a link that enters a node upstream of [start]. *)
Inductive upstream (links : list link) (start : string) : string -> Prop :=
| upstream_start : upstream links start start
| upstream_link (id : string) (t : Z) (l : link) :
    upstream links start id ->
    int_of_str id = Some t ->
    In l links ->
    link_3 l = t ->
    upstream links start (str_of_int (link_1 l)).

Lemma get_node_inputs_from_links_In (id : string) (links incoming : list link) (l : link) :
  get_node_inputs_from_links id links = Return incoming ->
  In l incoming ->
  exists t, int_of_str id = Some t /\ In l links /\ link_3 l = t.
Proof.
  unfold get_node_inputs_from_links. rewrite incoming_loop_spec.
  destruct links as [|l0 rest]; [intros [= <-] []|].
  destruct (int_of_str id) as [t|]; [|discriminate].
  intros [= <-] Hl.
  apply (proj1 (filter_In (fun l => link_3 l =? t) l (l0 :: rest))) in Hl as [Hl Ht].
  exists t. split; [reflexivity|]. split; [exact Hl|]. by apply Z.eqb_eq.
Qed.

Definition names_upstream (links : list link) (start : string) (c : string)
    (item : finding) : Prop :=
  exists id, f_node_id item = Some id /\ upstream links start id.

Lemma traverse_names_upstream (nodes : dict node) (links : list link) (start : string)
    (fuel : nat) (st : tstate) :
  traverse nodes links fuel start (TState ∅ ∅) = Return st ->
  filed (names_upstream links start) (identified_inputs st).
Proof.
  intros Hrun.
  refine (traverse_preserves nodes links (upstream links start) _
            (fun s => filed (names_upstream links start) (identified_inputs s))
            _ _ _ _ _ fuel start (TState ∅ ∅) st (upstream_start _ _) (filed_empty _) Hrun).
  - intros id incoming l Hid Hinc Hl.
    destruct (get_node_inputs_from_links_In _ _ _ _ Hinc Hl) as (t & Ht & Hin & Hl3).
    by eapply upstream_link.
  - auto.
  - intros v m current l name category part parts pv HR Hm _ _ _ _ _.
    cbn [identified_inputs] in *. apply filed_append; [exact Hm|].
    eexists. split; [reflexivity | exact HR].
  - intros v m l source HR Hm _ _ _ _ _.
    cbn [identified_inputs] in *. apply filed_append; [exact Hm|].
    eexists. split; [reflexivity | exact HR].
  - intros v m l source HR Hm _ _ _ _.
    cbn [identified_inputs] in *. apply filed_append; [exact Hm|].
    eexists. split; [reflexivity | exact HR].
  - intros s i node_data HR Hm _ _ _ _ _.
    cbn [identified_inputs] in *. apply filed_append; [exact Hm|].
    eexists. split; [reflexivity | exact HR].
Qed.

(** X8.  Every finding of the Provenance Tracer names a node upstream of
    the start node: the start node itself, or a node reached from it by
    following links from the node they enter to the node they leave. *)
Theorem tracer_files_upstream_nodes (start_node_id : string) (w : workflow)
    (m : category_map) (c : string) (items : list finding) (item : finding) :
  trace_workflow_inputs start_node_id w = Return m ->
  m !! c = Some items ->
  In item items ->
  exists id,
    f_node_id item = Some id
    /\ upstream (default [] (wf_links w)) start_node_id id.
Proof.
  intros Hrun Hc Hin.
  apply trace_workflow_inputs_run in Hrun as [[_ ->]|Hrun];
    [rewrite lookup_empty in Hc; discriminate Hc|].
  destruct Hrun as (nodes & st & _ & Hrun & ->).
  apply traverse_names_upstream in Hrun.
  destruct (Hrun c items Hc) as [_ Hall].
  rewrite Forall_forall in Hall. apply list_elem_of_In in Hin. by apply Hall.
Qed.

Lemma tracer_files_upstream_nodes_witness :
  exists id,
    f_node_id (MoreExamples.checkpoint_finding (PList [PStr "models/model.safetensors"]))
    = Some id
    /\ upstream (default [] (wf_links MoreExamples.scenario_a)) "1" id.
Proof.
  exact (tracer_files_upstream_nodes "1" MoreExamples.scenario_a _ _ _ _
           MoreExamples.scenario_a_trace MoreExamples.scenario_a_raw_lookup
           (or_introl eq_refl)).
Defined.

(** ** The Result Normalizer and the entry point *)

Lemma keep_first_sublist (items : list finding) (node_ids : list (option string)) :
  sublist (keep_first node_ids items) items.
Proof.
  revert node_ids. induction items as [|x rest IH]; intros node_ids; simpl;
    [constructor|].
  case_bool_decide; [apply sublist_cons | apply sublist_skip]; apply IH.
Qed.

(** The findings [keep_first] keeps are those no earlier finding, and no
    identifier of [node_ids], shares its [node_id] with. *)
Lemma keep_first_In (items : list finding) (node_ids : list (option string))
    (item : finding) :
  In item (keep_first node_ids items)
  <-> exists pre post,
        items = pre ++ item :: post
        /\ f_node_id item ∉ node_ids ++ (f_node_id <$> pre).
Proof.
  revert node_ids. induction items as [|x rest IH]; intros node_ids; simpl.
  - split; [intros [] | intros (pre & post & E & _); by destruct pre].
  - case_bool_decide as Hin.
    + rewrite IH. split.
      * intros (pre & post & -> & Hn). exists (x :: pre), post. split; [reflexivity|].
        rewrite fmap_cons. intros H. apply Hn.
        apply elem_of_app in H as [H|H]; [apply elem_of_app; by left|].
        apply elem_of_cons in H as [H|H]; [|apply elem_of_app; by right].
        apply elem_of_app. left. by rewrite H.
      * intros (pre & post & E & Hn). destruct pre as [|y pre].
        -- simpl in E. injection E as -> ->. exfalso. apply Hn.
           apply elem_of_app. by left.
        -- simpl in E. injection E as -> ->. exists pre, post.
           split; [reflexivity|]. intros H. apply Hn. rewrite fmap_cons.
           apply elem_of_app in H as [H|H]; apply elem_of_app; [by left|].
           right. apply elem_of_cons. by right.
    + simpl. rewrite IH. split.
      * intros [->|(pre & post & -> & Hn)].
        -- exists [], rest. split; [reflexivity|]. by rewrite app_nil_r.
        -- exists (x :: pre), post. split; [reflexivity|].
           rewrite fmap_cons. by rewrite cons_middle, app_assoc.
      * intros (pre & post & E & Hn). destruct pre as [|y pre].
        -- simpl in E. injection E as -> ->. by left.
        -- simpl in E. injection E as -> ->. right. exists pre, post.
           split; [reflexivity|].
           by rewrite fmap_cons, cons_middle, app_assoc in Hn.
Qed.

Lemma process_workflow_metadata_lookup (basename : string -> string)
    (raw_metadata : category_map) (c : string) :
  process_workflow_metadata basename raw_metadata !! c
  = (fun items => flatten_item basename c <$> keep_first [] items) <$> raw_metadata !! c.
Proof.
  unfold process_workflow_metadata. rewrite map_lookup_imap.
  destruct (raw_metadata !! c) as [items|]; [|reflexivity]. simpl.
  by rewrite process_items_spec.
Qed.

(** X9.  For each category the Result Normalizer returns the findings
    of the input that no earlier finding of the category shares its
    node_id with, in their order and each with its value flattened; it
    adds and drops no category. *)
Theorem normalizer_keeps_first_finding_of_each_node (basename : string -> string)
    (raw_metadata : category_map) (c : string) :
  match raw_metadata !! c with
  | None => process_workflow_metadata basename raw_metadata !! c = None
  | Some items =>
      exists kept,
        process_workflow_metadata basename raw_metadata !! c
        = Some (flatten_item basename c <$> kept)
        /\ sublist kept items
        /\ forall item,
             In item kept
             <-> exists pre post,
                   items = pre ++ item :: post
                   /\ f_node_id item ∉ f_node_id <$> pre
  end.
Proof.
  rewrite process_workflow_metadata_lookup.
  destruct (raw_metadata !! c) as [items|]; [|reflexivity].
  exists (keep_first [] items). split; [reflexivity|].
  split; [apply keep_first_sublist|].
  intros item. apply (keep_first_In items []).
Qed.

Lemma flatten_item_node_type (basename : string -> string) (category : string)
    (item : finding) :
  f_node_type (flatten_item basename category item) = f_node_type item.
Proof.
  unfold flatten_item.
  destruct (f_value item) as [[| | | | |[|v [|? ?]]|]|]; try reflexivity.
  destruct v; try reflexivity.
  destruct (str_in category filename_categories); reflexivity.
Qed.

(** X10.  End to end: every finding the entry point returns sits in one
    of the twelve categories of the tracer and names a node that is
    upstream of the located sink, held by the node mapping and enabled,
    and carries that node's type. *)
Theorem analysis_reports_enabled_nodes_upstream_of_the_sink
    (basename : string -> string) (w : workflow) (m : category_map) (c : string)
    (items : list finding) (item : finding) :
  analyze_comfyui_workflow basename (WorkflowDict w) = Return (Some m) ->
  m !! c = Some items ->
  In item items ->
  In c tracer_categories
  /\ exists nodes sink_id sink id node_data,
       nodes_of w = Some nodes
       /\ find_image_save_node nodes = Some (sink_id, sink)
       /\ f_node_id item = Some id
       /\ upstream (default [] (wf_links w)) sink_id id
       /\ dict_get nodes id = Some node_data
       /\ mode_of node_data = 0
       /\ (forall type, n_type node_data = Some type -> f_node_type item = Some type).
Proof.
  intros Hrun Hc Hin.
  apply analyze_comfyui_workflow_run in Hrun
    as (nodes & sink_id & sink & raw & Hnodes & Hsink & Hraw & ->).
  rewrite process_workflow_metadata_lookup in Hc.
  destruct (raw !! c) as [raw_items|] eqn:Hrc; [|discriminate Hc].
  injection Hc as <-.
  apply in_map_iff in Hin as [raw_item [<- Hin]].
  apply list_elem_of_In, keep_first_incl, list_elem_of_In in Hin.
  pose proof (trace_workflow_inputs_well_filed _ _ _ _ Hnodes Hraw) as Hfiled.
  split; [exact (proj1 (filed_category _ _ _ _ Hfiled Hrc))|].
  destruct (Hfiled c raw_items Hrc) as [_ Hall].
  rewrite Forall_forall in Hall.
  destruct (Hall raw_item (proj2 (list_elem_of_In _ _) Hin))
    as (_ & (id & node_data & Hid & Hget & Hmode & Hty) & _).
  apply trace_workflow_inputs_run in Hraw as [[Hn _]|Hraw]; [congruence|].
  destruct Hraw as (nodes' & st & _ & Htr & ->).
  apply traverse_names_upstream in Htr.
  destruct (Htr c raw_items Hrc) as [_ Hup]. rewrite Forall_forall in Hup.
  destruct (Hup raw_item (proj2 (list_elem_of_In _ _) Hin)) as (id' & Hid' & Hup').
  assert (id' = id) as -> by congruence.
  exists nodes, sink_id, sink, id, node_data.
  rewrite flatten_item_node_id, flatten_item_node_type. auto 10.
Qed.

Lemma analysis_reports_enabled_nodes_upstream_of_the_sink_witness :
  In "Base Models" tracer_categories
  /\ exists nodes sink_id sink id node_data,
       nodes_of MoreExamples.scenario_a = Some nodes
       /\ find_image_save_node nodes = Some (sink_id, sink)
       /\ f_node_id (MoreExamples.checkpoint_finding (PStr "model.safetensors")) = Some id
       /\ upstream (default [] (wf_links MoreExamples.scenario_a)) sink_id id
       /\ dict_get nodes id = Some node_data
       /\ mode_of node_data = 0
       /\ (forall type,
              n_type node_data = Some type ->
              f_node_type (MoreExamples.checkpoint_finding (PStr "model.safetensors"))
              = Some type).
Proof.
  exact (analysis_reports_enabled_nodes_upstream_of_the_sink posix_basename
           MoreExamples.scenario_a _ _ _ _
           MoreExamples.scenario_a_analysis MoreExamples.scenario_a_result_lookup
           (or_introl eq_refl)).
Defined.

(** ** The Text Resolver on a node that is no concatenation *)

(** The loop sets its flag exactly when it gathers a part. *)
Lemma text_links_loop_found (rec : resolver) (incoming : list link) :
  forall acc found pv parts found' pv',
    text_links_loop rec incoming acc found pv = Return (parts, found', pv') ->
    exists linked,
      linked_parts rec incoming pv linked pv'
      /\ parts = acc ++ linked
      /\ found' = found || negb (bool_decide (linked = [])).
Proof.
  induction incoming as [|l rest IH]; intros acc found pv parts found' pv'; simpl.
  - intros [= <- <- <-]. exists []. split; [constructor|].
    split; [by rewrite app_nil_r | by rewrite orb_false_r].
  - destruct (str_in (link_5 l) text_link_types) eqn:Et.
    + intros H. apply bind_Return in H as [[traced pv1] [Hrec H]]. simpl in H.
      destruct traced as [|t ts].
      * apply IH in H as (linked & Hl & -> & ->). exists linked.
        split; [by apply (linked_text rec l rest pv pv1 pv' [] linked)|]. auto.
      * apply IH in H as (linked & Hl & -> & ->). exists ((t :: ts) ++ linked).
        split; [by eapply linked_text|]. split; [by rewrite app_assoc|].
        simpl. by rewrite orb_true_r.
    + intros H. apply IH in H as (linked & Hl & -> & ->). exists linked.
      split; [by constructor | auto].
Qed.

Module PlainExamples.

Import Examples.

(** A text box (5) fed by a primitive string node (6): both have a
    widget value. *)
Definition boxed_nodes : dict node :=
  [ ("5", mk 5 "Text Box" None (Some [PStr "own text"]));
    ("6", mk 6 "PrimitiveString" None (Some [PStr "upstream text"])) ].

Definition boxed_links : list link := [ Link 1 6 0 5 0 "STRING" ].

End PlainExamples.

(** X11.  For a node whose type does not contain "concat", present with
    a record that is not empty, enabled and not yet visited, the Text
    Resolver prefers upstream text:
    when the incoming STRING, TEXT or CONDITIONING edges resolve to at
    least one part, those parts are the result and the node's own widget
    values are ignored; otherwise the result is the first widget value
    converted to a string, or nothing when the node has none. *)
Theorem plain_node_prefers_upstream_text (nodes : dict node) (links : list link)
    (fuel : nat) (id : string) (t : Z) (source : node) (pv pv' : gset string)
    (parts : list string) :
  dict_get nodes id = Some source ->
  truthy source = true ->
  id ∉ pv ->
  mode_of source = 0 ->
  contains "concat" (lower (default "Unknown Source" (n_type source))) = false ->
  int_of_str id = Some t ->
  trace_prompt_source nodes links (S fuel) id pv = Return (parts, pv') ->
  exists linked,
    linked_parts (trace_prompt_source nodes links fuel)
      (List.filter (fun l => link_3 l =? t) links) ({[id]} ∪ pv) linked pv'
    /\ parts = match linked with
               | _ :: _ => linked
               | [] => match n_widgets_values source with
                       | Some (first :: _) => [str first]
                       | _ => []
                       end
               end.
Proof.
  intros Hsrc Htrue Hvis Hmode Hconcat Hint.
  cbn [trace_prompt_source].
  rewrite bool_decide_eq_false_2 by exact Hvis.
  rewrite (proj2 (get_record_Some _ _ _) (conj Hsrc Htrue)).
  rewrite Hmode, Hconcat. change (negb (0 =? 0)) with false. cbv iota.
  rewrite (get_node_inputs_from_links_numeric id t links Hint).
  cbn [mbind outcome_bind]. intros H.
  apply bind_Return in H as [[[linked found] pv1] [Hloop H]].
  apply text_links_loop_found in Hloop as (linked' & Hl & -> & ->).
  rewrite app_nil_l in H. exists linked'.
  unfold has_widgets_values in H. cbn [orb] in H.
  destruct linked' as [|p ps].
  - rewrite bool_decide_eq_true_2 in H by reflexivity. cbn [negb andb] in H.
    destruct (n_widgets_values source) as [[|w ws]|]; injection H as <- <-;
      (split; [exact Hl | reflexivity]).
  - rewrite bool_decide_eq_false_2 in H by discriminate. cbn [negb andb] in H.
    injection H as <- <-. split; [exact Hl | reflexivity].
Qed.

Lemma plain_node_prefers_upstream_text_witness :
  exists linked,
    linked_parts
      (trace_prompt_source PlainExamples.boxed_nodes PlainExamples.boxed_links 2%nat)
      (List.filter (fun l => link_3 l =? 5) PlainExamples.boxed_links)
      ({["5"]} ∪ ∅) linked ({["6"]} ∪ ({["5"]} ∪ ∅))
    /\ ["upstream text"]
       = match linked with
         | _ :: _ => linked
         | [] => match Some [PStr "own text"] with
                 | Some (first :: _) => [str first]
                 | _ => []
                 end
         end.
Proof.
  refine (plain_node_prefers_upstream_text
            PlainExamples.boxed_nodes PlainExamples.boxed_links 2%nat
            "5" 5 (Examples.mk 5 "Text Box" None (Some [PStr "own text"]))
            ∅ _ ["upstream text"] eq_refl eq_refl _ eq_refl eq_refl eq_refl _).
  - apply not_elem_of_empty.
  - vm_compute. reflexivity.
Defined.

(** ** The Sink Locator *)

(** The test the loop of [find_image_save_node] applies to a node: its
    lower-cased type contains a keyword, and it declares an input of
    type image (any letter case) or, having no [inputs] key, is of type
    "Save Image". *)
Definition is_image_save_node (node_data : node) : bool :=
  existsb (fun keyword => contains keyword (lower (default "" (n_type node_data))))
    image_save_keywords
  && match n_inputs node_data with
     | Some inputs =>
         existsb (fun input_def =>
                    String.eqb (lower (default "" (slot_type input_def))) "image")
           inputs
     | None => bool_decide (n_type node_data = Some "Save Image")
     end.

Lemma find_image_save_node_cons (node_id : string) (node_data : node)
    (rest : dict node) :
  find_image_save_node ((node_id, node_data) :: rest)
  = if is_image_save_node node_data then Some (node_id, node_data)
    else find_image_save_node rest.
Proof.
  cbn [find_image_save_node]. unfold is_image_save_node.
  destruct (existsb _ image_save_keywords); [|reflexivity]. cbn [andb].
  destruct (n_inputs node_data) as [inputs|]; reflexivity.
Qed.

(** X12.  The Sink Locator returns the first node, in the order of the
    node mapping, whose type contains save, output or export (any letter
    case) and which declares an image input or, having no inputs key, is
    of type "Save Image"; it returns nothing exactly when no node is
    such.  A node that declares inputs none of which has type image is
    passed over, whatever its type. *)
Theorem sink_locator_returns_first_image_save_node (nodes : dict node) :
  match find_image_save_node nodes with
  | Some (node_id, node_data) =>
      exists before after,
        nodes = before ++ (node_id, node_data) :: after
        /\ is_image_save_node node_data = true
        /\ Forall (fun entry => is_image_save_node (snd entry) = false) before
  | None => Forall (fun entry => is_image_save_node (snd entry) = false) nodes
  end.
Proof.
  induction nodes as [|[node_id node_data] rest IH]; [constructor|].
  rewrite find_image_save_node_cons.
  destruct (is_image_save_node node_data) eqn:Hhere.
  - exists [], rest. split; [reflexivity|]. split; [exact Hhere | constructor].
  - destruct (find_image_save_node rest) as [[i nd]|].
    + destruct IH as (before & after & -> & Hyes & Hbefore).
      exists ((node_id, node_data) :: before), after.
      split; [reflexivity|]. split; [exact Hyes|]. by constructor.
    + by constructor.
Qed.

(** ** The node mapping *)

(** The record of a sequence that the key [k] names: the last one whose
    printed [id] is [k]. *)
Fixpoint last_record_named (k : string) (l : list node) : option node :=
  match l with
  | [] => None
  | node_data :: rest =>
      match last_record_named k rest with
      | Some later => Some later
      | None =>
          if bool_decide (str_of_ident <$> n_id node_data = Some k)
          then Some node_data else None
      end
  end.

Lemma normalize_sequence_fold (l : list node) (acc : dict node) (k : string) :
  NoDup (fst <$> acc) ->
  let nodes :=
    fold_left
      (fun acc node_data =>
         match n_id node_data with
         | Some node_id => dict_set acc (str_of_ident node_id) node_data
         | None => acc
         end) l acc in
  NoDup (fst <$> nodes)
  /\ dict_get nodes k
     = match last_record_named k l with
       | Some node_data => Some node_data
       | None => dict_get acc k
       end.
Proof.
  revert acc. induction l as [|nd rest IH]; intros acc Hnd; simpl.
  - auto.
  - destruct (n_id nd) as [node_id|] eqn:Eid; simpl.
    + destruct (IH (dict_set acc (str_of_ident node_id) nd) (dict_set_NoDup _ _ _ Hnd))
        as [H1 H2].
      split; [exact H1|]. rewrite H2.
      destruct (last_record_named k rest); [reflexivity|].
      rewrite dict_get_set. case_bool_decide as Hk.
      * injection Hk as ->. by rewrite String.eqb_refl.
      * destruct (String.eqb (str_of_ident node_id) k) eqn:E; [|reflexivity].
        apply String.eqb_eq in E. congruence.
    + destruct (IH acc Hnd) as [H1 H2]. split; [exact H1|]. rewrite H2.
      destruct (last_record_named k rest); reflexivity.
Qed.

Lemma normalize_mapping_fold (d acc : dict node) :
  NoDup (fst <$> acc ++ d) ->
  fold_left (fun acc kv => dict_set acc (fst kv) (snd kv)) d acc = acc ++ d.
Proof.
  revert acc. induction d as [|[k v] rest IH]; intros acc Hnd; simpl.
  - by rewrite app_nil_r.
  - assert (Hset : dict_set acc k v = acc ++ [(k, v)]).
    { rewrite fmap_app, fmap_cons in Hnd. apply NoDup_app in Hnd as (_ & Hdisj & _).
      assert (Hk : k ∉ fst <$> acc).
      { intros Hin. apply (Hdisj _ Hin). apply list_elem_of_here. }
      clear -Hk. induction acc as [|[k0 v0] acc IH]; simpl; [reflexivity|].
      rewrite fmap_cons in Hk. apply not_elem_of_cons in Hk as [Hne Hk].
      destruct (String.eqb k0 k) eqn:E; [apply String.eqb_eq in E; by subst|].
      by rewrite IH. }
    rewrite Hset, IH; rewrite <- app_assoc; [reflexivity | exact Hnd].
Qed.

(** X13.  A node sequence becomes a mapping with one entry per printed
    id: the key [k] finds the last record of the sequence whose id
    prints as [k] (a later record replaces an earlier one of the same
    id, an integer id and its decimal text coincide), and a record
    without id is dropped. *)
Theorem node_sequence_is_keyed_by_printed_id (l : list node) (k : string) :
  exists nodes,
    normalize_nodes (NodesSequence l) = Return (Some nodes)
    /\ NoDup (fst <$> nodes)
    /\ dict_get nodes k = last_record_named k l.
Proof.
  eexists. split; [reflexivity|].
  destruct (normalize_sequence_fold l [] k (NoDup_nil_2)) as [H1 H2].
  split; [exact H1|]. rewrite H2. by destruct (last_record_named k l).
Qed.

(** X14.  A node mapping whose keys are pairwise distinct - as those of
    a parsed JSON object are - is taken as it is, in its order. *)
Theorem node_mapping_is_kept (d : dict node) :
  NoDup (fst <$> d) ->
  normalize_nodes (NodesMapping d) = Return (Some d).
Proof.
  intros Hnd. unfold normalize_nodes. do 2 f_equal.
  apply (normalize_mapping_fold d []). exact Hnd.
Qed.

Lemma node_mapping_is_kept_witness :
  normalize_nodes (NodesMapping MoreExamples.scenario_a_nodes)
  = Return (Some MoreExamples.scenario_a_nodes).
Proof.
  apply node_mapping_is_kept.
  apply (bool_decide_unpack _). vm_compute. exact Logic.I.
Defined.

(** ** An input index below the range *)

Lemma list_index_below_range {A : Type} (l : list A) (i : Z) :
  i < - Z.of_nat (length l) -> list_index l i = Raise IndexError.
Proof.
  intros Hi. unfold list_index.
  replace (i <? 0) with true by (symmetry; apply Z.ltb_lt; lia).
  replace (0 <=? Z.of_nat (length l) + i) with false
    by (symmetry; apply Z.leb_gt; lia).
  reflexivity.
Qed.

Lemma traverse_index_below_range (nodes : dict node) (links : list link) (fuel : nat)
    (start : string) (t : Z) (node_data : node) (inputs : list input_slot)
    (l : link) (rest : list link) (st : tstate) :
  start ∉ visited st ->
  dict_get nodes start = Some node_data ->
  int_of_str start = Some t ->
  List.filter (fun l => link_3 l =? t) links = l :: rest ->
  link_5 l = "CONDITIONING" ->
  n_inputs node_data = Some inputs ->
  link_4 l < - Z.of_nat (length inputs) ->
  traverse nodes links (S fuel) start st = Raise IndexError.
Proof.
  intros Hvis Hget Hint Hinc Hty Hin Hidx.
  cbn [traverse visited identified_inputs].
  rewrite bool_decide_eq_false_2 by exact Hvis.
  rewrite (proj2 (get_record_Some _ _ _) (conj Hget (n_inputs_truthy _ _ Hin))).
  rewrite (get_node_inputs_from_links_numeric _ t _ Hint), Hinc.
  cbn [mbind outcome_bind links_loop].
  unfold handle_link. rewrite Hty. cbn [String.eqb Ascii.eqb Bool.eqb].
  unfold handle_conditioning_link, conditioning_input_name.
  rewrite Hget, Hin.
  replace (link_4 l <? Z.of_nat (length inputs)) with true
    by (symmetry; apply Z.ltb_lt; lia).
  rewrite (list_index_below_range inputs (link_4 l) Hidx). reflexivity.
Qed.

Module IndexExamples.

Import Examples.

(** A CONDITIONING link that enters the sampler (1) at input index -2,
    the sampler declaring one input. *)
Definition below_range : workflow :=
  Workflow
    (Some (NodesSequence
       [ mk 1 "Sampler" (Some [slot "positive" "CONDITIONING"]) None;
         mk 2 "CLIPTextEncode" None (Some [PStr "a cat"]) ]))
    (Some [ Link 1 2 0 1 (-2) "CONDITIONING" ]).

End IndexExamples.



(** ** The values that are reported *)

(** X16.  The value of a prompt finding is the text the Text Resolver
    gathers for the node the finding names, starting with no node
    visited: at least one part, the parts joined with single blanks and
    the result stripped. *)
Theorem prompt_value_is_the_resolved_text (start_node_id : string) (w : workflow)
    (nodes : dict node) (m : category_map) (c : string) (items : list finding)
    (item : finding) :
  nodes_of w = Some nodes ->
  trace_workflow_inputs start_node_id w = Return m ->
  In c ["Positive Prompts"; "Negative Prompts"] ->
  m !! c = Some items ->
  In item items ->
  exists id part parts pv,
    f_node_id item = Some id
    /\ trace_prompt_source nodes (default [] (wf_links w))
         (depth_bound (default [] (wf_links w))) id ∅
       = Return (part :: parts, pv)
    /\ f_value item = Some (PStr (strip (join " " (part :: parts)))).
Proof.
  intros Hnodes Hrun Hin Hc Hitem.
  apply trace_workflow_inputs_run in Hrun as [[Hn _]|Hrun]; [congruence|].
  destruct Hrun as (nodes' & st & Hnodes' & Hrun & ->).
  assert (nodes' = nodes) as -> by congruence.
  pose proof (traverse_unrepeated nodes _ _ _ _ _ (unrepeated_initial nodes _) Hrun)
    as (Hp & _ & _).
  destruct (Hp c items Hin Hc) as [_ Hall]. rewrite Forall_forall in Hall.
  apply list_elem_of_In in Hitem.
  destruct (Hall _ Hitem) as (id & Hid & part & parts & pv & Hres & Hv).
  exists id, part, parts, pv. auto.
Qed.

Lemma prompt_value_is_the_resolved_text_witness :
  exists id part parts pv,
    f_node_id (ConcatExamples.prompt_finding "a cat , masterpiece") = Some id
    /\ trace_prompt_source ConcatExamples.scenario_c_nodes
         (default [] (wf_links ConcatExamples.scenario_c))
         (depth_bound (default [] (wf_links ConcatExamples.scenario_c))) id ∅
       = Return (part :: parts, pv)
    /\ f_value (ConcatExamples.prompt_finding "a cat , masterpiece")
       = Some (PStr (strip (join " " (part :: parts)))).
Proof.
  eapply (prompt_value_is_the_resolved_text "1" ConcatExamples.scenario_c
            ConcatExamples.scenario_c_nodes _ "Negative Prompts"
            [ConcatExamples.prompt_finding "a cat , masterpiece"]).
  - reflexivity.
  - vm_compute. reflexivity.
  - simpl. tauto.
  - vm_compute. reflexivity.
  - by left.
Defined.

(** What the Result Normalizer makes of the widget values [widgets] of a
    node in category [c]. *)
Definition reported_widgets (basename : string -> string) (c : string)
    (widgets : list pyval) : pyval :=
  match widgets with
  | [PStr s] => if str_in c filename_categories then PStr (basename s) else PStr s
  | [v] => v
  | _ => PList widgets
  end.

(** X17.  End to end, on a model or parameter finding: its value is
    made of the widget values of the node it names - their list when
    there are several, the only one when there is one, and the base name
    of the only one when that is a string and the category holds file
    names (Base Models, LoRA Models, VAE). *)
Theorem analysis_reports_widget_values (basename : string -> string) (w : workflow)
    (nodes : dict node) (m : category_map) (c : string) (items : list finding)
    (item : finding) :
  nodes_of w = Some nodes ->
  analyze_comfyui_workflow basename (WorkflowDict w) = Return (Some m) ->
  In c (["LoRA Models"; "Base Models"] ++ parameter_link_types) ->
  m !! c = Some items ->
  In item items ->
  exists id node_data widgets,
    f_node_id item = Some id
    /\ dict_get nodes id = Some node_data
    /\ n_widgets_values node_data = Some widgets
    /\ widgets <> []
    /\ f_value item = Some (reported_widgets basename c widgets).
Proof.
  intros Hnodes Hrun Hcat Hc Hin.
  apply analyze_comfyui_workflow_run in Hrun
    as (nodes' & sink_id & sink & raw & Hnodes' & _ & Hraw & ->).
  assert (nodes' = nodes) as -> by congruence.
  rewrite process_workflow_metadata_lookup in Hc.
  destruct (raw !! c) as [raw_items|] eqn:Hrc; [|discriminate Hc].
  injection Hc as <-.
  apply in_map_iff in Hin as [raw_item [<- Hin]].
  apply list_elem_of_In, keep_first_incl in Hin.
  destruct (trace_workflow_inputs_well_filed _ _ _ _ Hnodes Hraw c raw_items Hrc)
    as [_ Hall].
  rewrite Forall_forall in Hall. destruct (Hall _ Hin) as (_ & _ & Hshape).
  assert (Hvalue : exists id node_data w0 ws,
             f_node_id raw_item = Some id /\ dict_get nodes id = Some node_data
             /\ n_widgets_values node_data = Some (w0 :: ws)
             /\ f_value raw_item = Some (PList (w0 :: ws))).
  { unfold shaped in Hshape. simpl in Hcat.
    destruct Hcat as [<-|[<-|[<-|[<-|[<-|[<-|[<-|[<-|[<-|[]]]]]]]]]];
      exact (proj2 Hshape). }
  destruct Hvalue as (id & node_data & w0 & ws & Hid & Hget & Hw & Hv).
  exists id, node_data, (w0 :: ws).
  rewrite flatten_item_node_id.
  split; [exact Hid|]. split; [exact Hget|]. split; [exact Hw|].
  split; [discriminate|].
  unfold flatten_item, reported_widgets. rewrite Hv.
  destruct ws as [|w1 ws]; [|by destruct w0].
  destruct w0; try reflexivity.
  destruct (str_in c filename_categories); reflexivity.
Qed.

Lemma analysis_reports_widget_values_witness :
  exists id node_data widgets,
    f_node_id (MoreExamples.checkpoint_finding (PStr "model.safetensors")) = Some id
    /\ dict_get MoreExamples.scenario_a_nodes id = Some node_data
    /\ n_widgets_values node_data = Some widgets
    /\ widgets <> []
    /\ f_value (MoreExamples.checkpoint_finding (PStr "model.safetensors"))
       = Some (reported_widgets posix_basename "Base Models" widgets).
Proof.
  exact (analysis_reports_widget_values posix_basename MoreExamples.scenario_a _ _ _ _ _
           MoreExamples.scenario_a_nodes_of MoreExamples.scenario_a_analysis
           (or_intror (or_introl eq_refl)) MoreExamples.scenario_a_result_lookup
           (or_introl eq_refl)).
Defined.

(** ** What the traversal does not miss *)

Section Thorough.

Variable nodes : dict node.
Variable links : list link.

(** The links the loop of [_traverse] follows to their source: every
    link but a CONDITIONING link, and but a MODEL link whose source is
    present with a record that is not empty, is enabled and has no
    widget values. *)
Definition followed (l : link) : bool :=
  if String.eqb (link_5 l) "CONDITIONING" then false
  else if String.eqb (link_5 l) "MODEL" then
    match get_record nodes (str_of_int (link_1 l)) with
    | Some source => if mode_of source =? 0 then has_widgets_values source else true
    | None => true
    end
  else true.

(** What the map [m] holds for the link [l] that enters [current]: the
    finding of a parameter source, a finding for a model source, a
    finding with the prompt resolved through a CONDITIONING link. *)
Definition reported (current : string) (l : link) (m : category_map) : Prop :=
  (forall source,
      str_in (link_5 l) parameter_link_types = true ->
      get_record nodes (str_of_int (link_1 l)) = Some source ->
      mode_of source = 0 ->
      has_widgets_values source = true ->
      exists items,
        m !! link_5 l = Some items
        /\ In (parameter_finding_of (link_5 l) (str_of_int (link_1 l)) source) items)
  /\ (forall source,
         link_5 l = "MODEL" ->
         get_record nodes (str_of_int (link_1 l)) = Some source ->
         mode_of source = 0 ->
         has_widgets_values source = true ->
         exists items item,
           m !! model_category source = Some items
           /\ In item items
           /\ f_node_id item = Some (str_of_int (link_1 l))
           /\ f_type item = Some "MODEL")
  /\ (forall name category part parts pv,
         link_5 l = "CONDITIONING" ->
         conditioning_input_name nodes current l = Return name ->
         prompt_category name = Some category ->
         trace_prompt_source nodes links (depth_bound links) (str_of_int (link_1 l)) ∅
         = Return (part :: parts, pv) ->
         exists items item,
           m !! category = Some items
           /\ In item items
           /\ f_value item = Some (PStr (strip (join " " (part :: parts))))).

Lemma reported_keeps (current : string) (l : link) (m m' : category_map) :
  keeps m m' -> reported current l m -> reported current l m'.
Proof.
  intros Hk (Hp & Hm & Hc). split; [|split].
  - intros source H1 H2 H3 H4. destruct (Hp source H1 H2 H3 H4) as (items & Hi & Hin).
    apply Hk in Hi as [more Hi]. exists (items ++ more).
    split; [exact Hi | apply in_or_app; by left].
  - intros source H1 H2 H3 H4.
    destruct (Hm source H1 H2 H3 H4) as (items & item & Hi & Hin & Hrest).
    apply Hk in Hi as [more Hi]. exists (items ++ more), item.
    split; [exact Hi|]. split; [apply in_or_app; by left | exact Hrest].
  - intros name category part parts pv H1 H2 H3 H4.
    destruct (Hc name category part parts pv H1 H2 H3 H4)
      as (items & item & Hi & Hin & Hrest).
    apply Hk in Hi as [more Hi]. exists (items ++ more), item.
    split; [exact Hi|]. split; [apply in_or_app; by left | exact Hrest].
Qed.

(** The link [l] into [current] is dealt with in the state [st]. *)
Definition dealt_with (current : string) (l : link) (st : tstate) : Prop :=
  (followed l = true -> str_of_int (link_1 l) ∈ visited st)
  /\ reported current l (identified_inputs st).

(** Every link into [x] is dealt with. *)
Definition closed (x : string) (st : tstate) : Prop :=
  forall node_data incoming l,
    get_record nodes x = Some node_data ->
    get_node_inputs_from_links x links = Return incoming ->
    In l incoming ->
    dealt_with x l st.

(** From [st] to [st'] the visited nodes and the findings stay, and every
    node visited on the way is closed. *)
Definition settles (st st' : tstate) : Prop :=
  visited st ⊆ visited st'
  /\ keeps (identified_inputs st) (identified_inputs st')
  /\ forall x, x ∈ visited st' -> x ∉ visited st -> closed x st'.

Lemma dealt_with_later (current : string) (l : link) (st st' : tstate) :
  visited st ⊆ visited st' ->
  keeps (identified_inputs st) (identified_inputs st') ->
  dealt_with current l st -> dealt_with current l st'.
Proof.
  intros Hv Hk [Hf Hr]. split; [|by eapply reported_keeps].
  intros H. apply Hv. by apply Hf.
Qed.

Lemma settles_refl (st : tstate) : settles st st.
Proof. split; [reflexivity|]. split; [apply keeps_refl|]. intros x H1 H2. by destruct H2. Qed.

Lemma settles_trans (st1 st2 st3 : tstate) :
  settles st1 st2 -> settles st2 st3 -> settles st1 st3.
Proof.
  intros (Hv12 & Hk12 & Hc12) (Hv23 & Hk23 & Hc23).
  split; [set_solver|]. split; [by eapply keeps_trans|].
  intros x Hx3 Hx1. destruct (decide (x ∈ visited st2)) as [Hx2|Hx2].
  - intros node_data incoming l Hget Hinc Hl.
    eapply dealt_with_later; [exact Hv23 | exact Hk23 |].
    by eapply (Hc12 x Hx2 Hx1).
  - by apply Hc23.
Qed.

Definition thorough (rec : walker) : Prop :=
  forall id st st', rec id st = Return st' -> id ∈ visited st' /\ settles st st'.

Lemma append_finding_In (c : string) (new_item : finding) (m : category_map) :
  exists items,
    append_finding c new_item (ensure_category c m) !! c = Some items
    /\ In new_item items.
Proof.
  rewrite append_finding_lookup_same. eexists. split; [reflexivity|].
  apply in_or_app. right. by left.
Qed.

Lemma append_finding_ensure_keeps (c : string) (new_item : finding) (m : category_map) :
  keeps m (append_finding c new_item (ensure_category c m)).
Proof.
  eapply keeps_trans; [apply ensure_category_keeps | apply append_finding_keeps].
Qed.

Lemma handle_conditioning_link_reported (current : string) (l : link)
    (m m' : category_map) :
  link_5 l = "CONDITIONING" ->
  handle_conditioning_link nodes links current l m = Return m' ->
  keeps m m' /\ reported current l m'.
Proof.
  intros Hty Hrun.
  split; [by eapply handle_conditioning_link_keeps|].
  split; [|split].
  - intros source Hp. rewrite Hty in Hp. discriminate Hp.
  - intros source Hm. rewrite Hty in Hm. discriminate Hm.
  - intros name category part parts pv _ Hname Hcat Hparts.
    unfold handle_conditioning_link in Hrun. rewrite Hname in Hrun.
    cbn [mbind outcome_bind] in Hrun. rewrite Hcat, Hparts in Hrun.
    cbn [mbind outcome_bind fst] in Hrun.
    rewrite ensure_category_items in Hrun.
    destruct (existsb _ _) eqn:Ex; injection Hrun as <-.
    + pose proof Ex as Ex'.
      apply existsb_default_nonempty in Ex' as [items Hitems].
      rewrite Hitems in Ex. cbn [default] in Ex.
      apply existsb_exists in Ex as [item [Hin Hv]].
      exists items, item. rewrite (ensure_category_present _ _ _ Hitems).
      split; [exact Hitems|]. split; [exact Hin|].
      unfold value_is in Hv. destruct (f_value item) as [[| | | |s| |]|];
        try discriminate Hv.
      apply String.eqb_eq in Hv. by subst.
    + destruct (append_finding_In category
                  (prompt_finding_of nodes (str_of_int (link_1 l))
                     (strip (join " " (part :: parts)))) m) as (items & Hi & Hin).
      exists items, (prompt_finding_of nodes (str_of_int (link_1 l))
                       (strip (join " " (part :: parts)))).
      split; [exact Hi|]. split; [exact Hin | reflexivity].
Qed.

Lemma thorough_step (rec : walker) (current : string) (l : link)
    (st mid st' : tstate) :
  thorough rec ->
  visited mid = visited st ->
  keeps (identified_inputs st) (identified_inputs mid) ->
  reported current l (identified_inputs mid) ->
  rec (str_of_int (link_1 l)) mid = Return st' ->
  settles st st' /\ dealt_with current l st'.
Proof.
  intros Hrec Hv Hk Hr Hrun. apply Hrec in Hrun as [Hin (Hv' & Hk' & Hc')].
  split.
  - split; [by rewrite <- Hv|]. split; [by eapply keeps_trans|].
    intros x Hx Hx0. apply Hc'; [exact Hx | by rewrite Hv].
  - split; [auto | by eapply reported_keeps].
Qed.

(** The clauses of [reported] that the payload type of the link rules
    out. *)
Ltac no_prompt_clause :=
  match goal with
  | Hc : link_5 _ <> "CONDITIONING" |- _ =>
      let H := fresh in intros ? ? ? ? ? H; by destruct Hc
  end.

Ltac no_model_clause :=
  match goal with
  | Hm : link_5 _ <> "MODEL" |- _ => let H := fresh in intros ? H; by destruct Hm
  end.

Ltac no_parameter_clause :=
  let H := fresh in
  intros ? H;
  match goal with
  | Em : link_5 _ = "MODEL" |- _ => rewrite Em in H; discriminate H
  | Ep : str_in (link_5 _) parameter_link_types = false |- _ =>
      rewrite Ep in H; discriminate H
  end.

Lemma handle_link_thorough (rec : walker) (current : string) (l : link)
    (st st' : tstate) :
  thorough rec ->
  handle_link nodes links rec current l st = Return st' ->
  settles st st' /\ dealt_with current l st'.
Proof.
  intros Hrec. unfold handle_link.
  destruct (String.eqb (link_5 l) "CONDITIONING") eqn:Ec.
  { intros H. apply bind_Return in H as [m [Hm [= <-]]].
    apply handle_conditioning_link_reported in Hm as [Hk Hr];
      [|by apply String.eqb_eq].
    split; [|split; [unfold followed; rewrite Ec; discriminate | exact Hr]].
    split; [reflexivity|]. split; [exact Hk|]. intros x Hx Hx'. by destruct Hx'. }
  assert (Hc : link_5 l <> "CONDITIONING") by (by apply String.eqb_neq).
  destruct (String.eqb (link_5 l) "MODEL") eqn:Em.
  { apply String.eqb_eq in Em.
    destruct (get_record nodes (str_of_int (link_1 l))) as [source|] eqn:Hsrc.
    2:{ intros H. refine (thorough_step rec current l st _ st' Hrec _ _ _ H);
          [reflexivity | apply keeps_refl |].
        split; [no_parameter_clause|]. split; [|no_prompt_clause].
        intros s _ Hs. rewrite Hsrc in Hs. discriminate Hs. }
    destruct (mode_of source =? 0) eqn:Hmode.
    2:{ intros H. refine (thorough_step rec current l st _ st' Hrec _ _ _ H);
          [reflexivity | apply keeps_refl |].
        split; [no_parameter_clause|]. split; [|no_prompt_clause].
        intros s _ Hs Hm0. rewrite Hsrc in Hs. injection Hs as <-.
        rewrite Hm0 in Hmode. discriminate Hmode. }
    destruct (n_widgets_values source) as [[|w ws]|] eqn:Ew; cbn [default].
    1,3: (intros [= <-]; split; [apply settles_refl|];
          split;
          [ unfold followed; rewrite Ec, Hsrc, Hmode, Em; cbn [String.eqb];
            unfold has_widgets_values; rewrite Ew; discriminate |];
          split; [no_parameter_clause|]; split; [|no_prompt_clause];
          intros s _ Hs _ Hw; rewrite Hsrc in Hs; injection Hs as <-;
          unfold has_widgets_values in Hw; rewrite Ew in Hw; discriminate Hw).
    rewrite ensure_category_items. rewrite Em.
    assert (Hreport : forall (m : category_map) item items,
               m !! model_category source = Some items -> In item items ->
               f_node_id item = Some (str_of_int (link_1 l)) ->
               f_type item = Some "MODEL" ->
               reported current l m).
    { intros m item items Hi Hin Hid Hty.
      split; [no_parameter_clause|]. split; [|no_prompt_clause].
      intros s _ Hs _ _. rewrite Hsrc in Hs. injection Hs as <-.
      exists items, item. auto. }
    destruct (existsb _ _) eqn:Ex.
    - pose proof Ex as Ex'.
      apply existsb_default_nonempty in Ex' as [items Hitems].
      rewrite Hitems in Ex. cbn [default] in Ex.
      apply existsb_exists in Ex as [item [Hin Hv]].
      apply andb_true_iff in Hv as [Hid Hty].
      apply bool_decide_eq_true in Hid, Hty.
      rewrite (ensure_category_present _ _ _ Hitems).
      intros H. refine (thorough_step rec current l st _ st' Hrec _ _ _ H);
          [reflexivity | apply keeps_refl |].
      cbn [identified_inputs]. by eapply Hreport.
    - intros H. refine (thorough_step rec current l st _ st' Hrec _ _ _ H); [reflexivity | |].
      + cbn [identified_inputs]. apply append_finding_ensure_keeps.
      + cbn [identified_inputs].
        match goal with
        | |- reported _ _ (append_finding ?c ?x (ensure_category ?c ?m)) =>
            destruct (append_finding_In c x m) as (items & Hi & Hin);
            eapply (Hreport _ x items Hi Hin); reflexivity
        end. }
  assert (Hm : link_5 l <> "MODEL") by (by apply String.eqb_neq).
  destruct (str_in (link_5 l) parameter_link_types) eqn:Ep.
  2:{ intros H. refine (thorough_step rec current l st _ st' Hrec _ _ _ H);
          [reflexivity | apply keeps_refl |].
      split; [no_parameter_clause|]. split; [no_model_clause | no_prompt_clause]. }
  destruct (get_record nodes (str_of_int (link_1 l))) as [source|] eqn:Hsrc.
  2:{ intros H. refine (thorough_step rec current l st _ st' Hrec _ _ _ H);
          [reflexivity | apply keeps_refl |].
      split; [|split; [no_model_clause | no_prompt_clause]].
      intros s _ Hs. rewrite Hsrc in Hs. discriminate Hs. }
  destruct (mode_of source =? 0) eqn:Hmode.
  2:{ intros H. refine (thorough_step rec current l st _ st' Hrec _ _ _ H);
          [reflexivity | apply keeps_refl |].
      split; [|split; [no_model_clause | no_prompt_clause]].
      intros s _ Hs Hm0. rewrite Hsrc in Hs. injection Hs as <-.
      rewrite Hm0 in Hmode. discriminate Hmode. }
  destruct (has_widgets_values source) eqn:Hw.
  - intros H. refine (thorough_step rec current l st _ st' Hrec _ _ _ H); [reflexivity | |].
    + cbn [identified_inputs]. apply append_finding_ensure_keeps.
    + cbn [identified_inputs].
      split; [|split; [no_model_clause | no_prompt_clause]].
      intros s _ Hs _ _. rewrite Hsrc in Hs. injection Hs as <-.
      apply append_finding_In.
  - intros H. refine (thorough_step rec current l st _ st' Hrec _ _ _ H); [reflexivity | |].
    + cbn [identified_inputs]. apply keeps_refl.
    + cbn [identified_inputs].
      split; [|split; [no_model_clause | no_prompt_clause]].
      intros s _ Hs _ Hw'. rewrite Hsrc in Hs. injection Hs as <-.
      rewrite Hw' in Hw. discriminate Hw.
Qed.

Lemma links_loop_thorough (rec : walker) (current : string) (incoming : list link) :
  thorough rec ->
  forall st st',
    links_loop (handle_link nodes links rec current) incoming st = Return st' ->
    settles st st' /\ forall l, In l incoming -> dealt_with current l st'.
Proof.
  intros Hrec. induction incoming as [|l rest IH]; intros st st'; simpl.
  - intros [= <-]. split; [apply settles_refl | intros l []].
  - intros H. apply bind_Return in H as [st1 [H1 H]].
    apply handle_link_thorough in H1 as [Hs1 Hd1]; [|exact Hrec].
    apply IH in H as [Hs Hd].
    split; [by eapply settles_trans|].
    intros l' [<-|Hl']; [|by apply Hd].
    destruct Hs as (Hv & Hk & _). by eapply dealt_with_later.
Qed.

Lemma traverse_thorough (fuel : nat) : thorough (traverse nodes links fuel).
Proof.
  induction fuel as [|fuel IH]; intros id st st'; simpl; [discriminate|].
  case_bool_decide as Hvis; [intros [= <-]; split; [exact Hvis | apply settles_refl]|].
  assert (Hmark : forall m,
             keeps (identified_inputs st) m ->
             (forall node_data incoming l,
                 get_record nodes id = Some node_data ->
                 get_node_inputs_from_links id links = Return incoming ->
                 In l incoming -> False) ->
             id ∈ visited (TState ({[id]} ∪ visited st) m)
             /\ settles st (TState ({[id]} ∪ visited st) m)).
  { intros m Hk Hnone. cbn [visited identified_inputs].
    split; [set_solver|]. split; [set_solver|]. split; [exact Hk|].
    intros x Hx Hx'. assert (x = id) as -> by set_solver.
    intros node_data incoming l Hget Hinc Hl. by destruct (Hnone _ _ _ Hget Hinc Hl). }
  destruct (get_record nodes id) as [nd|] eqn:Hget.
  2:{ intros [= <-]. apply Hmark; [apply keeps_refl|]. intros ? ? ? [=]. }
  intros H. apply bind_Return in H as [inc [Hinc H]].
  destruct inc as [|l0 inc].
  - assert (Hnone : forall node_data incoming l,
               Some nd = Some node_data ->
               get_node_inputs_from_links id links = Return incoming ->
               In l incoming -> False).
    { intros ? incoming l _ Hinc'. rewrite Hinc in Hinc'. by injection Hinc' as <-. }
    destruct (_ && _); injection H as <-; cbn [visited identified_inputs];
      apply Hmark; auto using keeps_refl, append_finding_ensure_keeps.
  - apply links_loop_thorough in H as [(Hv & Hk & Hc) Hd]; [|exact IH].
    cbn [visited identified_inputs] in *.
    split; [set_solver|]. split; [set_solver|]. split; [exact Hk|].
    intros x Hx Hx'. destruct (decide (x = id)) as [->|Hne].
    + intros node_data incoming l _ Hinc' Hl.
      rewrite Hinc in Hinc'. injection Hinc' as <-. by apply Hd.
    + apply Hc; [exact Hx | set_solver].
Qed.

(** The nodes the traversal from [start] arrives at: [start], and the
    source of a followed link that enters a node already arrived at
    whose record is in the mapping and is not empty (at an empty record
    the traversal returns as it does at a missing one). *)
Inductive arrives_at (start : string) : string -> Prop :=
| arrives_at_start : arrives_at start start
| arrives_at_source (id : string) (node_data : node) (incoming : list link) (l : link) :
    arrives_at start id ->
    get_record nodes id = Some node_data ->
    get_node_inputs_from_links id links = Return incoming ->
    In l incoming ->
    followed l = true ->
    arrives_at start (str_of_int (link_1 l)).

Lemma traverse_deals_with_every_link (fuel : nat) (start : string) (st : tstate)
    (id : string) (node_data : node) (incoming : list link) (l : link) :
  traverse nodes links fuel start (TState ∅ ∅) = Return st ->
  arrives_at start id ->
  get_record nodes id = Some node_data ->
  get_node_inputs_from_links id links = Return incoming ->
  In l incoming ->
  reported id l (identified_inputs st).
Proof.
  intros Hrun Harr Hget Hinc Hl.
  apply traverse_thorough in Hrun as [Hstart (_ & _ & Hc)].
  assert (Hclosed : forall x, x ∈ visited st -> closed x st).
  { intros x Hx. apply Hc; [exact Hx | apply not_elem_of_empty]. }
  assert (Hvisited : id ∈ visited st).
  { clear Hget Hinc Hl. induction Harr as [|x nd inc l' _ IH Hget Hinc Hl Hf];
      [exact Hstart|].
    by apply (Hclosed x IH nd inc l' Hget Hinc Hl). }
  exact (proj2 (Hclosed id Hvisited node_data incoming l Hget Hinc Hl)).
Qed.

End Thorough.

(** X18.  The Provenance Tracer misses no link on its way.  For every
    link that enters a node the traversal arrives at - the start node,
    or the source of a link it follows from such a node, the record of
    each node on the way being in the mapping and not empty - its result
    holds: the finding of the link's source when the link carries a
    parameter payload, a finding that names the source with type MODEL
    when it is a MODEL link (the source being present with a record that
    is not empty, enabled and with widget values in both cases), and a
    finding whose value is the resolved prompt when it is a CONDITIONING
    link into a positive or negative input that resolves to at least one
    part. *)
Theorem tracer_reports_every_link_it_arrives_at (start_node_id : string) (w : workflow)
    (nodes : dict node) (m : category_map) (id : string) (node_data : node)
    (incoming : list link) (l : link) :
  nodes_of w = Some nodes ->
  trace_workflow_inputs start_node_id w = Return m ->
  arrives_at nodes (default [] (wf_links w)) start_node_id id ->
  get_record nodes id = Some node_data ->
  get_node_inputs_from_links id (default [] (wf_links w)) = Return incoming ->
  In l incoming ->
  reported nodes (default [] (wf_links w)) id l m.
Proof.
  intros Hnodes Hrun Harr Hget Hinc Hl.
  apply trace_workflow_inputs_run in Hrun as [[Hn _]|Hrun]; [congruence|].
  destruct Hrun as (nodes' & st & Hnodes' & Hrun & ->).
  assert (nodes' = nodes) as -> by congruence.
  by eapply traverse_deals_with_every_link.
Qed.

Lemma tracer_reports_every_link_it_arrives_at_witness :
  reported MoreExamples.scenario_a_nodes (default [] (wf_links MoreExamples.scenario_a))
    "1" (Link 0 2 0 1 0 "MODEL") MoreExamples.scenario_a_raw.
Proof.
  exact (tracer_reports_every_link_it_arrives_at "1" MoreExamples.scenario_a
           MoreExamples.scenario_a_nodes MoreExamples.scenario_a_raw "1"
           (Examples.mk 1 "SaveImage" (Some [Examples.slot "image" "IMAGE"]) None)
           [Link 0 2 0 1 0 "MODEL"] (Link 0 2 0 1 0 "MODEL")
           MoreExamples.scenario_a_nodes_of MoreExamples.scenario_a_trace
           (arrives_at_start _ _ _) eq_refl eq_refl (or_introl eq_refl)).
Defined.

Lemma keep_first_names (items : list finding) (node_ids : list (option string))
    (item : finding) :
  In item items ->
  f_node_id item ∉ node_ids ->
  exists kept, In kept (keep_first node_ids items) /\ f_node_id kept = f_node_id item.
Proof.
  revert node_ids. induction items as [|x rest IH]; intros node_ids Hin Hid; [by destruct Hin|].
  simpl. case_bool_decide as Hx.
  - destruct Hin as [->|Hin]; [by destruct Hid|]. by apply IH.
  - destruct Hin as [->|Hin]; [exists item; split; [by left | reflexivity]|].
    destruct (decide (f_node_id item = f_node_id x)) as [E|Hne].
    + exists x. split; [by left | by rewrite E].
    + destruct (IH (node_ids ++ [f_node_id x]) Hin) as (kept & Hk & Hkid).
      * intros H. apply elem_of_app in H as [H|H]; [by apply Hid|].
        apply list_elem_of_singleton in H. by apply Hne.
      * exists kept. split; [by right | exact Hkid].
Qed.

(** X19.  End to end: when a MODEL link or a parameter link enters a
    node that the traversal from the located sink arrives at through
    nodes whose records are not empty, and its source is present,
    enabled and has widget values, the entry point's result names the
    source - under LoRA Models or Base Models for a MODEL link, under
    the payload type for a parameter link. *)
Theorem analysis_names_every_source_it_arrives_at (basename : string -> string)
    (w : workflow) (nodes : dict node) (m : category_map) (sink_id : string)
    (sink : node) (id : string) (node_data : node) (incoming : list link) (l : link)
    (source : node) :
  nodes_of w = Some nodes ->
  analyze_comfyui_workflow basename (WorkflowDict w) = Return (Some m) ->
  find_image_save_node nodes = Some (sink_id, sink) ->
  arrives_at nodes (default [] (wf_links w)) sink_id id ->
  get_record nodes id = Some node_data ->
  get_node_inputs_from_links id (default [] (wf_links w)) = Return incoming ->
  In l incoming ->
  get_record nodes (str_of_int (link_1 l)) = Some source ->
  mode_of source = 0 ->
  has_widgets_values source = true ->
  link_5 l = "MODEL" \/ str_in (link_5 l) parameter_link_types = true ->
  exists items item,
    m !! (if String.eqb (link_5 l) "MODEL" then model_category source else link_5 l)
    = Some items
    /\ In item items
    /\ f_node_id item = Some (str_of_int (link_1 l)).
Proof.
  intros Hnodes Hrun Hsink Harr Hget Hinc Hl Hsrc Hmode Hw Hty.
  apply analyze_comfyui_workflow_run in Hrun
    as (nodes' & sink_id' & sink' & raw & Hnodes' & Hsink' & Hraw & ->).
  assert (nodes' = nodes) as -> by congruence.
  assert (sink_id' = sink_id) as -> by congruence.
  pose proof (trace_workflow_inputs_run _ _ _ Hraw) as [[Hn _]|Hrun]; [congruence|].
  destruct Hrun as (nodes' & st & Hnodes'' & Hrun & ->).
  assert (nodes' = nodes) as -> by congruence.
  pose proof (traverse_deals_with_every_link nodes _ _ _ _ _ _ _ _
                Hrun Harr Hget Hinc Hl) as (Hp & Hm & _).
  assert (Hraw_item : exists raw_items raw_item,
             identified_inputs st
               !! (if String.eqb (link_5 l) "MODEL" then model_category source
                   else link_5 l) = Some raw_items
             /\ In raw_item raw_items
             /\ f_node_id raw_item = Some (str_of_int (link_1 l))).
  { destruct Hty as [Hty|Hty].
    - destruct (Hm source Hty Hsrc Hmode Hw) as (items & item & Hi & Hin & Hid & _).
      rewrite Hty. cbn [String.eqb Ascii.eqb Bool.eqb]. eauto.
    - destruct (Hp source Hty Hsrc Hmode Hw) as (items & Hi & Hin).
      destruct (String.eqb (link_5 l) "MODEL") eqn:E.
      + apply String.eqb_eq in E. rewrite E in Hty. discriminate Hty.
      + eauto. }
  destruct Hraw_item as (raw_items & raw_item & Hi & Hin & Hid).
  destruct (keep_first_names raw_items [] raw_item Hin) as (kept & Hk & Hkid);
    [rewrite Hid; apply not_elem_of_nil|].
  set (c := if String.eqb (link_5 l) "MODEL" then model_category source else link_5 l)
    in *.
  rewrite process_workflow_metadata_lookup, Hi. cbn [fmap option_fmap option_map].
  eexists. exists (flatten_item basename c kept).
  split; [reflexivity|]. split; [by apply in_map|].
  rewrite flatten_item_node_id. congruence.
Qed.

Lemma analysis_names_every_source_it_arrives_at_witness :
  exists items item,
    MoreExamples.scenario_a_result
      !! (if String.eqb "MODEL" "MODEL"
          then model_category
                 (Examples.mk 2 "CheckpointLoader" None
                    (Some [PStr "models/model.safetensors"]))
          else "MODEL")
    = Some items
    /\ In item items
    /\ f_node_id item = Some (str_of_int 2).
Proof.
  exact (analysis_names_every_source_it_arrives_at posix_basename
           MoreExamples.scenario_a MoreExamples.scenario_a_nodes
           MoreExamples.scenario_a_result "1"
           (Examples.mk 1 "SaveImage" (Some [Examples.slot "image" "IMAGE"]) None) "1"
           (Examples.mk 1 "SaveImage" (Some [Examples.slot "image" "IMAGE"]) None)
           [Link 0 2 0 1 0 "MODEL"] (Link 0 2 0 1 0 "MODEL")
           (Examples.mk 2 "CheckpointLoader" None (Some [PStr "models/model.safetensors"]))
           MoreExamples.scenario_a_nodes_of MoreExamples.scenario_a_analysis
           eq_refl (arrives_at_start _ _ _) eq_refl eq_refl (or_introl eq_refl)
           eq_refl eq_refl eq_refl (or_introl eq_refl)).
Defined.

Module EmptyRecordExamples.

Import Examples.

(** A checkpoint loader (3) behind a node (2) whose record is the empty
    dict. *)
Definition cut_chain : workflow :=
  Workflow
    (Some (NodesMapping
       [ ("1", mk 1 "SaveImage" (Some [slot "images" "IMAGE"]) None);
         ("2", Node None None None None None None false);
         ("3", mk 3 "CheckpointLoader" None (Some [PStr "models/model.safetensors"])) ]))
    (Some [ Link 1 2 0 1 0 "MODEL"; Link 2 3 0 2 0 "MODEL" ]).

End EmptyRecordExamples.

(** The walk ends at an empty record: the loader behind it is not
    reached and the result is the empty map. *)
Lemma empty_record_ends_the_walk :
  analyze_comfyui_workflow posix_basename (WorkflowDict EmptyRecordExamples.cut_chain)
  = Return (Some ∅).
Proof. vm_compute. reflexivity. Qed.

(** * File names (app.py) *)

(** ** Embedding of [get_true_base_name] *)

(** [s.endswith(suffix)]: some tail of [s] is [suffix]. *)
Fixpoint endswith (s suffix : string) : bool :=
  String.eqb s suffix
  || match s with
     | EmptyString => false
     | String _ r => endswith r suffix
     end.

(** [s[:n]] for a count [n] of characters. *)
Fixpoint take_chars (n : nat) (s : string) : string :=
  match n, s with
  | S n', String c r => String c (take_chars n' r)
  | _, _ => EmptyString
  end.

(** [s[:-k]] for [0 < k]: all but the last [k] characters, and nothing
    when [s] has no more than [k]. *)
Definition drop_last (k : nat) (s : string) : string :=
  take_chars (String.length s - k) s.

Definition all_known_extensions : list string :=
  [ ".preview.jpeg"; ".preview.jpg"; ".preview.png"; ".preview.webp";
    ".cm-info.json"; ".info.json"; ".meta.json"; ".metadata.json";
    ".safetensors"; ".ckpt"; ".pt"; ".pth"; ".webm";
    ".jpg"; ".jpeg"; ".png"; ".webp"; ".gif"; ".json" ].

(** [sorted(l, key=len, reverse=True)]: longest first; the sort is
    stable, so strings of one length keep their order. *)
Fixpoint insert_by_length (x : string) (l : list string) : list string :=
  match l with
  | [] => [x]
  | y :: rest =>
      if (String.length x <? String.length y)%nat then y :: insert_by_length x rest
      else x :: l
  end.

Definition sorted_by_length_descending (l : list string) : list string :=
  fold_right insert_by_length [] l.

Definition all_known_extensions_sorted : list string :=
  sorted_by_length_descending all_known_extensions.

(** The [for ext in all_known_extensions_sorted] loop: the first
    extension the lower-cased name ends with is cut off the name. *)
Definition strip_known_extension (current_name : string) : option string :=
  match List.find (fun ext => endswith (lower current_name) ext)
          all_known_extensions_sorted with
  | Some ext => Some (drop_last (String.length ext) current_name)
  | None => None
  end.

(** The [while True] loop, with a budget of iterations. *)
Fixpoint strip_loop (fuel : nat) (current_name : string) : outcome string :=
  match fuel with
  | O => OutOfFuel
  | S fuel' =>
      match strip_known_extension current_name with
      | Some shorter => strip_loop fuel' shorter
      | None => Return current_name
      end
  end.

Section BaseName.

(** [os.path.splitext], which depends on the platform's path module. *)
Variable splitext : string -> string * string.

(** [get_true_base_name] on a string; no iteration of the loop leaves
    the name as long as it was, so one more than the length of the name
    is budget enough. *)
Definition get_true_base_name (filename : string) : outcome string :=
  if String.eqb filename "" then Return ""
  else
    current_name ← strip_loop (S (String.length filename)) filename;
    let current_name :=
      if endswith current_name "." then drop_last 1 current_name else current_name in
    if String.eqb current_name "" || String.eqb current_name filename then
      let base_name_from_splitext := fst (splitext filename) in
      if String.eqb base_name_from_splitext "" then Return filename
      else Return base_name_from_splitext
    else Return current_name.

End BaseName.

(** [posixpath.splitext]: the name is cut at its last dot when that dot
    comes after the last slash and after a character of the last
    component that is no dot. *)
Fixpoint rfind (c : ascii) (s : string) : option nat :=
  match s with
  | EmptyString => None
  | String c' r =>
      match rfind c r with
      | Some i => Some (S i)
      | None => if Ascii.eqb c' c then Some O else None
      end
  end.

Fixpoint drop_chars (n : nat) (s : string) : string :=
  match n, s with
  | S n', String _ r => drop_chars n' r
  | _, _ => s
  end.

Fixpoint only_dots (s : string) : bool :=
  match s with
  | EmptyString => true
  | String c r => Ascii.eqb c "." && only_dots r
  end.

Definition posix_splitext (p : string) : string * string :=
  let filename_index :=
    match rfind "/" p with Some i => S i | None => O end in
  match rfind "." p with
  | Some dot_index =>
      if (filename_index <=? dot_index)%nat
         && negb (only_dots (take_chars (dot_index - filename_index)
                               (drop_chars filename_index p)))
      then (take_chars dot_index p, drop_chars dot_index p)
      else (p, EmptyString)
  | None => (p, EmptyString)
  end.

(** ** Properties of [get_true_base_name] *)

Lemma all_known_extensions_sorted_eq :
  all_known_extensions_sorted
  = [ ".metadata.json";
      ".preview.jpeg"; ".preview.webp"; ".cm-info.json";
      ".preview.jpg"; ".preview.png"; ".safetensors";
      ".info.json"; ".meta.json";
      ".ckpt"; ".webm"; ".jpeg"; ".webp"; ".json";
      ".pth"; ".jpg"; ".png"; ".gif";
      ".pt" ].
Proof. reflexivity. Qed.

Lemma string_append_cons (c : ascii) (r t : string) : String c r +:+ t = String c (r +:+ t).
Proof. reflexivity. Qed.

Lemma string_length_append (s t : string) :
  String.length (s +:+ t) = (String.length s + String.length t)%nat.
Proof.
  induction s as [|c r IH]; [reflexivity|]. rewrite string_append_cons. simpl. by rewrite IH.
Qed.

Lemma lower_cons (c : ascii) (r : string) :
  lower (String c r) = String (lower_ascii c) (lower r).
Proof. reflexivity. Qed.

Lemma lower_length (s : string) : String.length (lower s) = String.length s.
Proof.
  induction s as [|c r IH]; [reflexivity|]. rewrite lower_cons. simpl. by rewrite IH.
Qed.

Lemma lower_append (s t : string) : lower (s +:+ t) = lower s +:+ lower t.
Proof.
  induction s as [|c r IH]; [reflexivity|].
  rewrite string_append_cons, !lower_cons, string_append_cons. by rewrite IH.
Qed.

Lemma endswith_length (s suffix : string) :
  endswith s suffix = true -> (String.length suffix <= String.length s)%nat.
Proof.
  induction s as [|c r IH]; cbn [endswith].
  - rewrite orb_false_r. intros H. apply String.eqb_eq in H. subst. simpl. lia.
  - intros H. apply orb_true_iff in H as [H|H].
    + apply String.eqb_eq in H. subst. simpl. lia.
    + apply IH in H. simpl. lia.
Qed.

Lemma take_chars_length (n : nat) (s : string) :
  String.length (take_chars n s) = Nat.min n (String.length s).
Proof.
  revert s. induction n as [|n IH]; intros [|c r]; simpl; try reflexivity.
  by rewrite IH.
Qed.

Lemma take_chars_prefix (n : nat) (s : string) : String.prefix (take_chars n s) s = true.
Proof.
  revert s. induction n as [|n IH]; intros [|c r]; simpl; try reflexivity.
  destruct (ascii_dec c c); [apply IH | congruence].
Qed.

Lemma string_prefix_refl (s : string) : String.prefix s s = true.
Proof.
  induction s as [|c r IH]; simpl; [reflexivity|].
  destruct (ascii_dec c c); [exact IH | congruence].
Qed.

Lemma string_prefix_trans (a b c : string) :
  String.prefix a b = true -> String.prefix b c = true -> String.prefix a c = true.
Proof.
  revert b c. induction a as [|x a IH]; intros [|y b] [|z c]; simpl; try done.
  destruct (ascii_dec x y); [|done]. destruct (ascii_dec y z); [|done].
  subst. destruct (ascii_dec z z); [|congruence]. apply IH.
Qed.

Lemma drop_last_prefix (k : nat) (s : string) : String.prefix (drop_last k s) s = true.
Proof. apply take_chars_prefix. Qed.

Lemma known_extensions_nonempty :
  Forall (fun ext => (0 < String.length ext)%nat) all_known_extensions_sorted.
Proof. rewrite all_known_extensions_sorted_eq. repeat constructor. Qed.

(** One iteration leaves a prefix of the name that is shorter. *)
Lemma strip_known_extension_shorter (current_name shorter : string) :
  strip_known_extension current_name = Some shorter ->
  (String.length shorter < String.length current_name)%nat
  /\ String.prefix shorter current_name = true.
Proof.
  unfold strip_known_extension.
  destruct (List.find _ _) as [ext|] eqn:Efind; [|discriminate].
  intros [= <-]. apply find_some in Efind as [Hin Hends].
  pose proof known_extensions_nonempty as Hne. rewrite Forall_forall in Hne.
  apply list_elem_of_In, Hne in Hin.
  apply endswith_length in Hends. rewrite lower_length in Hends.
  split; [|apply drop_last_prefix].
  unfold drop_last. rewrite take_chars_length. lia.
Qed.

Lemma strip_loop_returns (fuel : nat) (current_name : string) :
  (String.length current_name < fuel)%nat ->
  exists name,
    strip_loop fuel current_name = Return name
    /\ String.prefix name current_name = true
    /\ strip_known_extension name = None.
Proof.
  revert current_name. induction fuel as [|fuel IH]; intros current_name Hlen; [lia|].
  simpl. destruct (strip_known_extension current_name) as [shorter|] eqn:Estrip.
  - apply strip_known_extension_shorter in Estrip as [Hshorter Hprefix].
    destruct (IH shorter) as (name & Hrun & Hpre & Hend); [lia|].
    exists name. split; [exact Hrun|]. split; [|exact Hend].
    by apply (string_prefix_trans _ shorter).
  - exists current_name. split; [reflexivity|]. split; [apply string_prefix_refl | exact Estrip].
Qed.

(** X20.  [get_true_base_name] runs to the end on every file name,
    whatever [os.path.splitext] answers, and the name it returns is
    empty only for the empty file name. *)
Theorem get_true_base_name_returns_a_name (splitext : string -> string * string)
    (filename : string) :
  exists name,
    get_true_base_name splitext filename = Return name
    /\ (name = "" <-> filename = "").
Proof.
  unfold get_true_base_name.
  destruct (String.eqb filename "") eqn:Eempty.
  { exists "". split; [reflexivity|]. apply String.eqb_eq in Eempty. by subst. }
  apply String.eqb_neq in Eempty.
  destruct (strip_loop_returns (S (String.length filename)) filename)
    as (stripped & -> & _ & _); [lia|].
  cbn [mbind outcome_bind].
  set (current_name := if endswith stripped "." then drop_last 1 stripped else stripped).
  destruct (String.eqb current_name "") eqn:Ecur; cbn [orb].
  - destruct (String.eqb (fst (splitext filename)) "") eqn:Ebase.
    + exists filename. split; [reflexivity | tauto].
    + apply String.eqb_neq in Ebase. eexists. split; [reflexivity | tauto].
  - apply String.eqb_neq in Ecur.
    destruct (String.eqb current_name filename).
    + destruct (String.eqb (fst (splitext filename)) "") eqn:Ebase.
      * exists filename. split; [reflexivity | tauto].
      * apply String.eqb_neq in Ebase. eexists. split; [reflexivity | tauto].
    + exists current_name. split; [reflexivity | tauto].
Qed.

Lemma posix_splitext_prefix (p : string) :
  String.prefix (fst (posix_splitext p)) p = true.
Proof.
  unfold posix_splitext. destruct (rfind "." p) as [dot_index|];
    [|apply string_prefix_refl].
  destruct (_ && _); [apply take_chars_prefix | apply string_prefix_refl].
Qed.

(** X21.  The name [get_true_base_name] returns is an initial segment
    of the file name, provided the root [os.path.splitext] answers is
    one - as the root of [posixpath.splitext] is. *)
Theorem get_true_base_name_is_a_prefix (splitext : string -> string * string)
    (filename name : string) :
  (forall p, String.prefix (fst (splitext p)) p = true) ->
  get_true_base_name splitext filename = Return name ->
  String.prefix name filename = true.
Proof.
  intros Hsplit. unfold get_true_base_name.
  destruct (String.eqb filename "") eqn:Eempty.
  { intros [= <-]. by destruct filename. }
  destruct (strip_loop_returns (S (String.length filename)) filename)
    as (stripped & -> & Hprefix & _); [lia|].
  cbn [mbind outcome_bind].
  set (current_name := if endswith stripped "." then drop_last 1 stripped else stripped).
  assert (Hcur : String.prefix current_name filename = true).
  { subst current_name. destruct (endswith stripped "."); [|exact Hprefix].
    apply (string_prefix_trans _ stripped); [apply drop_last_prefix | exact Hprefix]. }
  destruct (_ || _).
  - destruct (String.eqb (fst (splitext filename)) "");
      intros [= <-]; [apply string_prefix_refl | apply Hsplit].
  - by intros [= <-].
Qed.

Lemma get_true_base_name_is_a_prefix_witness :
  String.prefix "archive.tar" "archive.tar.gz" = true.
Proof.
  apply (get_true_base_name_is_a_prefix posix_splitext "archive.tar.gz" "archive.tar").
  - exact posix_splitext_prefix.
  - vm_compute. reflexivity.
Defined.

(** *** Stacked extensions *)

Lemma take_chars_append (s q : string) : take_chars (String.length s) (s +:+ q) = s.
Proof.
  induction s as [|c r IH]; [by destruct q|]. rewrite string_append_cons. simpl. by rewrite IH.
Qed.

Lemma drop_last_append (s q : string) : drop_last (String.length q) (s +:+ q) = s.
Proof.
  unfold drop_last. rewrite string_length_append.
  replace (String.length s + String.length q - String.length q)%nat
    with (String.length s) by lia.
  apply take_chars_append.
Qed.

Lemma endswith_refl (s : string) : endswith s s = true.
Proof. destruct s; cbn [endswith]; by rewrite String.eqb_refl. Qed.

Lemma endswith_append (p q : string) : endswith (p +:+ q) q = true.
Proof.
  induction p as [|c r IH]; [apply endswith_refl|].
  rewrite string_append_cons. cbn [endswith]. rewrite IH. apply orb_true_r.
Qed.

(** A string that ends with [q] is what precedes, then [q]. *)
Lemma endswith_split (a q : string) :
  endswith a q = true -> a = drop_last (String.length q) a +:+ q.
Proof.
  induction a as [|c r IH]; cbn [endswith].
  - rewrite orb_false_r. intros H. apply String.eqb_eq in H. by subst.
  - intros H. apply orb_true_iff in H as [H|H].
    + apply String.eqb_eq in H. subst q. unfold drop_last.
      by rewrite Nat.sub_diag.
    + pose proof (endswith_length _ _ H) as Hlen. apply IH in H.
      unfold drop_last in *. cbn [String.length].
      replace (S (String.length r) - String.length q)%nat
        with (S (String.length r - String.length q)) by lia.
      cbn [take_chars]. rewrite string_append_cons. by rewrite <- H.
Qed.

(** [a] ends with [q] and is longer. *)
Definition extends_suffix (q a : string) : bool :=
  (String.length q <? String.length a)%nat && endswith a q.

(** A suffix of [p +:+ q] is a suffix of [q], or a suffix of [p]
    followed by [q]. *)
Lemma endswith_append_cases (p q a : string) :
  endswith (p +:+ q) a
  = endswith q a
    || (if extends_suffix q a then endswith p (drop_last (String.length q) a) else false).
Proof.
  induction p as [|c p IH].
  - change ("" +:+ q) with q. destruct (extends_suffix q a) eqn:E;
      [|by rewrite orb_false_r].
    unfold extends_suffix in E. apply andb_true_iff in E as [Hlt _].
    apply Nat.ltb_lt in Hlt.
    assert (Hne : String.length (drop_last (String.length q) a) <> O).
    { unfold drop_last. rewrite take_chars_length. lia. }
    destruct (drop_last (String.length q) a); [by destruct Hne|].
    cbn [endswith String.eqb]. by rewrite orb_false_r.
  - rewrite string_append_cons. cbn [endswith]. rewrite <- string_append_cons, IH.
    assert (Hhead : String.eqb (String c p +:+ q) a
                    = if extends_suffix q a
                      then String.eqb (String c p) (drop_last (String.length q) a)
                      else false).
    { destruct (String.eqb (String c p +:+ q) a) eqn:E1.
      - apply String.eqb_eq in E1. subst a. unfold extends_suffix.
        rewrite endswith_append, drop_last_append, String.eqb_refl.
        rewrite string_length_append. cbn [String.length].
        replace (_ <? _)%nat with true by (symmetry; apply Nat.ltb_lt; lia).
        reflexivity.
      - destruct (extends_suffix q a) eqn:E2; [|reflexivity].
        unfold extends_suffix in E2. apply andb_true_iff in E2 as [_ Hends].
        apply endswith_split in Hends.
        destruct (String.eqb (String c p) _) eqn:E3; [|reflexivity].
        apply String.eqb_eq in E3. rewrite <- E3 in Hends.
        apply String.eqb_neq in E1. congruence. }
    rewrite Hhead.
    destruct (extends_suffix q a), (endswith q a),
      (String.eqb (String c p) (drop_last (String.length q) a)); reflexivity.
Qed.

(** What precedes the last dot of the known extensions of two parts. *)
Definition first_components : list string :=
  [".preview"; ".cm-info"; ".info"; ".meta"; ".metadata"].

(** A stem: a name that is not empty, does not end with a dot, and does
    not end, letter case apart, with a known extension or with the first
    part of one. *)
Definition plain_stem (stem : string) : bool :=
  negb (String.eqb stem "")
  && negb (endswith stem ".")
  && forallb (fun s => negb (endswith (lower stem) s))
       (all_known_extensions ++ first_components).

Definition no_first_component (s : string) : Prop :=
  forall h, In h first_components -> endswith s h = false.

(** The test of the loop on [lp +:+ e], with the suffixes of [lp] that
    are a first part left out. *)
Definition ends_with_given (lp e a : string) : bool :=
  endswith e a
  || (if extends_suffix e a
      then negb (str_in (drop_last (String.length e) a) first_components)
           && endswith lp (drop_last (String.length e) a)
      else false).

Lemma str_in_true (x : string) (l : list string) : In x l -> str_in x l = true.
Proof.
  intros H. unfold str_in. apply existsb_exists. exists x.
  split; [exact H | apply String.eqb_refl].
Qed.

Lemma endswith_given (lp e a : string) :
  no_first_component lp -> endswith (lp +:+ e) a = ends_with_given lp e a.
Proof.
  intros Hlp. rewrite endswith_append_cases. unfold ends_with_given.
  destruct (extends_suffix e a); [|reflexivity].
  destruct (str_in (drop_last (String.length e) a) first_components) eqn:E;
    [|reflexivity].
  apply str_in_In, Hlp in E. by rewrite E.
Qed.

Lemma find_ext_in {A : Type} (f g : A -> bool) (l : list A) :
  (forall x, In x l -> f x = g x) -> List.find f l = List.find g l.
Proof.
  induction l as [|x l IH]; intros H; simpl; [reflexivity|].
  rewrite (H x) by (by left). destruct (g x); [reflexivity|].
  apply IH. intros y Hy. apply H. by right.
Qed.

(** The loop meets a known extension that ends the name before any
    other one. *)
Lemma known_extension_is_met_first (lp : string) :
  forallb (fun e =>
             match List.find (ends_with_given lp e) all_known_extensions_sorted with
             | Some e' => String.eqb e' e
             | None => false
             end) all_known_extensions = true.
Proof. vm_compute. reflexivity. Qed.

Lemma known_extension_ends_no_first_component :
  forallb (fun e =>
             forallb (fun h => negb (endswith e h) && negb (extends_suffix e h))
               first_components) all_known_extensions = true.
Proof. vm_compute. reflexivity. Qed.

Lemma no_first_component_append (Y E : string) :
  In (lower E) all_known_extensions -> no_first_component (lower (Y +:+ E)).
Proof.
  intros HE h Hh. rewrite lower_append, endswith_append_cases.
  pose proof known_extension_ends_no_first_component as Hall.
  rewrite forallb_forall in Hall. specialize (Hall _ HE).
  rewrite forallb_forall in Hall. specialize (Hall _ Hh).
  apply andb_true_iff in Hall as [H1 H2].
  apply negb_true_iff in H1, H2. by rewrite H1, H2.
Qed.

Lemma strip_known_extension_append (Y E : string) :
  no_first_component (lower Y) ->
  In (lower E) all_known_extensions ->
  strip_known_extension (Y +:+ E) = Some Y.
Proof.
  intros HY HE. unfold strip_known_extension. rewrite lower_append.
  rewrite (find_ext_in _ (ends_with_given (lower Y) (lower E)))
    by (intros a _; by apply endswith_given).
  pose proof (known_extension_is_met_first (lower Y)) as Hall.
  rewrite forallb_forall in Hall. specialize (Hall _ HE).
  destruct (List.find _ _) as [e'|]; [|discriminate].
  apply String.eqb_eq in Hall. subst e'.
  rewrite lower_length. by rewrite drop_last_append.
Qed.

Lemma plain_stem_spec (stem : string) :
  plain_stem stem = true ->
  stem <> ""
  /\ endswith stem "." = false
  /\ strip_known_extension stem = None
  /\ no_first_component (lower stem).
Proof.
  unfold plain_stem. intros H.
  apply andb_true_iff in H as [H H3]. apply andb_true_iff in H as [H1 H2].
  apply negb_true_iff in H1, H2. apply String.eqb_neq in H1.
  rewrite forallb_forall in H3.
  split; [exact H1|]. split; [exact H2|]. split.
  - unfold strip_known_extension.
    destruct (List.find _ _) as [ext|] eqn:Efind; [|reflexivity].
    apply find_some in Efind as [Hin Hends].
    assert (Hknown : In ext all_known_extensions).
    { rewrite all_known_extensions_sorted_eq in Hin. unfold all_known_extensions.
      simpl in Hin. simpl. tauto. }
    specialize (H3 ext (in_or_app _ _ _ (or_introl Hknown))).
    rewrite Hends in H3. discriminate H3.
  - intros h Hh. apply negb_true_iff. apply H3. apply in_or_app. by right.
Qed.

(** The name made of a stem and the extensions put after it. *)
Definition with_extensions (stem : string) (extensions : list string) : string :=
  fold_left String.append extensions stem.

Lemma with_extensions_snoc (stem : string) (extensions : list string) (E : string) :
  with_extensions stem (extensions ++ [E]) = with_extensions stem extensions +:+ E.
Proof. unfold with_extensions. by rewrite fold_left_app. Qed.

Lemma with_extensions_no_first_component (stem : string) (extensions : list string) :
  no_first_component (lower stem) ->
  Forall (fun E => In (lower E) all_known_extensions) extensions ->
  no_first_component (lower (with_extensions stem extensions)).
Proof.
  intros Hstem Hall. destruct extensions as [|E0 rest] using rev_ind; [exact Hstem|].
  apply Forall_app in Hall as [_ HE]. apply Forall_inv in HE.
  rewrite with_extensions_snoc. by apply no_first_component_append.
Qed.

Lemma with_extensions_length (stem : string) (extensions : list string) :
  Forall (fun E => In (lower E) all_known_extensions) extensions ->
  (String.length stem + length extensions
   <= String.length (with_extensions stem extensions))%nat.
Proof.
  induction extensions as [|E rest IH] using rev_ind; intros Hall; [simpl; lia|].
  apply Forall_app in Hall as [Hrest HE]. apply Forall_inv in HE.
  rewrite with_extensions_snoc, string_length_append, length_app. simpl.
  specialize (IH Hrest).
  assert (0 < String.length E)%nat; [|lia].
  rewrite <- lower_length. destruct (lower E); [|simpl; lia].
  exfalso. unfold all_known_extensions in HE. simpl in HE.
  repeat (destruct HE as [HE|HE]; [discriminate HE|]). exact HE.
Qed.

Lemma strip_loop_with_extensions (stem : string) (extensions : list string) :
  plain_stem stem = true ->
  Forall (fun E => In (lower E) all_known_extensions) extensions ->
  forall fuel,
    (length extensions < fuel)%nat ->
    strip_loop fuel (with_extensions stem extensions) = Return stem.
Proof.
  intros Hplain. apply plain_stem_spec in Hplain as (_ & _ & Hnone & Hfirst).
  induction extensions as [|E rest IH] using rev_ind; intros Hall fuel Hfuel.
  - destruct fuel as [|fuel]; [simpl in Hfuel; lia|].
    cbn [strip_loop with_extensions fold_left]. by rewrite Hnone.
  - apply Forall_app in Hall as [Hrest HE]. apply Forall_inv in HE.
    rewrite length_app in Hfuel. simpl in Hfuel.
    destruct fuel as [|fuel]; [lia|].
    rewrite with_extensions_snoc. cbn [strip_loop].
    rewrite strip_known_extension_append;
      [|by apply with_extensions_no_first_component|exact HE].
    apply IH; [exact Hrest | lia].
Qed.

(** X22.  A stem followed by known extensions, one or several and in
    any letter case, has the stem as its true base name, whatever
    [os.path.splitext] answers: a model file, its preview and its
    metadata files share one base name. *)
Theorem known_extensions_are_stripped (splitext : string -> string * string)
    (stem : string) (extension : string) (extensions : list string) :
  plain_stem stem = true ->
  Forall (fun E => In (lower E) all_known_extensions) (extension :: extensions) ->
  get_true_base_name splitext (with_extensions stem (extension :: extensions))
  = Return stem.
Proof.
  intros Hplain Hall.
  pose proof (with_extensions_length stem _ Hall) as Hlen.
  pose proof (plain_stem_spec _ Hplain) as (Hne & Hdot & _ & _).
  unfold get_true_base_name.
  set (filename := with_extensions stem (extension :: extensions)) in *.
  cbn [length] in Hlen.
  assert (String.eqb filename "" = false) as ->.
  { apply String.eqb_neq. intros E. rewrite E in Hlen. simpl in Hlen. lia. }
  rewrite (strip_loop_with_extensions stem _ Hplain Hall) by (simpl; lia).
  cbn [mbind outcome_bind]. rewrite Hdot.
  assert (String.eqb stem "" = false) as -> by (by apply String.eqb_neq).
  assert (String.eqb stem filename = false) as ->.
  { apply String.eqb_neq. intros E. rewrite <- E in Hlen. lia. }
  reflexivity.
Qed.

Lemma known_extensions_are_stripped_witness :
  get_true_base_name posix_splitext
    (with_extensions "my.model.v2" [".safetensors"; ".Preview.PNG"])
  = Return "my.model.v2".
Proof.
  apply known_extensions_are_stripped.
  - reflexivity.
  - repeat constructor; simpl; tauto.
Defined.
